(** * site-cloner: asset extraction and site traversal

    A shallow embedding of [src/site_cloner/main.py] and the properties of
    its asset classifier, stylesheet scanner, structure analyzer,
    depth-bounded crawl and asset download.

    Conventions of the embedding.
    - A Python [str] is a [string]; its characters are the code points
      below 256, which is where the case mapping, the white space and the
      regular-expression classes used by the program are written out.
    - A call that may raise is a computation in [Res]: [Ret v] for a normal
      return, [Raise e] for a raised exception.  [try ... except Exception]
      is [try_except].
    - The network and the markup parser are collaborators of the program;
      they are the fields of the record [Env], which every function of the
      program takes.
    - The functions of the Python standard library that the program calls
      ([urllib.parse], the two regular expressions given to [re.findall])
      are written out in the modules [Str], [Re] and [urllib]; the pure
      paths of [pathlib] that [download_asset] computes with are written
      out in the module [pathlib], and the disk it writes to is the record
      [Disk]. *)

From Stdlib Require Import ZArith Ascii String.
From stdpp Require Import gmap strings list fin_maps pretty.

Local Open Scope string_scope.
Local Open Scope list_scope.

(** * Python strings *)

Module Str.

Definition code (c : ascii) : nat := nat_of_ascii c.

Definition eqc (a b : ascii) : bool := Ascii.eqb a b.

(** [str.isspace] on one character. *)
Definition isspace (c : ascii) : bool :=
  let n := code c in
  ((9 <=? n) && (n <=? 13) || (28 <=? n) && (n <=? 32)
   || (n =? 133) || (n =? 160))%nat.

Definition is_ascii_upper (c : ascii) : bool :=
  let n := code c in ((65 <=? n) && (n <=? 90))%nat.

Definition is_ascii_lower (c : ascii) : bool :=
  let n := code c in ((97 <=? n) && (n <=? 122))%nat.

Definition is_ascii_digit (c : ascii) : bool :=
  let n := code c in ((48 <=? n) && (n <=? 57))%nat.

(** [c.isascii() and c.isalpha()] *)
Definition is_ascii_alpha (c : ascii) : bool :=
  is_ascii_upper c || is_ascii_lower c.

(** [str.lower] on one character: the letters A-Z, and the upper-case
    letters of the Latin-1 block (all of 0xC0-0xDE but the sign 0xD7). *)
Definition lower_char (c : ascii) : ascii :=
  let n := code c in
  if is_ascii_upper c || ((192 <=? n) && (n <=? 222) && negb (n =? 215))%nat
  then ascii_of_nat (n + 32) else c.

Fixpoint lower (s : string) : string :=
  match s with
  | EmptyString => EmptyString
  | String c s' => String (lower_char c) (lower s')
  end.

(** [c in s] for a character [c]. *)
Fixpoint has_char (c : ascii) (s : string) : bool :=
  match s with
  | EmptyString => false
  | String a s' => eqc a c || has_char c s'
  end.

(** [s[:n]] and [s[n:]] *)
Fixpoint take (n : nat) (s : string) : string :=
  match n, s with
  | S n', String c s' => String c (take n' s')
  | _, _ => EmptyString
  end.

Fixpoint drop (n : nat) (s : string) : string :=
  match n, s with
  | S n', String _ s' => drop n' s'
  | _, _ => s
  end.

(** [s.find(c)]: the index of the first [c], if any. *)
Fixpoint find (c : ascii) (s : string) : option nat :=
  match s with
  | EmptyString => None
  | String a s' => if eqc a c then Some 0 else S <$> find c s'
  end.

(** [s.rfind(c)] *)
Fixpoint rfind (c : ascii) (s : string) : option nat :=
  match s with
  | EmptyString => None
  | String a s' =>
      match rfind c s' with
      | Some i => Some (S i)
      | None => if eqc a c then Some 0 else None
      end
  end.

(** [s.startswith(p)] *)
Fixpoint startswith (p s : string) : bool :=
  match p, s with
  | EmptyString, _ => true
  | String a p', String b s' => eqc a b && startswith p' s'
  | String _ _, EmptyString => false
  end.

(** [sub in s] for strings *)
Fixpoint contains (sub s : string) : bool :=
  startswith sub s ||
  match s with
  | EmptyString => false
  | String _ s' => contains sub s'
  end.

(** [s.partition(c)]: the text before the first [c], whether [c] was found,
    and the text after it. *)
Definition partition (c : ascii) (s : string) : string * bool * string :=
  match find c s with
  | Some i => (take i s, true, drop (S i) s)
  | None => (s, false, EmptyString)
  end.

(** [s.rpartition(c)] *)
Definition rpartition (c : ascii) (s : string) : string * bool * string :=
  match rfind c s with
  | Some i => (take i s, true, drop (S i) s)
  | None => (EmptyString, false, s)
  end.

(** [s.split(c)]: never empty. *)
Fixpoint split (c : ascii) (s : string) : list string :=
  match s with
  | EmptyString => [EmptyString]
  | String a s' =>
      if eqc a c then EmptyString :: split c s'
      else match split c s' with
           | h :: t => String a h :: t
           | [] => [String a EmptyString]
           end
  end.

(** [sep.join(l)] *)
Fixpoint join (sep : string) (l : list string) : string :=
  match l with
  | [] => EmptyString
  | [x] => x
  | x :: l' => x +:+ sep +:+ join sep l'
  end.

(** [s.lstrip(chars)], [s.rstrip(chars)] and [s.strip(chars)] for a set of
    characters given by its membership test. *)
Fixpoint lstrip_of (p : ascii -> bool) (s : string) : string :=
  match s with
  | EmptyString => EmptyString
  | String c s' => if p c then lstrip_of p s' else s
  end.

Fixpoint rstrip_of (p : ascii -> bool) (s : string) : string :=
  match s with
  | EmptyString => EmptyString
  | String c s' =>
      match rstrip_of p s' with
      | EmptyString => if p c then EmptyString else String c EmptyString
      | r => String c r
      end
  end.

Definition strip_of (p : ascii -> bool) (s : string) : string :=
  rstrip_of p (lstrip_of p s).

(** [s.strip()] *)
Definition strip (s : string) : string := strip_of isspace s.

(** [s.replace(c, empty)] for every character [c] of a set. *)
Fixpoint remove_chars (p : ascii -> bool) (s : string) : string :=
  match s with
  | EmptyString => EmptyString
  | String c s' => if p c then remove_chars p s' else String c (remove_chars p s')
  end.

(** The longest prefix whose characters all satisfy [p], and the rest. *)
Fixpoint span (p : ascii -> bool) (s : string) : string * string :=
  match s with
  | EmptyString => (EmptyString, EmptyString)
  | String c s' =>
      if p c then let '(a, b) := span p s' in (String c a, b)
      else (EmptyString, s)
  end.

Fixpoint all_chars (p : ascii -> bool) (s : string) : bool :=
  match s with
  | EmptyString => true
  | String c s' => p c && all_chars p s'
  end.

(** [s.split()]: the maximal runs of characters that are not white space. *)
Fixpoint words_from (cur : string) (s : string) : list string :=
  match s with
  | EmptyString => match cur with EmptyString => [] | _ => [cur] end
  | String c s' =>
      if isspace c
      then match cur with
           | EmptyString => words_from EmptyString s'
           | _ => cur :: words_from EmptyString s'
           end
      else words_from (cur +:+ String c EmptyString) s'
  end.

Definition words (s : string) : list string := words_from EmptyString s.

(** Python's truth value of a string. *)
Definition truthy (s : string) : bool :=
  match s with EmptyString => false | _ => true end.

End Str.

(** * The two regular expressions of the program *)

Module Re.

Definition is_quote (c : ascii) : bool :=
  Str.eqc c "039"%char || Str.eqc c "034"%char.

Definition newline : ascii := "010"%char.

(** The pattern for a reference is  url\( Q? (.*?) Q? \)  where Q is the class
    of the two quote characters (codes 39 and 34).

    [lazy_group] is the tail  (.*?) Q? \)  tried at the head of [s]: the
    group is extended one character at a time (the dot matches all but the
    line feed), and at each length the closing part is tried first with the
    quote, then without it.  The result is the group and the number of
    characters matched. *)
Fixpoint lazy_group (s : string) : option (string * nat) :=
  match s with
  | EmptyString => None
  | String c s' =>
      if is_quote c && Str.startswith ")" s' then Some (EmptyString, 2)
      else if Str.eqc c ")"%char then Some (EmptyString, 1)
      else if Str.eqc c newline then None
      else match lazy_group s' with
           | Some (g, n) => Some (String c g, S n)
           | None => None
           end
  end.

(** One match of the whole pattern starting at the head of [s]: the
    opening quote is taken when there is one, and given back when the rest
    does not match with it. *)
Definition match_url (s : string) : option (string * nat) :=
  if Str.startswith "url(" s then
    let r := Str.drop 4 s in
    let with_quote :=
      match r with
      | String c r' =>
          if is_quote c then
            match lazy_group r' with
            | Some (g, n) => Some (g, 5 + n)
            | None => None
            end
          else None
      | EmptyString => None
      end in
    match with_quote with
    | Some m => Some m
    | None =>
        match lazy_group r with
        | Some (g, n) => Some (g, 4 + n)
        | None => None
        end
    end
  else None.

(** [re.findall] with the reference pattern: the group of every match,
    left to right; [skip] counts the characters still covered by the last
    match, at which no new match starts. *)
Fixpoint findall_url_from (skip : nat) (s : string) : list string :=
  match s with
  | EmptyString => []
  | String _ s' =>
      match skip with
      | S k => findall_url_from k s'
      | O =>
          match match_url s with
          | Some (g, n) => g :: findall_url_from (n - 1) s'
          | None => findall_url_from 0 s'
          end
      end
  end.

Definition findall_url (s : string) : list string := findall_url_from 0 s.

(** One match of [@font-face\s*{[^}]+}] starting at the head of [s]: the
    matched text. *)
Definition match_font_face (s : string) : option string :=
  if Str.startswith "@font-face" s then
    let '(ws, r) := Str.span Str.isspace (Str.drop 10 s) in
    match r with
    | String c r' =>
        if Str.eqc c "{"%char then
          let '(body, r'') := Str.span (fun a => negb (Str.eqc a "}"%char)) r' in
          match body, r'' with
          | String _ _, String _ _ => Some ("@font-face" +:+ ws +:+ "{" +:+ body +:+ "}")
          | _, _ => None
          end
        else None
    | EmptyString => None
    end
  else None.

(** [re.findall(r"@font-face\s*{[^}]+}", s)] *)
Fixpoint findall_font_face_from (skip : nat) (s : string) : list string :=
  match s with
  | EmptyString => []
  | String _ s' =>
      match skip with
      | S k => findall_font_face_from k s'
      | O =>
          match match_font_face s with
          | Some m => m :: findall_font_face_from (String.length m - 1) s'
          | None => findall_font_face_from 0 s'
          end
      end
  end.

Definition findall_font_face (s : string) : list string :=
  findall_font_face_from 0 s.

End Re.

(** * Exceptions *)

(** The exceptions that matter to the program: the [ValueError] of
    [urllib.parse], the failures of the network layer (transport errors and
    the status error of [raise_for_status]), and the [KeyError] of a
    dictionary subscript. *)
Inductive Exn :=
  | ValueError (msg : string)
  | HTTPError (msg : string)
  | KeyError (key : string).

(** [str(e)] *)
Definition str_exn (e : Exn) : string :=
  match e with
  | ValueError msg => msg
  | HTTPError msg => msg
  | KeyError key => "'" +:+ key +:+ "'"
  end.

Definition is_ValueError (e : Exn) : Prop :=
  match e with ValueError _ => True | _ => False end.

Inductive Res (A : Type) :=
  | Ret (a : A)
  | Raise (e : Exn).

Arguments Ret {A} a.
Arguments Raise {A} e.

#[global] Instance res_ret : MRet Res := @Ret.

#[global] Instance res_bind : MBind Res := fun A B k m =>
  match m with
  | Ret a => k a
  | Raise e => Raise e
  end.

(** [try: body  except Exception as e: handler(e)] *)
Definition try_except {A} (body : Res A) (handler : Exn -> Res A) : Res A :=
  match body with
  | Ret a => Ret a
  | Raise e => handler e
  end.

(** A [for] loop whose body may raise: the state is threaded through the
    items in order and the first exception ends the loop. *)
Fixpoint for_each {A S : Type} (body : S -> A -> Res S) (l : list A) (s : S) : Res S :=
  match l with
  | [] => Ret s
  | x :: l' => s' ← body s x; for_each body l' s'
  end.

(** The values of [f] on the items of a list, as long as none raises. *)
Fixpoint map_res {A B : Type} (f : A -> Res B) (l : list A) : Res (list B) :=
  match l with
  | [] => Ret []
  | x :: l' => y ← f x; ys ← map_res f l'; Ret (y :: ys)
  end.

(** * urllib.parse *)

Module urllib.

Record ParseResult := mkParseResult {
  scheme : string;
  netloc : string;
  path : string;
  params : string;
  query : string;
  fragment : string
}.

Definition uses_relative : list string :=
  [""; "ftp"; "http"; "gopher"; "nntp"; "imap"; "wais"; "file"; "https";
   "shttp"; "mms"; "prospero"; "rtsp"; "rtspu"; "sftp"; "svn"; "svn+ssh";
   "ws"; "wss"].

Definition uses_netloc : list string :=
  [""; "ftp"; "http"; "gopher"; "nntp"; "telnet"; "imap"; "wais"; "file";
   "mms"; "https"; "shttp"; "snews"; "prospero"; "rtsp"; "rtspu"; "rsync";
   "svn"; "svn+ssh"; "sftp"; "nfs"; "git"; "git+ssh"; "ws"; "wss"].

Definition uses_params : list string :=
  [""; "ftp"; "hdl"; "prospero"; "http"; "imap"; "https"; "shttp"; "rtsp";
   "rtspu"; "sip"; "sips"; "mms"; "sftp"; "tel"].

Definition mem (s : string) (l : list string) : bool := bool_decide (s ∈ l).

Definition scheme_char (c : ascii) : bool :=
  Str.is_ascii_lower c || Str.is_ascii_upper c || Str.is_ascii_digit c
  || Str.eqc c "+"%char || Str.eqc c "-"%char || Str.eqc c "."%char.

(** The characters of [_WHATWG_C0_CONTROL_OR_SPACE]: codes 0 to 32. *)
Definition c0_control_or_space (c : ascii) : bool := (Str.code c <=? 32)%nat.

(** The characters of [_UNSAFE_URL_BYTES_TO_REMOVE]: tab, CR and LF. *)
Definition unsafe_url_byte (c : ascii) : bool :=
  let n := Str.code c in ((n =? 9) || (n =? 13) || (n =? 10))%nat.

(** [_splitnetloc(url, 2)] *)
Definition splitnetloc (url : string) : string * string :=
  Str.span (fun c => negb (Str.eqc c "/"%char || Str.eqc c "?"%char
                           || Str.eqc c "#"%char))
           (Str.drop 2 url).

Definition invalid_ipv6 : Exn := ValueError "Invalid IPv6 URL".

Section Parse.

(** [_check_bracketed_host]: the validation of a bracketed host by the
    [ipaddress] module and the IPvFuture pattern; it returns or raises
    [ValueError]. *)
Variable check_bracketed_host : string -> Res unit.

(** [_check_bracketed_netloc] *)
Definition check_bracketed_netloc (netloc : string) : Res unit :=
  let '(_, _, hostname_and_port) := Str.rpartition "@" netloc in
  let '(before_bracket, have_open_br, bracketed) :=
    Str.partition "[" hostname_and_port in
  if have_open_br then
    if Str.truthy before_bracket then Raise invalid_ipv6
    else
      let '(hostname, _, port) := Str.partition "]" bracketed in
      if Str.truthy port && negb (Str.startswith ":" port)
      then Raise invalid_ipv6
      else check_bracketed_host hostname
  else
    let '(hostname, _, _) := Str.partition ":" hostname_and_port in
    check_bracketed_host hostname.

(** [urlsplit(url, scheme)], fragments allowed.  [_checknetloc] is left out:
    it only raises when the NFKC form of a character of the host contains
    one of  / ? # @ :  and no code point below 256 has such a form. *)
Definition urlsplit (url scheme : string)
  : Res (string * string * string * string * string) :=
  let url := Str.lstrip_of c0_control_or_space url in
  let scheme := Str.strip_of c0_control_or_space scheme in
  let url := Str.remove_chars unsafe_url_byte url in
  let scheme := Str.remove_chars unsafe_url_byte scheme in
  let '(scheme, url) :=
    match Str.find ":" url, url with
    | Some (S i), String c0 _ =>
        if Str.is_ascii_alpha c0 && Str.all_chars scheme_char (Str.take (S i) url)
        then (Str.lower (Str.take (S i) url), Str.drop (S (S i)) url)
        else (scheme, url)
    | _, _ => (scheme, url)
    end in
  '(netloc, url) ←
    (if Str.startswith "//" url then
       let '(netloc, rest) := splitnetloc url in
       let open := Str.has_char "[" netloc in
       let close := Str.has_char "]" netloc in
       if (open && negb close) || (close && negb open) then Raise invalid_ipv6
       else
         _ ← (if open && close then check_bracketed_netloc netloc else Ret tt);
         Ret (netloc, rest)
     else Ret (EmptyString, url));
  let '(url, fragment) :=
    match Str.partition "#" url with
    | (u, true, f) => (u, f)
    | _ => (url, EmptyString)
    end in
  let '(url, query) :=
    match Str.partition "?" url with
    | (u, true, q) => (u, q)
    | _ => (url, EmptyString)
    end in
  Ret (scheme, netloc, url, query, fragment).

(** [_splitparams] *)
Definition splitparams (url : string) : string * string :=
  if Str.has_char "/" url then
    let start := default 0 (Str.rfind "/" url) in
    match Str.find ";" (Str.drop start url) with
    | Some j => (Str.take (start + j) url, Str.drop (S (start + j)) url)
    | None => (url, EmptyString)
    end
  else
    match Str.find ";" url with
    | Some i => (Str.take i url, Str.drop (S i) url)
    | None =>
        (* [i] is -1 here: [url[:-1]] and [url[0:]]; not reached from
           [urlparse], which asks for a semicolon first *)
        (Str.take (String.length url - 1) url, url)
    end.

(** [urlparse(url, scheme)] *)
Definition urlparse_with (url scheme : string) : Res ParseResult :=
  '(scheme, netloc, url, query, fragment) ← urlsplit url scheme;
  let '(url, params) :=
    if mem scheme uses_params && Str.has_char ";" url
    then splitparams url else (url, EmptyString) in
  Ret (mkParseResult scheme netloc url params query fragment).

Definition urlparse (url : string) : Res ParseResult :=
  urlparse_with url EmptyString.

(** [urlunsplit] *)
Definition urlunsplit (scheme netloc url query fragment : string) : string :=
  let url :=
    if Str.truthy netloc
       || (Str.truthy scheme && mem scheme uses_netloc
           && negb (String.eqb (Str.take 2 url) "//"))
    then
      let url := if Str.truthy url && negb (String.eqb (Str.take 1 url) "/")
                 then "/" +:+ url else url in
      "//" +:+ netloc +:+ url
    else url in
  let url := if Str.truthy scheme then scheme +:+ ":" +:+ url else url in
  let url := if Str.truthy query then url +:+ "?" +:+ query else url in
  let url := if Str.truthy fragment then url +:+ "#" +:+ fragment else url in
  url.

(** [urlunparse] *)
Definition urlunparse (p : ParseResult) : string :=
  let url := if Str.truthy (params p) then path p +:+ ";" +:+ params p else path p in
  urlunsplit (scheme p) (netloc p) url (query p) (fragment p).

(** The loop of [urljoin] over the path segments. *)
Fixpoint resolve_segments (segments resolved_path : list string) : list string :=
  match segments with
  | [] => resolved_path
  | seg :: rest =>
      if String.eqb seg ".." then resolve_segments rest (removelast resolved_path)
      else if String.eqb seg "." then resolve_segments rest resolved_path
      else resolve_segments rest (resolved_path ++ [seg])
  end.

(** [segments[1:-1] = filter(None, segments[1:-1])] *)
Definition filter_inner (segments : list string) : list string :=
  match segments with
  | [] => []
  | first :: rest =>
      match rest with
      | [] => [first]
      | _ => first :: filter (fun s => Str.truthy s = true) (removelast rest)
                   ++ [List.last rest EmptyString]
      end
  end.

(** [urljoin(base, url)] *)
Definition urljoin (base url : string) : Res string :=
  if negb (Str.truthy base) then Ret url
  else if negb (Str.truthy url) then Ret base
  else
    b ← urlparse_with base EmptyString;
    u ← urlparse_with url (scheme b);
    if negb (String.eqb (scheme u) (scheme b)) || negb (mem (scheme u) uses_relative)
    then Ret url
    else if mem (scheme u) uses_netloc && Str.truthy (netloc u)
    then Ret (urlunparse u)
    else
      let netloc' := if mem (scheme u) uses_netloc then netloc b else netloc u in
      if negb (Str.truthy (path u)) && negb (Str.truthy (params u)) then
        let query' := if Str.truthy (query u) then query u else query b in
        Ret (urlunparse (mkParseResult (scheme u) netloc' (path b) (params b)
                                       query' (fragment u)))
      else
        let base_parts := Str.split "/" (path b) in
        let base_parts :=
          if negb (String.eqb (List.last base_parts EmptyString) EmptyString)
          then removelast base_parts else base_parts in
        let segments :=
          if String.eqb (Str.take 1 (path u)) "/" then Str.split "/" (path u)
          else filter_inner (base_parts ++ Str.split "/" (path u)) in
        let resolved_path := resolve_segments segments [] in
        let last_seg := List.last segments EmptyString in
        let resolved_path :=
          if String.eqb last_seg "." || String.eqb last_seg ".."
          then resolved_path ++ [EmptyString] else resolved_path in
        let joined := Str.join "/" resolved_path in
        Ret (urlunparse (mkParseResult (scheme u) netloc'
                           (if Str.truthy joined then joined else "/")
                           (params u) (query u) (fragment u))).

End Parse.

End urllib.

(** * The parsed markup *)

(** The tree that [BeautifulSoup(text, "html.parser")] returns, as far as the
    program looks at it: tags with their attributes as written in the
    markup, and the strings between them. *)
Module bs4.

#[warnings="-register-all"]
Inductive Node :=
  | Tag (name : string) (attrs : gmap string string) (contents : list Node)
  | NavigableString (text : string).

Definition name (n : Node) : option string :=
  match n with Tag nm _ _ => Some nm | NavigableString _ => None end.

Definition attrs (n : Node) : gmap string string :=
  match n with Tag _ a _ => a | NavigableString _ => ∅ end.

(** [tag.descendants]: every node below [n], in document order. *)
Fixpoint descendants (n : Node) : list Node :=
  match n with
  | Tag _ _ cs =>
      (fix go (l : list Node) : list Node :=
         match l with
         | [] => []
         | c :: l' => c :: descendants c ++ go l'
         end) cs
  | NavigableString _ => []
  end.

(** A keyword argument of [find_all]: [attr=True] or [attr="value"]. *)
Inductive AttrFilter :=
  | AttrTrue
  | AttrIs (value : string).

(** The attributes whose value the tree builder splits at white space
    (the table of the HTML tree builder). *)
Definition cdata_list_attribute (tag attr : string) : bool :=
  bool_decide (attr ∈ ["class"; "accesskey"; "dropzone"])
  || bool_decide ((tag, attr) ∈
       [("a", "rel"); ("a", "rev"); ("link", "rel"); ("link", "rev");
        ("td", "headers"); ("th", "headers"); ("form", "accept-charset");
        ("object", "archive"); ("area", "rel"); ("icon", "sizes");
        ("iframe", "sandbox"); ("output", "for")]).

(** One attribute filter against a tag: a split value matches when one of
    its tokens is the wanted value, or their join is. *)
Definition attr_matches (tag : string) (a : gmap string string)
    (f : string * AttrFilter) : bool :=
  match f.2, a !! f.1 with
  | AttrTrue, Some _ => true
  | AttrIs v, Some raw =>
      if cdata_list_attribute tag f.1
      then bool_decide (v ∈ Str.words raw)
           || String.eqb (Str.join " " (Str.words raw)) v
      else String.eqb raw v
  | _, None => false
  end.

(** The test of [find_all(names, **filters)] on one node; no name stands
    for every tag. *)
Definition matches (names : list string) (filters : list (string * AttrFilter))
    (n : Node) : bool :=
  match n with
  | Tag nm a _ =>
      (match names with [] => true | _ => bool_decide (nm ∈ names) end)
      && forallb (attr_matches nm a) filters
  | NavigableString _ => false
  end.

Definition find_all (names : list string) (filters : list (string * AttrFilter))
    (root : Node) : list Node :=
  List.filter (matches names filters) (descendants root).

(** [tag.find(name)] *)
Definition find (nm : string) (root : Node) : option Node :=
  head (find_all [nm] [] root).

(** [tag.text]: the strings below the tag, joined. *)
Definition text (n : Node) : string :=
  match n with
  | NavigableString s => s
  | Tag _ _ _ =>
      foldr (fun d acc => match d with
                          | NavigableString s => s +:+ acc
                          | Tag _ _ _ => acc
                          end) EmptyString (descendants n)
  end.

End bs4.

(** * The program *)

Record Response := mkResponse {
  text : string;
  status_code : Z;
  headers : gmap string string;
  final_url : string
}.


(** The result of [parse_css_for_assets]. *)
Record CssAssets := mkCssAssets {
  css_error : option string;
  fonts : list string;
  images : list string
}.

(** One link of a page: [{"url": ..., "text": ...}]. *)
Record Link := mkLink {
  link_url : string;
  link_text : string
}.

(** One item of the sitemap: [{"url", "title", "links"}] for a page that was
    read, [{"url", "error"}] for a failure. *)
Inductive SitemapEntry :=
  | PageInfo (url title : string) (links : list Link)
  | ErrorEntry (url error : string).

Definition entry_url (e : SitemapEntry) : string :=
  match e with PageInfo u _ _ => u | ErrorEntry u _ => u end.

Definition entry_links (e : SitemapEntry) : option (list Link) :=
  match e with PageInfo _ _ ls => Some ls | ErrorEntry _ _ => None end.

(** The result of [create_site_map]. *)
Record SiteMap := mkSiteMap {
  base_url : string;
  pages : nat;
  sitemap : list SitemapEntry
}.

(** The result of [analyze_page_structure]. *)
Record Layout := mkLayout {
  has_header : bool;
  has_footer : bool;
  has_navigation : bool;
  has_sidebar : bool;
  has_main_content : bool
}.

Record PageStructure := mkPageStructure {
  ps_title : string;
  ps_metadata : gmap string string;
  semantic_structure : gmap string nat;
  ps_headings : gmap string nat;
  layout_analysis : Layout;
  total_elements : nat;
  total_links : nat;
  total_images : nat;
  total_forms : nat
}.

(** The state the nested [crawl] closes over: the set [visited] and the list
    [sitemap].  [cs_fetched] is not a variable of the program: it records
    the arguments of the calls of [fetch_url], in order. *)
Record CrawlState := mkCrawlState {
  cs_visited : gset string;
  cs_sitemap : list SitemapEntry;
  cs_fetched : list string
}.

Definition DEFAULT_HEADERS : gmap string string :=
  {[ "User-Agent" :=
       "Mozilla/5.0 (Windows NT 10.0; Win64; x64) AppleWebKit/537.36 (KHTML, like Gecko) Chrome/91.0.4472.124 Safari/537.36" ]}.

(** The six categories of [extract_assets], each with an empty list. *)
Definition empty_assets : gmap string (list string) :=
  <["css" := []]> (<["javascript" := []]> (<["images" := []]>
    (<["fonts" := []]> (<["videos" := []]> (<["other" := []]> ∅))))).

Definition asset_keys : gset string :=
  {[ "css"; "javascript"; "images"; "fonts"; "videos"; "other" ]}.

(** [assets[key].append(x)]: the subscript raises [KeyError] on a key that
    is not there. *)
Definition append_to (key x : string) (assets : gmap string (list string))
  : Res (gmap string (list string)) :=
  match assets !! key with
  | Some l => Ret (<[key := l ++ [x]]> assets)
  | None => Raise (KeyError key)
  end.

Definition font_exts : list string := [".woff"; ".woff2"; ".ttf"; ".eot"; ".otf"].

Definition image_exts : list string :=
  [".png"; ".jpg"; ".jpeg"; ".gif"; ".svg"; ".webp"].

(** [any(ext in s for ext in exts)] *)
Definition any_in (exts : list string) (s : string) : bool :=
  existsb (fun ext => Str.contains ext s) exts.

(** [list(set(l))]: the members of [l], each once, in an order the program
    does not choose. *)
Definition list_of_set (l : list string) : list string :=
  elements (list_to_set l : gset string).

(** ** Collaborators *)

(** What the program is given by its libraries and by the network. *)
Record Env := mkEnv {
  (** the validation of bracketed hosts inside [urllib.parse] *)
  check_bracketed_host : string -> Res unit;
  (** [client.get(url, headers=..., timeout=30.0)] of an [httpx.AsyncClient]
      that follows redirects *)
  client_get : string -> gmap string string -> Res Response;
  (** [response.raise_for_status()] *)
  raise_for_status : Response -> Res unit;
  (** [BeautifulSoup(text, "html.parser")] *)
  BeautifulSoup : string -> bs4.Node;
  (** [len(str(tag))]: the length of the markup a tag is written back as *)
  markup_length : bs4.Node -> nat
}.

Section Program.

Variable env : Env.

Definition urlparse := urllib.urlparse (check_bracketed_host env).
Definition urljoin := urllib.urljoin (check_bracketed_host env).

(** ** Helper functions *)

Definition fetch_url (url : string) (headers : option (gmap string string))
  : Res Response :=
  let request_headers :=
    match headers with
    | Some h => h ∪ DEFAULT_HEADERS
    | None => DEFAULT_HEADERS
    end in
  response ← client_get env url request_headers;
  _ ← raise_for_status env response;
  Ret response.

Definition get_base_url (url : string) : Res string :=
  parsed ← urlparse url;
  Ret (urllib.scheme parsed +:+ "://" +:+ urllib.netloc parsed).

Definition is_absolute_url (url : string) : Res bool :=
  parsed ← urlparse url;
  Ret (Str.truthy (urllib.netloc parsed)).

Definition normalize_url (base_url url : string) : Res string :=
  absolute ← is_absolute_url url;
  if absolute : bool then Ret url else urljoin base_url url.

(** ** fetch_page *)


(** ** extract_assets *)

(** The body of [for x in ...: if attr in x.attrs: assets[key].append(
    normalize_url(base_url, x[attr]))]. *)
Definition add_attr_url (base_url attr key : string)
    (assets : gmap string (list string)) (tag : bs4.Node)
  : Res (gmap string (list string)) :=
  match bs4.attrs tag !! attr with
  | Some ref =>
      full_url ← normalize_url base_url ref;
      append_to key full_url assets
  | None => Ret assets
  end.

(** The body of the loop over the items of a [srcset]. *)
Definition add_srcset_item (base_url : string)
    (assets : gmap string (list string)) (src_item : string)
  : Res (gmap string (list string)) :=
  let src_parts := Str.split " " (Str.strip src_item) in
  match src_parts with
  | part0 :: _ =>
      img_url ← normalize_url base_url (Str.strip part0);
      append_to "images" img_url assets
  | [] => Ret assets
  end.

(** The body of the loop over the [img] tags. *)
Definition add_img (base_url : string)
    (assets : gmap string (list string)) (img : bs4.Node)
  : Res (gmap string (list string)) :=
  assets ← add_attr_url base_url "src" "images" assets img;
  match bs4.attrs img !! "srcset" with
  | Some srcset =>
      for_each (add_srcset_item base_url) (Str.split "," srcset) assets
  | None => Ret assets
  end.

(** The body of the loop over the tags with a [style] attribute. *)
Definition add_style_urls (base_url : string)
    (assets : gmap string (list string)) (tag : bs4.Node)
  : Res (gmap string (list string)) :=
  match bs4.attrs tag !! "style" with
  | Some style =>
      for_each (fun assets style_url =>
                  full_url ← normalize_url base_url style_url;
                  append_to "images" full_url assets)
               (Re.findall_url style) assets
  | None => Ret assets
  end.

(** The body of the loop over the [link rel=preload] tags. *)
Definition add_font (base_url : string)
    (assets : gmap string (list string)) (link : bs4.Node)
  : Res (gmap string (list string)) :=
  match bs4.attrs link !! "href", bs4.attrs link !! "as" with
  | Some href, Some as_ =>
      if String.eqb as_ "font" then
        font_url ← normalize_url base_url href;
        append_to "fonts" font_url assets
      else Ret assets
  | _, _ => Ret assets
  end.

(** The body of the loop over the [video] tags. *)
Definition add_video (base_url : string)
    (assets : gmap string (list string)) (video : bs4.Node)
  : Res (gmap string (list string)) :=
  for_each (add_attr_url base_url "src" "videos")
           (bs4.find_all ["source"] [] video) assets.

Definition extract_assets (url html_content : string)
  : Res (gmap string (list string)) :=
  base_url ← get_base_url url;
  let soup := BeautifulSoup env html_content in
  let assets := empty_assets in
  assets ← for_each (add_attr_url base_url "href" "css")
             (bs4.find_all ["link"] [("rel", bs4.AttrIs "stylesheet")] soup) assets;
  assets ← for_each (add_attr_url base_url "src" "javascript")
             (bs4.find_all ["script"] [] soup) assets;
  assets ← for_each (add_img base_url) (bs4.find_all ["img"] [] soup) assets;
  assets ← for_each (add_style_urls base_url)
             (bs4.find_all [] [("style", bs4.AttrTrue)] soup) assets;
  assets ← for_each (add_font base_url)
             (bs4.find_all ["link"] [("rel", bs4.AttrIs "preload")] soup) assets;
  assets ← for_each (add_video base_url) (bs4.find_all ["video"] [] soup) assets;
  assets ← for_each (add_attr_url base_url "src" "other")
             (bs4.find_all ["iframe"] [] soup) assets;
  Ret assets.

(** ** parse_css_for_assets *)

(** The body of the first loop: one reference of the whole text, put in
    [fonts] or in [images]. *)
Definition classify_url (base_url : string)
    (acc : list string * list string) (url : string)
  : Res (list string * list string) :=
  let '(fonts, images) := acc in
  full_url ← normalize_url base_url url;
  if any_in font_exts (Str.lower full_url) then Ret (fonts ++ [full_url], images)
  else if any_in image_exts (Str.lower full_url) then Ret (fonts, images ++ [full_url])
  else Ret (fonts, images ++ [full_url]).

(** The first loop, from empty lists. *)
Definition classify_urls (base_url css_content : string)
  : Res (list string * list string) :=
  for_each (classify_url base_url) (Re.findall_url css_content) ([], []).

(** The body of the second loop: the references of one [@font-face] block,
    all put in [fonts]. *)
Definition add_font_face (base_url : string) (fonts : list string) (block : string)
  : Res (list string) :=
  for_each (fun fonts url =>
              full_url ← normalize_url base_url url;
              Ret (fonts ++ [full_url]))
           (Re.findall_url block) fonts.

Definition parse_css_for_assets (css_url : string) (css_content : option string)
  : Res CssAssets :=
  base_url ← get_base_url css_url;
  fetched ←
    match css_content with
    | Some c => Ret (inr c)
    | None =>
        try_except (response ← fetch_url css_url None; Ret (inr (text response)))
                   (fun e => Ret (inl (mkCssAssets (Some (str_exn e)) [] [])))
    end;
  match fetched with
  | inl early => Ret early
  | inr css_content =>
      '(fonts, images) ← classify_urls base_url css_content;
      fonts ← for_each (add_font_face base_url)
                (Re.findall_font_face css_content) fonts;
      Ret (mkCssAssets None (list_of_set fonts) (list_of_set images))
  end.

(** ** create_site_map *)

(** [soup.title.text if soup.title else "No title"] *)
Definition title_of (soup : bs4.Node) : string :=
  match bs4.find "title" soup with
  | Some t => bs4.text t
  | None => "No title"
  end.

Definition add_link (lk : Link) (e : SitemapEntry) : SitemapEntry :=
  match e with
  | PageInfo u t ls => PageInfo u t (ls ++ [lk])
  | ErrorEntry u err => ErrorEntry u err
  end.

Definition visit (url : string) (st : CrawlState) : CrawlState :=
  mkCrawlState ({[url]} ∪ cs_visited st) (cs_sitemap st) (cs_fetched st).

Definition log_fetch (url : string) (st : CrawlState) : CrawlState :=
  mkCrawlState (cs_visited st) (cs_sitemap st) (cs_fetched st ++ [url]).

(** [sitemap.append(e)] *)
Definition sitemap_append (e : SitemapEntry) (st : CrawlState) : CrawlState :=
  mkCrawlState (cs_visited st) (cs_sitemap st ++ [e]) (cs_fetched st).

(** [page_info["links"].append(lk)], where [page_info] is the dictionary
    that was appended to the sitemap at position [idx]: the list holds the
    object itself and is never shortened or reordered, so the update shows
    at that position. *)
Definition links_append (idx : nat) (lk : Link) (st : CrawlState) : CrawlState :=
  mkCrawlState (cs_visited st) (alter (add_link lk) idx (cs_sitemap st))
               (cs_fetched st).

Section Crawl.

(** The variables of [create_site_map] that [crawl] reads. *)
Variable base_url : string.
Variable max_depth : Z.

(** The body of the loop over the anchors up to the recursive call: [None]
    for an anchor that is skipped, the link to record and to follow
    otherwise. *)
Definition link_target (link : bs4.Node) : Res (option Link) :=
  href ← match bs4.attrs link !! "href" with
         | Some h => Ret h
         | None => Raise (KeyError "href")
         end;
  if negb (Str.truthy href)
     || Str.startswith "#" href || Str.startswith "javascript:" href
     || Str.startswith "mailto:" href
  then Ret None
  else
    full_url ← normalize_url base_url href;
    full_base ← get_base_url full_url;
    if String.eqb full_base base_url then
      let t := Str.strip (bs4.text link) in
      Ret (Some (mkLink full_url (if Str.truthy t then t else "No text")))
    else Ret None.

(** The loop over the anchors of the page whose entry is at [idx].  The
    result is the state when the loop ends and the exception that ended it,
    if one did; [rec] is the recursive call. *)
Fixpoint crawl_links (rec : string -> Z -> CrawlState -> option CrawlState)
    (idx : nat) (depth : Z) (links : list bs4.Node) (st : CrawlState)
  : option (CrawlState * option Exn) :=
  match links with
  | [] => Some (st, None)
  | link :: rest =>
      match link_target link with
      | Raise e => Some (st, Some e)
      | Ret None => crawl_links rec idx depth rest st
      | Ret (Some lk) =>
          match rec (link_url lk) (depth + 1)%Z (links_append idx lk st) with
          | Some st' => crawl_links rec idx depth rest st'
          | None => None
          end
      end
  end.

(** The [try] block of [crawl]. *)
Definition crawl_try (rec : string -> Z -> CrawlState -> option CrawlState)
    (current_url : string) (depth : Z) (st : CrawlState)
  : option (CrawlState * option Exn) :=
  let st := log_fetch current_url st in
  match fetch_url current_url None with
  | Raise e => Some (st, Some e)
  | Ret response =>
      let html_content := text response in
      let soup := BeautifulSoup env html_content in
      let page_info := PageInfo current_url (title_of soup) [] in
      let idx := length (cs_sitemap st) in
      let st := sitemap_append page_info st in
      if bool_decide (depth < max_depth)%Z then
        crawl_links rec idx depth
          (bs4.find_all ["a"] [("href", bs4.AttrTrue)] soup) st
      else Some (st, None)
  end.

(** [crawl(current_url, depth)].  [fuel] bounds the nesting of the calls;
    [None] is the answer of a call that ran out of it. *)
Fixpoint crawl (fuel : nat) (current_url : string) (depth : Z) (st : CrawlState)
  : option CrawlState :=
  match fuel with
  | O => None
  | S fuel' =>
      if bool_decide (depth > max_depth)%Z
         || bool_decide (current_url ∈ cs_visited st)
      then Some st
      else
        let st := visit current_url st in
        match crawl_try (crawl fuel') current_url depth st with
        | Some (st, None) => Some st
        | Some (st, Some e) =>
            Some (sitemap_append (ErrorEntry current_url (str_exn e)) st)
        | None => None
        end
  end.

End Crawl.

Definition create_site_map (fuel : nat) (url : string) (max_depth : Z)
  : option (Res SiteMap) :=
  match get_base_url url with
  | Raise e => Some (Raise e)
  | Ret base_url =>
      match crawl base_url max_depth fuel url 1 (mkCrawlState ∅ [] []) with
      | Some st =>
          Some (Ret (mkSiteMap base_url (length (cs_sitemap st)) (cs_sitemap st)))
      | None => None
      end
  end.

(** ** analyze_page_structure *)

(** The body of the loop over the [meta] tags. *)
Definition add_meta (metadata : gmap string string) (meta : bs4.Node)
  : gmap string string :=
  let a := bs4.attrs meta in
  match a !! "name", a !! "content" with
  | Some n, Some c => <[n := c]> metadata
  | _, _ =>
      match a !! "property", a !! "content" with
      | Some p, Some c => <[p := c]> metadata
      | _, _ => metadata
      end
  end.

Definition metadata_of (soup : bs4.Node) : gmap string string :=
  foldl add_meta ∅ (bs4.find_all ["meta"] [] soup).

Definition semantic_types : list string :=
  ["header"; "footer"; "nav"; "main"; "aside"; "section"; "article"].

Definition heading_tags : list string := ["h1"; "h2"; "h3"; "h4"; "h5"; "h6"].

Definition semantic_elements_of (soup : bs4.Node) : gmap string nat :=
  foldl (fun acc element_type =>
           match bs4.find_all [element_type] [] soup with
           | [] => acc
           | elements => <[element_type := length elements]> acc
           end) ∅ semantic_types.

Definition headings_of (soup : bs4.Node) : gmap string nat :=
  foldl (fun acc heading_tag =>
           <[heading_tag := length (bs4.find_all [heading_tag] [] soup)]> acc)
        ∅ heading_tags.

(** [max(best :: l, key=key)]: the first of the items with the largest key. *)
Fixpoint max_by {A} (key : A -> nat) (best : A) (l : list A) : A :=
  match l with
  | [] => best
  | x :: l' => if (key best <? key x)%nat then max_by key x l' else max_by key best l'
  end.

Definition main_content_of (soup : bs4.Node) : option bs4.Node :=
  match bs4.find "main" soup with
  | Some m => Some m
  | None =>
      match bs4.find_all ["article"; "div"; "section"] [] soup with
      | c :: candidates => Some (max_by (markup_length env) c candidates)
      | [] => None
      end
  end.

Definition analyze_page_structure (html_content : string) : PageStructure :=
  let soup := BeautifulSoup env html_content in
  let metadata := metadata_of soup in
  let semantic_elements := semantic_elements_of soup in
  let headings := headings_of soup in
  let main_content := main_content_of soup in
  let layout_analysis :=
    mkLayout (bool_decide (is_Some (bs4.find "header" soup)))
             (bool_decide (is_Some (bs4.find "footer" soup)))
             (bool_decide (is_Some (bs4.find "nav" soup)))
             (bool_decide (is_Some (bs4.find "aside" soup)))
             (bool_decide (is_Some main_content)) in
  mkPageStructure (title_of soup) metadata semantic_elements headings
    layout_analysis
    (length (bs4.find_all [] [] soup))
    (length (bs4.find_all ["a"] [] soup))
    (length (bs4.find_all ["img"] [] soup))
    (length (bs4.find_all ["form"] [] soup)).

End Program.

(** ** download_asset *)

(** [s.endswith(c)] for a character [c]. *)
Fixpoint ends_with (c : ascii) (s : string) : bool :=
  match s with
  | EmptyString => false
  | String a EmptyString => Str.eqc a c
  | String _ s' => ends_with c s'
  end.

(** The class [\w] of [re] on text, for the code points below 256: the
    digits, the letters and the underscore of ASCII, and the letters and
    numbers of the Latin-1 block. *)
Definition is_word (c : ascii) : bool :=
  let n := Str.code c in
  (Str.is_ascii_digit c || Str.is_ascii_alpha c || (n =? 95)
   || (n =? 170) || (n =? 178) || (n =? 179) || (n =? 181) || (n =? 185)
   || (n =? 186) || (188 <=? n) && (n <=? 190)
   || (192 <=? n) && (n <=? 214) || (216 <=? n) && (n <=? 246)
   || (248 <=? n))%nat.

(** [re.sub(r"[^\w\-\.]", "_", s)] *)
Fixpoint safe_text (s : string) : string :=
  match s with
  | EmptyString => EmptyString
  | String c s' =>
      String (if is_word c || Str.eqc c "-"%char || Str.eqc c "."%char
              then c else "_"%char)
             (safe_text s')
  end.

(** The pure paths of [pathlib], POSIX flavour: a root (empty, one slash or
    two) and the names below it. *)
Module pathlib.

Record PurePath := mkPurePath {
  root : string;
  names : list string
}.

(** The root of a path text and the text after it: two leading slashes
    make the root of two slashes, any other number the root of one. *)
Definition splitroot (part : string) : string * string :=
  if Str.startswith "/" part then
    let stripped := Str.lstrip_of (fun c => Str.eqc c "/"%char) part in
    if (String.length part - String.length stripped =? 2)%nat
    then ("//", stripped) else ("/", stripped)
  else (EmptyString, part).

(** The names of a relative path text: the empty ones and the dots go. *)
Definition components (rel : string) : list string :=
  List.filter (fun x => Str.truthy x && negb (String.eqb x "."))
              (Str.split "/" rel).

(** [Path(s)] *)
Definition Path (s : string) : PurePath :=
  let '(r, rel) := splitroot s in mkPurePath r (components rel).

(** [p / s] *)
Definition joinpath (p : PurePath) (s : string) : PurePath :=
  let q := Path s in
  if Str.truthy (root q) then q else mkPurePath (root p) (names p ++ names q).

(** [str(p)] *)
Definition str (p : PurePath) : string :=
  match root p +:+ Str.join "/" (names p) with
  | EmptyString => "."
  | s => s
  end.

(** [p.name] *)
Definition name (p : PurePath) : string := List.last (names p) EmptyString.

(** The place of the dot that starts the suffix of a name: the last dot,
    unless it is the first or the last character (a name that ends with a
    dot has no suffix, as up to Python 3.13). *)
Definition suffix_at (nm : string) : option nat :=
  match Str.rfind "." nm with
  | Some i =>
      if ((0 <? i) && (i <? String.length nm - 1))%nat then Some i else None
  | None => None
  end.

(** [p.suffix] and [p.stem] *)
Definition suffix (p : PurePath) : string :=
  match suffix_at (name p) with
  | Some i => Str.drop i (name p)
  | None => EmptyString
  end.

Definition stem (p : PurePath) : string :=
  match suffix_at (name p) with
  | Some i => Str.take i (name p)
  | None => name p
  end.

End pathlib.

(** What an operation on the disk comes to: its value, or the text
    [str(e)] of the exception it raises, which is all that [download_asset]
    keeps of an exception. *)
Inductive Outcome (A : Type) :=
  | Done (a : A)
  | Fails (msg : string).
Arguments Done {A} a.
Arguments Fails {A} msg.

(** The disk and the body of a response: [mkdir(parents=True,
    exist_ok=True)], [exists] and [write_bytes] on the text of a path, and
    [response.content].  [path_exists] is the disk as the loop of
    [download_asset] sees it, after the directories were made. *)
Record Disk := mkDisk {
  mkdir : string -> Outcome unit;
  path_exists : string -> Outcome bool;
  write_bytes : string -> list Byte.byte -> Outcome unit;
  content : Response -> list Byte.byte
}.

(** What [download_asset] asks of the disk, in order. *)
Inductive DiskOp :=
  | Mkdir (path : string)
  | WriteBytes (path : string) (data : list Byte.byte).

(** The dictionary that [download_asset] returns. *)
Inductive DownloadResult :=
  | Saved (url saved_to content_type : string) (size : nat)
  | Failed (url error : string).

Definition download_url (r : DownloadResult) : string :=
  match r with Saved u _ _ _ => u | Failed u _ => u end.

Section Download.

Variable env : Env.
Variable disk : Disk.

(** The name of the file for a parsed URL. *)
Definition filename_of (parsed_url : urllib.ParseResult) : string :=
  let path := urllib.path parsed_url in
  if negb (Str.truthy path) || ends_with "/" path then "index.html"
  else
    let filename := pathlib.name (pathlib.Path path) in
    let filename := if negb (Str.truthy filename) then "unknown_file" else filename in
    if Str.truthy (urllib.query parsed_url)
    then filename +:+ "_" +:+ safe_text (urllib.query parsed_url)
    else filename.

(** The directory for a content type. *)
Definition subdir_of (content_type : string) : string :=
  if Str.contains "text/html" content_type then "html"
  else if Str.contains "text/css" content_type then "css"
  else if Str.contains "javascript" content_type then "js"
  else if Str.contains "image/" content_type then "images"
  else if Str.contains "font/" content_type
          || Str.contains "application/font" content_type then "fonts"
  else if Str.contains "video/" content_type then "videos"
  else "other".

(** The name that the loop tries at the value [counter]. *)
Definition numbered (original_file_path : pathlib.PurePath) (counter : nat) : string :=
  pathlib.stem original_file_path +:+ "_" +:+ pretty counter
  +:+ pathlib.suffix original_file_path.

(** [while file_path.exists(): ...]: the path at which the loop ends, or the
    exception of [exists]; [fuel] bounds the number of tests. *)
Fixpoint free_path (fuel : nat) (subdir_path original_file_path : pathlib.PurePath)
    (file_path : pathlib.PurePath) (counter : nat)
  : option (Outcome pathlib.PurePath) :=
  match fuel with
  | O => None
  | S fuel' =>
      match path_exists disk (pathlib.str file_path) with
      | Fails msg => Some (Fails msg)
      | Done false => Some (Done file_path)
      | Done true =>
          free_path fuel' subdir_path original_file_path
            (pathlib.joinpath subdir_path (numbered original_file_path counter))
            (S counter)
      end
  end.

(** [download_asset(url, output_dir)]: the dictionary returned and the
    operations asked of the disk; [None] when the loop runs out of [fuel].
    [headers] has the headers of the response under their names in lower
    case, which is how [response.headers.get] finds them. *)
Definition download_asset (fuel : nat) (url output_dir : string)
  : option (DownloadResult * list DiskOp) :=
  let output_path := pathlib.Path output_dir in
  let ops := [Mkdir (pathlib.str output_path)] in
  match mkdir disk (pathlib.str output_path) with
  | Fails msg => Some (Failed url msg, ops)
  | Done _ =>
  match urlparse env url with
  | Raise e => Some (Failed url (str_exn e), ops)
  | Ret parsed_url =>
  let filename := filename_of parsed_url in
  match fetch_url env url None with
  | Raise e => Some (Failed url (str_exn e), ops)
  | Ret response =>
  let content_type :=
    List.hd EmptyString
      (Str.split ";" (default EmptyString (headers response !! "content-type"))) in
  let subdir := subdir_of content_type in
  let subdir_path := pathlib.joinpath output_path subdir in
  let ops := ops ++ [Mkdir (pathlib.str subdir_path)] in
  match mkdir disk (pathlib.str subdir_path) with
  | Fails msg => Some (Failed url msg, ops)
  | Done _ =>
  let file_path := pathlib.joinpath subdir_path filename in
  match free_path fuel subdir_path file_path file_path 1 with
  | None => None
  | Some (Fails msg) => Some (Failed url msg, ops)
  | Some (Done file_path) =>
  let ops := ops ++ [WriteBytes (pathlib.str file_path) (content disk response)] in
  match write_bytes disk (pathlib.str file_path) (content disk response) with
  | Fails msg => Some (Failed url msg, ops)
  | Done _ =>
      Some (Saved url (pathlib.str file_path) content_type
                  (length (content disk response)), ops)
  end end end end end end.

End Download.

(** * What the properties speak about *)

(** The filename extension of a URL, as the specification uses the word: the
    text from the last dot of the last path segment on, the query and the
    fragment set aside; empty when that segment has no dot. *)
Definition filename_extension (url : string) : string :=
  let path :=
    (Str.span (fun c => negb (Str.eqc c "?"%char || Str.eqc c "#"%char)) url).1 in
  let file := List.last (Str.split "/" path) EmptyString in
  match Str.rfind "." file with
  | Some i => Str.drop i file
  | None => EmptyString
  end.

(** The test of the first loop of [parse_css_for_assets] that sends a
    resolved reference to [fonts]: one of the font markers occurs somewhere
    in its lower-case form. *)
Definition is_font_url (full_url : string) : bool :=
  any_in font_exts (Str.lower full_url).

(** The references that the rules of the asset classifier find in the
    markup, per category, in the order of discovery and with repetitions. *)
Definition attr_refs (attr : string) (tag : bs4.Node) : list string :=
  option_list (bs4.attrs tag !! attr).

Definition srcset_item_refs (src_item : string) : list string :=
  match Str.split " " (Str.strip src_item) with
  | part0 :: _ => [Str.strip part0]
  | [] => []
  end.

Definition img_refs (img : bs4.Node) : list string :=
  attr_refs "src" img ++
  match bs4.attrs img !! "srcset" with
  | Some srcset => flat_map srcset_item_refs (Str.split "," srcset)
  | None => []
  end.

Definition style_refs (tag : bs4.Node) : list string :=
  match bs4.attrs tag !! "style" with
  | Some style => Re.findall_url style
  | None => []
  end.

Definition font_refs (link : bs4.Node) : list string :=
  match bs4.attrs link !! "href", bs4.attrs link !! "as" with
  | Some href, Some as_ => if String.eqb as_ "font" then [href] else []
  | _, _ => []
  end.

Definition video_refs (video : bs4.Node) : list string :=
  flat_map (attr_refs "src") (bs4.find_all ["source"] [] video).

Definition css_refs (soup : bs4.Node) : list string :=
  flat_map (attr_refs "href")
    (bs4.find_all ["link"] [("rel", bs4.AttrIs "stylesheet")] soup).

Definition javascript_refs (soup : bs4.Node) : list string :=
  flat_map (attr_refs "src") (bs4.find_all ["script"] [] soup).

Definition images_refs (soup : bs4.Node) : list string :=
  flat_map img_refs (bs4.find_all ["img"] [] soup)
  ++ flat_map style_refs (bs4.find_all [] [("style", bs4.AttrTrue)] soup).

Definition fonts_refs (soup : bs4.Node) : list string :=
  flat_map font_refs (bs4.find_all ["link"] [("rel", bs4.AttrIs "preload")] soup).

Definition videos_refs (soup : bs4.Node) : list string :=
  flat_map video_refs (bs4.find_all ["video"] [] soup).

Definition other_refs (soup : bs4.Node) : list string :=
  flat_map (attr_refs "src") (bs4.find_all ["iframe"] [] soup).

(** The references of one category. *)
Definition discovered (key : string) (soup : bs4.Node) : list string :=
  if String.eqb key "css" then css_refs soup
  else if String.eqb key "javascript" then javascript_refs soup
  else if String.eqb key "images" then images_refs soup
  else if String.eqb key "fonts" then fonts_refs soup
  else if String.eqb key "videos" then videos_refs soup
  else if String.eqb key "other" then other_refs soup
  else [].

(** Markup in which no rule of the classifier finds an element. *)
Definition no_matching_elements (soup : bs4.Node) : Prop :=
  bs4.find_all ["link"] [("rel", bs4.AttrIs "stylesheet")] soup = []
  ∧ bs4.find_all ["script"] [] soup = []
  ∧ bs4.find_all ["img"] [] soup = []
  ∧ bs4.find_all [] [("style", bs4.AttrTrue)] soup = []
  ∧ bs4.find_all ["link"] [("rel", bs4.AttrIs "preload")] soup = []
  ∧ bs4.find_all ["video"] [] soup = []
  ∧ bs4.find_all ["iframe"] [] soup = [].

(** [assets[key].extend(urls)] *)
Definition extend (key : string) (urls : list string)
    (assets : gmap string (list string)) : gmap string (list string) :=
  alter (fun l => l ++ urls) key assets.

(** The key under which [add_meta] files a [meta] tag, if it files it. *)
Definition meta_key (meta : bs4.Node) : option string :=
  let a := bs4.attrs meta in
  match a !! "name", a !! "content" with
  | Some n, Some _ => Some n
  | _, _ =>
      match a !! "property", a !! "content" with
      | Some p, Some _ => Some p
      | _, _ => None
      end
  end.

Definition add_links (ls : list Link) (e : SitemapEntry) : SitemapEntry :=
  match e with
  | PageInfo u t l0 => PageInfo u t (l0 ++ ls)
  | ErrorEntry u err => ErrorEntry u err
  end.

(** The URL of an entry, by the kind of the entry. *)
Definition page_url (e : SitemapEntry) : option string :=
  match e with PageInfo u _ _ => Some u | ErrorEntry _ _ => None end.

Definition error_url (e : SitemapEntry) : option string :=
  match e with PageInfo _ _ _ => None | ErrorEntry u _ => Some u end.

(** The entries [new] that a part of the crawl appends while the visited
    set grows from [v] to [v']: they are about URLs that the part has
    visited itself, no two page entries and no two error entries share a
    URL, and no two entries at all when [quiet] holds (which will be: no
    anchor of the site makes the loop raise). *)
Definition fresh_entries (quiet : Prop) (v v' : gset string)
    (new : list SitemapEntry) : Prop :=
  (forall e, e ∈ new -> (entry_url e ∉ v) /\ (entry_url e ∈ v'))
  /\ NoDup (omap page_url new)
  /\ NoDup (omap error_url new)
  /\ (quiet -> NoDup (entry_url <$> new)).

(** The entries that the sitemap has in [st'] beyond those it has in [st]. *)
Definition entries_after (st st' : CrawlState) : list SitemapEntry :=
  drop (length (cs_sitemap st)) (cs_sitemap st').

(** The test at the head of [crawl]: the call is cut when the depth is over
    the bound or the URL was visited. *)
Definition cut (max_depth : Z) (current_url : string) (depth : Z)
    (st : CrawlState) : bool :=
  bool_decide (depth > max_depth)%Z || bool_decide (current_url ∈ cs_visited st).

(** The record of the fetches is in order: no URL twice, and only URLs
    that are in the visited set. *)
Definition fetch_log_ok (st : CrawlState) : Prop :=
  NoDup (cs_fetched st) /\ forall u, u ∈ cs_fetched st -> u ∈ cs_visited st.

Section Described.

Variable env : Env.
Variable base_url : string.

(** A loop body [body] collects under [key] the references [refs]: from a
    dictionary that has the key, it returns the dictionary extended by the
    resolved references, or raises what the resolution of one of them
    raises. *)
Definition collects {A} (key : string) (refs : A -> list string)
    (body : gmap string (list string) -> A -> Res (gmap string (list string)))
  : Prop :=
  forall a x, is_Some (a !! key) ->
    match body a x with
    | Ret a' =>
        exists urls, map_res (normalize_url env base_url) (refs x) = Ret urls
                     /\ a' = extend key urls a
    | Raise e =>
        exists ref, ref ∈ refs x /\ normalize_url env base_url ref = Raise e
    end.

(** The links that the loop of [crawl] over the anchors of a page records:
    those of the anchors it reaches, which are all of them unless one makes
    the loop raise.  The visited set has no part in it. *)
Fixpoint recorded_links (links : list bs4.Node) : list Link :=
  match links with
  | [] => []
  | link :: rest =>
      match link_target env base_url link with
      | Raise _ => []
      | Ret None => recorded_links rest
      | Ret (Some lk) => lk :: recorded_links rest
      end
  end.

(** No anchor of a page of the site makes the loop of [crawl] raise. *)
Definition anchors_parse : Prop :=
  forall url response link,
    fetch_url env url None = Ret response ->
    link ∈ bs4.find_all ["a"] [("href", bs4.AttrTrue)]
             (BeautifulSoup env (text response)) ->
    exists r, link_target env base_url link = Ret r.

(** The first entry that a call of [crawl] which is not cut appends. *)
Definition first_entry (max_depth : Z) (current_url : string) (depth : Z)
  : SitemapEntry :=
  match fetch_url env current_url None with
  | Raise e => ErrorEntry current_url (str_exn e)
  | Ret response =>
      let soup := BeautifulSoup env (text response) in
      PageInfo current_url (title_of soup)
        (if bool_decide (depth < max_depth)%Z
         then recorded_links (bs4.find_all ["a"] [("href", bs4.AttrTrue)] soup)
         else [])
  end.

End Described.



(** The anchors of a fetched page that the loop of [crawl] goes through. *)
Definition anchors_of (env : Env) (response : Response) : list bs4.Node :=
  bs4.find_all ["a"] [("href", bs4.AttrTrue)] (BeautifulSoup env (text response)).

(** The calls of [crawl] that a call on the seed at depth 1 leads to: the
    URL of a link that the loop of a fetched page records is called one
    level deeper. *)
Inductive reach (env : Env) (base seed : string) : Z -> string -> Prop :=
  | reach_seed : reach env base seed 1 seed
  | reach_link u d response link lk :
      reach env base seed d u ->
      fetch_url env u None = Ret response ->
      link ∈ anchors_of env response ->
      link_target env base link = Ret (Some lk) ->
      reach env base seed (d + 1) (link_url lk).

(** All the links of the entries of a sitemap. *)
Definition sitemap_links (l : list SitemapEntry) : list Link :=
  flat_map (fun e => default [] (entry_links e)) l.

(** Every link, every entry and every fetch of the state is of the origin
    [base]. *)
Definition on_origin (env : Env) (base : string) (st : CrawlState) : Prop :=
  (forall lk, lk ∈ sitemap_links (cs_sitemap st) ->
     get_base_url env (link_url lk) = Ret base)
  /\ (forall e, e ∈ cs_sitemap st -> get_base_url env (entry_url e) = Ret base)
  /\ (forall u, u ∈ cs_fetched st -> get_base_url env u = Ret base).

(** The fetches, the visited set and the entries of the sitemap name the
    same URLs. *)
Definition reported (st : CrawlState) : Prop :=
  forall x, (x ∈ cs_fetched st <-> x ∈ cs_visited st)
            /\ (x ∈ entry_url <$> cs_sitemap st <-> x ∈ cs_visited st).

(** The number of occurrences of a character in a string. *)
Fixpoint count_char (c : ascii) (s : string) : nat :=
  match s with
  | EmptyString => 0
  | String a s' => (if Str.eqc a c then 1 else 0) + count_char c s'
  end.

(** The number of references that the loop over the [img] tags takes from
    one tag: one for a [src], and for a [srcset] one per item between
    commas, the empty items counted. *)
Definition img_candidates (img : bs4.Node) : nat :=
  (match bs4.attrs img !! "src" with Some _ => 1 | None => 0 end)
  + match bs4.attrs img !! "srcset" with
    | Some srcset => S (count_char "," srcset)
    | None => 0
    end.


(** A name of a path: not empty, not the dot, and without a slash. *)
Definition proper (x : string) : Prop :=
  Str.has_char "/" x = false /\ x <> "" /\ x <> ".".

(** The text before the last name in the text of a path with names. *)
Definition dir_prefix (p : pathlib.PurePath) : string :=
  pathlib.root p +:+
  match pathlib.names p with
  | [] => ""
  | l => Str.join "/" l +:+ "/"
  end.

(** The characters that [urlsplit] leaves in a network location: not the
    tab, the line feed or the carriage return, which it removes from the
    URL, and none of the three that end the location. *)
Definition netloc_char (c : ascii) : bool :=
  negb (urllib.unsafe_url_byte c)
  && negb (Str.eqc c "/"%char || Str.eqc c "?"%char || Str.eqc c "#"%char).

(** The steps of [urlsplit] on a URL from which the leading blanks and the
    unsafe characters are gone: the scheme, when the text up to the first
    colon is one, and what follows it; then the network location, checked,
    and what follows it. *)
Definition split_scheme (url : string) : string * string :=
  match Str.find ":" url, url with
  | Some (S i), String c0 _ =>
      if Str.is_ascii_alpha c0
         && Str.all_chars urllib.scheme_char (Str.take (S i) url)
      then (Str.lower (Str.take (S i) url), Str.drop (S (S i)) url)
      else (EmptyString, url)
  | _, _ => (EmptyString, url)
  end.

Definition checked_netloc (check : string -> Res unit) (netloc : string)
  : Res unit :=
  let open := Str.has_char "[" netloc in
  let close := Str.has_char "]" netloc in
  if (open && negb close) || (close && negb open) then Raise urllib.invalid_ipv6
  else if open && close then urllib.check_bracketed_netloc check netloc
  else Ret tt.

Definition split_netloc (check : string -> Res unit) (url : string)
  : Res (string * string) :=
  if Str.startswith "//" url then
    let '(netloc, rest) := urllib.splitnetloc url in
    _ ← checked_netloc check netloc; Ret (netloc, rest)
  else Ret (EmptyString, url).

(** The scheme of a URL that has one: a letter first, then characters of
    schemes, in lower case. *)
Definition scheme_text (s : string) : Prop :=
  Str.all_chars urllib.scheme_char s = true
  /\ Str.lower s = s
  /\ exists c0 r, s = String c0 r /\ Str.is_ascii_alpha c0 = true.

(** Every link of the sitemap points to a URL that was visited, or to one
    of the URLs [pending], whose call of [crawl] is still to come. *)
Definition links_followed (pending : string -> Prop) (st : CrawlState) : Prop :=
  forall lk, lk ∈ sitemap_links (cs_sitemap st) ->
    link_url lk ∈ cs_visited st \/ pending (link_url lk).


(** * A small site to run the program on *)

Module Example.

(** The bracketed-host check of the examples; no URL below has a bracketed
    host, so it is never reached. *)
Definition no_bracketed_host (host : string) : Res unit :=
  Raise (ValueError "bracketed host").

Definition doc (contents : list bs4.Node) : bs4.Node :=
  bs4.Tag "[document]" ∅ contents.

Definition anchor (href label : string) : bs4.Node :=
  bs4.Tag "a" {[ "href" := href ]} [bs4.NavigableString label].

Definition page (title : option string) (body : list bs4.Node) : bs4.Node :=
  doc [bs4.Tag "html" ∅
         [bs4.Tag "head" ∅
            match title with
            | Some t => [bs4.Tag "title" ∅ [bs4.NavigableString t]]
            | None => []
            end;
          bs4.Tag "body" ∅ body]].

(** The pages of the site: markup, and the tree the parser builds from it. *)
Definition home_html : string :=
  "<html><head><title>Home</title></head><body><a href='/a'>A</a><a href='/b'>B</a><a href='/c'>C</a><a href='http://other.org/x'>X</a></body></html>".

Definition home_tree : bs4.Node :=
  page (Some "Home")
       [anchor "/a" "A"; anchor "/b" "B"; anchor "/c" "C";
        anchor "http://other.org/x" "X"].

Definition a_html : string :=
  "<html><head><title>A</title></head><body><a href='/b'>B</a><a href='/b'> </a><a href='/'>Home</a></body></html>".

Definition a_tree : bs4.Node :=
  page (Some "A") [anchor "/b" "B"; anchor "/b" " "; anchor "/" "Home"].

Definition b_html : string :=
  "<html><head><title>B</title></head><body><a href='/a'>A</a></body></html>".

Definition b_tree : bs4.Node := page (Some "B") [anchor "/a" "A"].

Definition c_html : string :=
  "<html><head></head><body><a href='//['>broken</a></body></html>".

Definition c_tree : bs4.Node := page None [anchor "//[" "broken"].

(** A [meta] tag with a [name], a [property] and a [content]. *)
Definition meta_html : string :=
  "<meta name='description' property='og:description' content='About us'>".

Definition meta_tag : bs4.Node :=
  bs4.Tag "meta"
    (<["name" := "description"]> (<["property" := "og:description"]>
       (<["content" := "About us"]> ∅))) [].

Definition meta_tree : bs4.Node := doc [meta_tag].

(** Two [img] tags with the same source. *)
Definition imgs_html : string := "<img src='/logo.png'><img src='/logo.png'>".

Definition imgs_tree : bs4.Node :=
  doc [bs4.Tag "img" {[ "src" := "/logo.png" ]} [];
       bs4.Tag "img" {[ "src" := "/logo.png" ]} []].

Definition parser_table : list (string * bs4.Node) :=
  [(home_html, home_tree); (a_html, a_tree); (b_html, b_tree);
   (c_html, c_tree); (meta_html, meta_tree); (imgs_html, imgs_tree)].

Definition server_table : list (string * string) :=
  [("http://example.com/", home_html); ("http://example.com/a", a_html);
   ("http://example.com/b", b_html); ("http://example.com/c", c_html)].

Fixpoint lookup_table {A} (key : string) (table : list (string * A)) : option A :=
  match table with
  | [] => None
  | (k, v) :: rest => if String.eqb k key then Some v else lookup_table key rest
  end.

(** The parser on the markup above; the empty document elsewhere (as on the
    empty text). *)
Definition parse (markup : string) : bs4.Node :=
  default (doc []) (lookup_table markup parser_table).

(** The server: status 200 for the four pages, 404 for the rest. *)
Definition get (url : string) (request_headers : gmap string string) : Res Response :=
  match lookup_table url server_table with
  | Some body => Ret (mkResponse body 200 ∅ url)
  | None => Ret (mkResponse "Not Found" 404 ∅ url)
  end.

Definition status_check (r : Response) : Res unit :=
  if bool_decide (200 ≤ status_code r < 300)%Z then Ret tt
  else Raise (HTTPError "Client error '404 Not Found'").

(** The length of the markup of a tag; the examples do not look at it. *)
Definition no_markup_length (tag : bs4.Node) : nat := 0.

Definition env : Env :=
  mkEnv no_bracketed_host get status_check parse no_markup_length.

Definition home : string := "http://example.com/".

End Example.

Module Gallery.

(** A page with two scripts of another host, two preload links, a
    responsive image, an image without source and a styled block. *)
Definition html : string :=
  "<script src='//cdn.example.org/lib.js'></script><script src='https://cdn.example.org/app.js'></script><link rel='preload' href='/f.woff2' as='font'><link rel='preload' href='/app.js' as='script'><img src='a.png' srcset='a.png 1x, b.png 2x,'><img alt='none'><div style='background:url(http://cdn.example.org/bg.png)'></div>".

Definition tree : bs4.Node :=
  Example.doc
    [bs4.Tag "script" {[ "src" := "//cdn.example.org/lib.js" ]} [];
     bs4.Tag "script" {[ "src" := "https://cdn.example.org/app.js" ]} [];
     bs4.Tag "link" (<["rel" := "preload"]> (<["href" := "/f.woff2"]>
                       (<["as" := "font"]> ∅))) [];
     bs4.Tag "link" (<["rel" := "preload"]> (<["href" := "/app.js"]>
                       (<["as" := "script"]> ∅))) [];
     bs4.Tag "img" (<["src" := "a.png"]>
                      (<["srcset" := "a.png 1x, b.png 2x,"]> ∅)) [];
     bs4.Tag "img" {[ "alt" := "none" ]} [];
     bs4.Tag "div"
       {[ "style" := "background:url(http://cdn.example.org/bg.png)" ]} []].

Definition parse (markup : string) : bs4.Node :=
  if String.eqb markup html then tree else Example.parse markup.

Definition env : Env :=
  mkEnv Example.no_bracketed_host Example.get Example.status_check parse
        Example.no_markup_length.

End Gallery.

(** A disk with two images, and a server of one image. *)
Module Shelf.

Definition existing : list string :=
  ["downloaded_site/images/logo.png"; "downloaded_site/images/logo_1.png"].

Definition disk : Disk :=
  mkDisk (fun _ => Done tt)
         (fun p => Done (bool_decide (p ∈ existing)))
         (fun _ _ => Done tt)
         (fun r => list_byte_of_string (text r)).

Definition logo : string := "http://example.com/logo.png".

Definition get (url : string) (request_headers : gmap string string) : Res Response :=
  if String.eqb url logo
  then Ret (mkResponse "PNG" 200 {[ "content-type" := "image/png; q=1" ]} url)
  else Ret (mkResponse "Not Found" 404 ∅ url).

Definition env : Env :=
  mkEnv Example.no_bracketed_host get Example.status_check Example.parse
        Example.no_markup_length.

End Shelf.

(** A page with a video that has a source of its own and one in a
    [source] tag. *)
Module Cinema.

Definition html : string :=
  "<video src='/own.mp4'><source src='/clip.webm'><source type='video/mp4'></video>".

Definition tree : bs4.Node :=
  Example.doc
    [bs4.Tag "video" {[ "src" := "/own.mp4" ]}
       [bs4.Tag "source" {[ "src" := "/clip.webm" ]} [];
        bs4.Tag "source" {[ "type" := "video/mp4" ]} []]].

Definition parse (markup : string) : bs4.Node :=
  if String.eqb markup html then tree else Example.parse markup.

Definition env : Env :=
  mkEnv Example.no_bracketed_host Example.get Example.status_check parse
        Example.no_markup_length.

End Cinema.

(** * Properties *)

(** ** Computations that may raise *)

Lemma bind_Ret {A B} (m : Res A) (k : A -> Res B) b :
  m ≫= k = Ret b -> exists a, m = Ret a /\ k a = Ret b.
Proof. destruct m as [a|e]; simpl; [eauto | discriminate]. Qed.

Lemma bind_Raise {A B} (m : Res A) (k : A -> Res B) e :
  m ≫= k = Raise e -> m = Raise e \/ exists a, m = Ret a /\ k a = Raise e.
Proof. destruct m as [a|e']; simpl; [eauto | intros [= ->]; auto]. Qed.

Ltac res_inv H :=
  let a := fresh "a" in
  let Ha := fresh "H" a in
  apply bind_Ret in H as (a & Ha & H).

Lemma map_res_app {A B} (f : A -> Res B) l1 l2 r1 r2 :
  map_res f l1 = Ret r1 -> map_res f l2 = Ret r2 ->
  map_res f (l1 ++ l2) = Ret (r1 ++ r2).
Proof.
  revert r1. induction l1 as [|x l1 IH]; intros r1 H1 H2; simpl in *.
  - by injection H1 as <-.
  - res_inv H1. res_inv H1. injection H1 as <-.
    rewrite Ha. simpl. by rewrite (IH _ Ha0 H2).
Qed.

Lemma map_res_length {A B} (f : A -> Res B) l r :
  map_res f l = Ret r -> length r = length l.
Proof.
  revert r. induction l as [|x l IH]; intros r H; simpl in *.
  - by injection H as <-.
  - res_inv H. res_inv H. injection H as <-. simpl. f_equal. eauto.
Qed.

Lemma map_res_elem {A B} (f : A -> Res B) l r y :
  map_res f l = Ret r -> y ∈ r <-> exists x, x ∈ l /\ f x = Ret y.
Proof.
  revert r. induction l as [|x l IH]; intros r H; simpl in *.
  - injection H as <-. split; [intros Hy; inversion Hy | intros (x & Hx & _); inversion Hx].
  - res_inv H. res_inv H. injection H as <-.
    rewrite elem_of_cons, (IH _ Ha0). split.
    + intros [-> | (x' & Hx' & Hf)]; [exists x | exists x']; rewrite elem_of_cons; auto.
    + intros (x' & Hx' & Hf). apply elem_of_cons in Hx' as [-> | Hx'].
      * left. congruence.
      * right. eauto.
Qed.

Lemma map_res_Ret_all {A B} (f : A -> Res B) l r x :
  map_res f l = Ret r -> x ∈ l -> exists y, f x = Ret y /\ y ∈ r.
Proof.
  revert r. induction l as [|x' l IH]; intros r H Hx; [inversion Hx|].
  simpl in H. res_inv H. res_inv H. injection H as <-.
  apply elem_of_cons in Hx as [->|Hx].
  - exists a. split; [done | by left].
  - destruct (IH _ Ha0 Hx) as (y & Hy & Hin). exists y. split; [done | by right].
Qed.

(** ** The dictionary of [extract_assets] *)

Lemma extend_nil key (a : gmap string (list string)) : extend key [] a = a.
Proof. apply alter_id. intros l _. apply app_nil_r. Qed.

Lemma lookup_extend key urls (a : gmap string (list string)) k :
  extend key urls a !! k =
  if decide (key = k) then (fun l => l ++ urls) <$> a !! key else a !! k.
Proof. apply lookup_alter. Qed.

Lemma extend_extend key u1 u2 (a : gmap string (list string)) :
  extend key u2 (extend key u1 a) = extend key (u1 ++ u2) a.
Proof.
  apply map_eq. intros k. rewrite !lookup_extend.
  repeat case_decide; subst; try done.
  destruct (a !! k); simpl; [|done]. by rewrite app_assoc.
Qed.

Lemma extend_is_Some key urls (a : gmap string (list string)) k :
  is_Some (extend key urls a !! k) <-> is_Some (a !! k).
Proof.
  rewrite lookup_extend. case_decide; [subst|reflexivity].
  apply fmap_is_Some.
Qed.

Lemma dom_extend key urls (a : gmap string (list string)) :
  dom (extend key urls a) = dom a.
Proof. apply dom_alter_L. Qed.

Lemma append_to_Ret key x (a : gmap string (list string)) :
  is_Some (a !! key) -> append_to key x a = Ret (extend key [x] a).
Proof.
  intros [l Hl]. unfold append_to. rewrite Hl. f_equal.
  apply map_eq. intros k. rewrite lookup_extend, lookup_insert.
  case_decide; [|done]. by rewrite Hl.
Qed.

Section Props.

Variable env : Env.

Lemma collects_one base key :
  collects env base key (fun ref : string => [ref])
    (fun a ref => full_url ← normalize_url env base ref; append_to key full_url a).
Proof.
  intros a ref Hk. simpl.
  destruct (normalize_url env base ref) as [u|e] eqn:Hn; simpl.
  - rewrite append_to_Ret by done. eauto.
  - exists ref. split; [apply list_elem_of_singleton; done | done].
Qed.

Lemma collects_attr base attr key :
  collects env base key (attr_refs attr) (add_attr_url env base attr key).
Proof.
  intros a tag Hk. unfold add_attr_url, attr_refs.
  destruct (bs4.attrs tag !! attr) as [ref|]; simpl.
  - apply (collects_one base key a ref Hk).
  - exists []. by rewrite extend_nil.
Qed.

Lemma collects_for_each {A} base key (refs : A -> list string) body :
  collects env base key refs body ->
  collects env base key (flat_map refs) (fun a l => for_each body l a).
Proof.
  intros Hb a l. revert a. induction l as [|x l IH]; intros a Hk; simpl.
  - exists []. by rewrite extend_nil.
  - specialize (Hb a x Hk). destruct (body a x) as [a1|e]; simpl.
    + destruct Hb as (u1 & Hu1 & ->).
      specialize (IH (extend key u1 a)).
      destruct (for_each body l (extend key u1 a)) as [a2|e].
      * destruct IH as (u2 & Hu2 & ->); [by apply extend_is_Some|].
        exists (u1 ++ u2). split; [by apply map_res_app | apply extend_extend].
      * destruct IH as (ref & Href & Hr); [by apply extend_is_Some|].
        exists ref. split; [|done]. apply elem_of_app. by right.
    + destruct Hb as (ref & Href & Hr). exists ref. split; [|done].
      apply elem_of_app. by left.
Qed.

Lemma collects_seq {A} base key (r1 r2 : A -> list string) b1 b2 :
  collects env base key r1 b1 -> collects env base key r2 b2 ->
  collects env base key (fun x => r1 x ++ r2 x) (fun a x => a' ← b1 a x; b2 a' x).
Proof.
  intros H1 H2 a x Hk. specialize (H1 a x Hk).
  destruct (b1 a x) as [a1|e]; simpl.
  - destruct H1 as (u1 & Hu1 & ->).
    specialize (H2 (extend key u1 a) x).
    destruct (b2 (extend key u1 a) x) as [a2|e].
    + destruct H2 as (u2 & Hu2 & ->); [by apply extend_is_Some|].
      exists (u1 ++ u2). split; [by apply map_res_app | apply extend_extend].
    + destruct H2 as (ref & Href & Hr); [by apply extend_is_Some|].
      exists ref. split; [|done]. apply elem_of_app. by right.
  - destruct H1 as (ref & Href & Hr). exists ref. split; [|done].
    apply elem_of_app. by left.
Qed.

Lemma collects_srcset_item base :
  collects env base "images" srcset_item_refs (add_srcset_item env base).
Proof.
  intros a item Hk. unfold add_srcset_item, srcset_item_refs.
  destruct (Str.split " " (Str.strip item)) as [|part0 parts].
  - exists []. by rewrite extend_nil.
  - apply (collects_one base "images" a (Str.strip part0) Hk).
Qed.

Lemma collects_img base : collects env base "images" img_refs (add_img env base).
Proof.
  unfold add_img, img_refs.
  apply (collects_seq base "images" (attr_refs "src")
           (fun img => match bs4.attrs img !! "srcset" with
                       | Some srcset => flat_map srcset_item_refs (Str.split "," srcset)
                       | None => []
                       end)
           (add_attr_url env base "src" "images")
           (fun a img => match bs4.attrs img !! "srcset" with
                         | Some srcset =>
                             for_each (add_srcset_item env base) (Str.split "," srcset) a
                         | None => Ret a
                         end)).
  - apply collects_attr.
  - intros a img Hk. destruct (bs4.attrs img !! "srcset") as [srcset|].
    + apply (collects_for_each base "images" _ _ (collects_srcset_item base) a _ Hk).
    + exists []. by rewrite extend_nil.
Qed.

Lemma flat_map_singleton {A} (l : list A) : flat_map (fun x => [x]) l = l.
Proof. induction l; simpl; congruence. Qed.

Lemma collects_style base :
  collects env base "images" style_refs (add_style_urls env base).
Proof.
  intros a tag Hk. unfold add_style_urls, style_refs.
  destruct (bs4.attrs tag !! "style") as [style|].
  - pose proof (collects_for_each base "images" _ _ (collects_one base "images")
                  a (Re.findall_url style) Hk) as H.
    simpl in H. by rewrite flat_map_singleton in H.
  - exists []. by rewrite extend_nil.
Qed.

Lemma collects_font base : collects env base "fonts" font_refs (add_font env base).
Proof.
  intros a link Hk. unfold add_font, font_refs.
  destruct (bs4.attrs link !! "href") as [href|];
    [destruct (bs4.attrs link !! "as") as [as_|]; [destruct (String.eqb as_ "font")|]|];
    try (exists []; by rewrite extend_nil).
  apply (collects_one base "fonts" a href Hk).
Qed.

Lemma collects_video base : collects env base "videos" video_refs (add_video env base).
Proof.
  intros a video Hk. unfold add_video, video_refs.
  apply (collects_for_each base "videos" _ _ (collects_attr base "src" "videos") a _ Hk).
Qed.


(** ** extract_assets *)

Lemma empty_assets_lookup key :
  key ∈ asset_keys -> empty_assets !! key = Some [].
Proof.
  unfold asset_keys. rewrite !elem_of_union, !elem_of_singleton.
  intros H. destruct_or!; subst; reflexivity.
Qed.

Lemma dom_empty_assets : dom empty_assets = asset_keys.
Proof.
  unfold empty_assets, asset_keys. rewrite !dom_insert_L, dom_empty_L.
  set_solver.
Qed.

(** What a call of [extract_assets] comes to: the dictionary of the six
    categories, each extended by its resolved references, or the exception
    of the URL parser on the page URL or on one of the references. *)
Lemma extract_assets_spec url html_content :
  let soup := BeautifulSoup env html_content in
  match extract_assets env url html_content with
  | Ret d =>
      exists base ucss ujs uimg ufont uvideo uother,
        get_base_url env url = Ret base
        /\ map_res (normalize_url env base) (css_refs soup) = Ret ucss
        /\ map_res (normalize_url env base) (javascript_refs soup) = Ret ujs
        /\ map_res (normalize_url env base) (images_refs soup) = Ret uimg
        /\ map_res (normalize_url env base) (fonts_refs soup) = Ret ufont
        /\ map_res (normalize_url env base) (videos_refs soup) = Ret uvideo
        /\ map_res (normalize_url env base) (other_refs soup) = Ret uother
        /\ d = extend "other" uother (extend "videos" uvideo
                 (extend "fonts" ufont (extend "images" uimg
                    (extend "javascript" ujs (extend "css" ucss empty_assets)))))
  | Raise e =>
      get_base_url env url = Raise e
      \/ exists base ref,
           get_base_url env url = Ret base /\ normalize_url env base ref = Raise e
  end.
Proof.
  intros soup. unfold extract_assets. fold soup.
  destruct (get_base_url env url) as [base|e0]; simpl; [|by left].
  assert (Hkeys : forall k a, is_Some (a !! k) -> forall k' u, is_Some (extend k' u a !! k))
    by (intros; by apply extend_is_Some).
  assert (H0 : forall k, k ∈ asset_keys -> is_Some (empty_assets !! k))
    by (intros k Hk; rewrite (empty_assets_lookup k Hk); eauto).
  pose proof (collects_for_each base "css" _ _ (collects_attr base "href" "css")
    empty_assets (bs4.find_all ["link"] [("rel", bs4.AttrIs "stylesheet")] soup)) as H1.
  simpl in H1.
  destruct (for_each _ _ empty_assets) as [a1|e]; simpl;
    [destruct H1 as (ucss & Hcss & ->); [apply H0; set_solver|]
    |destruct H1 as (ref & _ & Hr); [apply H0; set_solver|]; right; eauto].
  pose proof (collects_for_each base "javascript" _ _ (collects_attr base "src" "javascript")
    (extend "css" ucss empty_assets) (bs4.find_all ["script"] [] soup)) as H2.
  simpl in H2.
  destruct (for_each _ _ (extend "css" ucss empty_assets)) as [a2|e]; simpl;
    [destruct H2 as (ujs & Hjs & ->); [apply Hkeys, H0; set_solver|]
    |destruct H2 as (ref & _ & Hr); [apply Hkeys, H0; set_solver|]; right; eauto].
  set (a2 := extend "javascript" ujs _).
  pose proof (collects_for_each base "images" _ _ (collects_img base)
    a2 (bs4.find_all ["img"] [] soup)) as H3.
  simpl in H3.
  destruct (for_each _ _ a2) as [a3|e]; simpl;
    [destruct H3 as (uimg & Himg & ->); [do 2 apply Hkeys; apply H0; set_solver|]
    |destruct H3 as (ref & _ & Hr); [do 2 apply Hkeys; apply H0; set_solver|]; right; eauto].
  pose proof (collects_for_each base "images" _ _ (collects_style base)
    (extend "images" uimg a2) (bs4.find_all [] [("style", bs4.AttrTrue)] soup)) as H4.
  simpl in H4.
  destruct (for_each _ _ (extend "images" uimg a2)) as [a4|e]; simpl;
    [destruct H4 as (ustyle & Hstyle & ->); [do 3 apply Hkeys; apply H0; set_solver|]
    |destruct H4 as (ref & _ & Hr); [do 3 apply Hkeys; apply H0; set_solver|]; right; eauto].
  rewrite extend_extend.
  set (a4 := extend "images" (uimg ++ ustyle) a2).
  pose proof (collects_for_each base "fonts" _ _ (collects_font base)
    a4 (bs4.find_all ["link"] [("rel", bs4.AttrIs "preload")] soup)) as H5.
  simpl in H5.
  destruct (for_each _ _ a4) as [a5|e]; simpl;
    [destruct H5 as (ufont & Hfont & ->); [do 3 apply Hkeys; apply H0; set_solver|]
    |destruct H5 as (ref & _ & Hr); [do 3 apply Hkeys; apply H0; set_solver|]; right; eauto].
  pose proof (collects_for_each base "videos" _ _ (collects_video base)
    (extend "fonts" ufont a4) (bs4.find_all ["video"] [] soup)) as H6.
  simpl in H6.
  destruct (for_each _ _ (extend "fonts" ufont a4)) as [a6|e]; simpl;
    [destruct H6 as (uvideo & Hvideo & ->); [do 4 apply Hkeys; apply H0; set_solver|]
    |destruct H6 as (ref & _ & Hr); [do 4 apply Hkeys; apply H0; set_solver|]; right; eauto].
  pose proof (collects_for_each base "other" _ _ (collects_attr base "src" "other")
    (extend "videos" uvideo (extend "fonts" ufont a4)) (bs4.find_all ["iframe"] [] soup)) as H7.
  simpl in H7.
  destruct (for_each _ _ (extend "videos" uvideo (extend "fonts" ufont a4))) as [a7|e]; simpl;
    [destruct H7 as (uother & Hother & ->); [do 5 apply Hkeys; apply H0; set_solver|]
    |destruct H7 as (ref & _ & Hr); [do 5 apply Hkeys; apply H0; set_solver|]; right; eauto].
  exists base, ucss, ujs, (uimg ++ ustyle), ufont, uvideo, uother.
  repeat split; try done.
  unfold images_refs. by apply map_res_app.
Qed.


Lemma extract_assets_dom url html_content d :
  extract_assets env url html_content = Ret d -> dom d = asset_keys.
Proof.
  intros H. pose proof (extract_assets_spec url html_content) as Hs.
  simpl in Hs. rewrite H in Hs.
  destruct Hs as (base & u1 & u2 & u3 & u4 & u5 & u6 & _ & _ & _ & _ & _ & _ & _ & ->).
  rewrite !dom_extend. apply dom_empty_assets.
Qed.

Lemma discovered_lookup url html_content d key :
  extract_assets env url html_content = Ret d -> key ∈ asset_keys ->
  exists base urls,
    get_base_url env url = Ret base
    /\ map_res (normalize_url env base)
         (discovered key (BeautifulSoup env html_content)) = Ret urls
    /\ d !! key = Some urls.
Proof.
  intros H Hkey. pose proof (extract_assets_spec url html_content) as Hs.
  simpl in Hs. rewrite H in Hs.
  destruct Hs as (base & u1 & u2 & u3 & u4 & u5 & u6 & Hb & H1 & H2 & H3 & H4 & H5 & H6 & ->).
  exists base.
  unfold asset_keys in Hkey. rewrite !elem_of_union, !elem_of_singleton in Hkey.
  destruct_or!; subst key; unfold discovered; simpl;
    eexists; (split; [exact Hb|]); (split; [eassumption|]);
    rewrite !lookup_extend; reflexivity.
Qed.

Lemma extract_assets_nothing url html_content base :
  get_base_url env url = Ret base ->
  no_matching_elements (BeautifulSoup env html_content) ->
  extract_assets env url html_content = Ret empty_assets.
Proof.
  intros Hb (H1 & H2 & H3 & H4 & H5 & H6 & H7).
  unfold extract_assets. rewrite Hb. simpl.
  rewrite H1, H2, H3, H4, H5, H6, H7. reflexivity.
Qed.

End Props.

(** ** parse_css_for_assets *)

Section Css.

Variable env : Env.

Lemma map_res_Raise {A B} (f : A -> Res B) l e :
  map_res f l = Raise e -> exists x, x ∈ l /\ f x = Raise e.
Proof.
  induction l as [|x l IH]; simpl; [discriminate|].
  intros H. apply bind_Raise in H as [H | (y & Hy & H)].
  - exists x. split; [left | done].
  - apply bind_Raise in H as [H | (ys & Hys & H)]; [|discriminate].
    destruct (IH H) as (x' & Hx' & Hf). exists x'. split; [by right | done].
Qed.

Lemma map_res_snoc {A B} (f : A -> Res B) l x r y :
  map_res f l = Ret r -> f x = Ret y -> map_res f (l ++ [x]) = Ret (r ++ [y]).
Proof.
  intros Hl Hx. apply map_res_app; [done|]. simpl. by rewrite Hx.
Qed.

Lemma classify_url_eq base fonts0 images0 url :
  classify_url env base (fonts0, images0) url =
  (full_url ← normalize_url env base url;
   Ret (if is_font_url full_url then (fonts0 ++ [full_url], images0)
        else (fonts0, images0 ++ [full_url]))).
Proof.
  unfold classify_url, is_font_url.
  destruct (normalize_url env base url) as [full|e]; [|reflexivity].
  change (Ret full ≫= ?k) with (k full). cbv beta.
  destruct (any_in font_exts (Str.lower full)); [reflexivity|].
  destruct (any_in image_exts (Str.lower full)); reflexivity.
Qed.

(** The first loop, from any pair of lists. *)
Lemma classify_loop base l fonts0 images0 :
  match for_each (classify_url env base) l (fonts0, images0) with
  | Ret (fonts1, images1) =>
      exists resolved,
        map_res (normalize_url env base) l = Ret resolved
        /\ fonts1 = fonts0 ++ List.filter is_font_url resolved
        /\ images1 = images0 ++ List.filter (fun u => negb (is_font_url u)) resolved
  | Raise e => exists ref, ref ∈ l /\ normalize_url env base ref = Raise e
  end.
Proof.
  revert fonts0 images0. induction l as [|url l IH]; intros fonts0 images0.
  - exists []. by rewrite !app_nil_r.
  - cbn [for_each map_res]. rewrite classify_url_eq.
    destruct (normalize_url env base url) as [full|e] eqn:Hn; simpl.
    + destruct (is_font_url full) eqn:Hf.
      * specialize (IH (fonts0 ++ [full]) images0).
        destruct (for_each (classify_url env base) l _) as [[f1 i1]|e].
        -- destruct IH as (res & Hres & -> & ->). exists (full :: res).
           rewrite Hres. simpl. rewrite Hf. simpl.
           by rewrite <- app_assoc.
        -- destruct IH as (ref & Href & Hr). exists ref. split; [by right | done].
      * specialize (IH fonts0 (images0 ++ [full])).
        destruct (for_each (classify_url env base) l _) as [[f1 i1]|e].
        -- destruct IH as (res & Hres & -> & ->). exists (full :: res).
           rewrite Hres. simpl. rewrite Hf. simpl.
           by rewrite <- app_assoc.
        -- destruct IH as (ref & Href & Hr). exists ref. split; [by right | done].
    + exists url. split; [by left | done].
Qed.

(** The loop over the references of one block. *)
Lemma font_face_block base block fonts0 :
  match add_font_face env base fonts0 block with
  | Ret fonts1 =>
      exists urls, map_res (normalize_url env base) (Re.findall_url block) = Ret urls
                   /\ fonts1 = fonts0 ++ urls
  | Raise e =>
      exists ref, ref ∈ Re.findall_url block /\ normalize_url env base ref = Raise e
  end.
Proof.
  unfold add_font_face. generalize (Re.findall_url block) as l.
  intros l. revert fonts0. induction l as [|url l IH]; intros fonts0; simpl.
  - exists []. by rewrite app_nil_r.
  - destruct (normalize_url env base url) as [full|e] eqn:Hn; simpl.
    + specialize (IH (fonts0 ++ [full])).
      destruct (for_each _ l _) as [f1|e].
      * destruct IH as (urls & Hu & ->). exists (full :: urls).
        rewrite Hu. simpl. by rewrite <- app_assoc.
      * destruct IH as (ref & Href & Hr). exists ref. split; [by right | done].
    + exists url. split; [by left | done].
Qed.

(** The second loop. *)
Lemma font_face_loop base blocks fonts0 :
  match for_each (add_font_face env base) blocks fonts0 with
  | Ret fonts1 =>
      exists urls,
        map_res (normalize_url env base) (flat_map Re.findall_url blocks) = Ret urls
        /\ fonts1 = fonts0 ++ urls
  | Raise e => exists ref, normalize_url env base ref = Raise e
  end.
Proof.
  revert fonts0. induction blocks as [|block blocks IH]; intros fonts0; simpl.
  - exists []. by rewrite app_nil_r.
  - pose proof (font_face_block base block fonts0) as Hb.
    destruct (add_font_face env base fonts0 block) as [f1|e]; simpl.
    + destruct Hb as (u1 & Hu1 & ->). specialize (IH (fonts0 ++ u1)).
      destruct (for_each _ blocks _) as [f2|e].
      * destruct IH as (u2 & Hu2 & ->). exists (u1 ++ u2).
        split; [by apply map_res_app | by rewrite app_assoc].
      * done.
    + destruct Hb as (ref & _ & Hr). eauto.
Qed.

Lemma parse_css_given css_url css base :
  get_base_url env css_url = Ret base ->
  parse_css_for_assets env css_url (Some css) =
  ('(fonts, images) ← classify_urls env base css;
   fonts ← for_each (add_font_face env base) (Re.findall_font_face css) fonts;
   Ret (mkCssAssets None (list_of_set fonts) (list_of_set images))).
Proof. intros Hb. unfold parse_css_for_assets. rewrite Hb. reflexivity. Qed.

Lemma parse_css_fetched css_url r :
  fetch_url env css_url None = Ret r ->
  parse_css_for_assets env css_url None =
  parse_css_for_assets env css_url (Some (text r)).
Proof.
  intros Hf. unfold parse_css_for_assets.
  destruct (get_base_url env css_url); simpl; [|done].
  rewrite Hf. reflexivity.
Qed.

Lemma parse_css_fetch_failure css_url base e :
  get_base_url env css_url = Ret base ->
  fetch_url env css_url None = Raise e ->
  parse_css_for_assets env css_url None =
  Ret (mkCssAssets (Some (str_exn e)) [] []).
Proof.
  intros Hb Hf. unfold parse_css_for_assets. rewrite Hb. simpl.
  rewrite Hf. reflexivity.
Qed.

(** What a call on a given stylesheet text comes to. *)
Lemma parse_css_spec css_url css :
  match parse_css_for_assets env css_url (Some css) with
  | Ret r =>
      exists base resolved face,
        get_base_url env css_url = Ret base
        /\ map_res (normalize_url env base) (Re.findall_url css) = Ret resolved
        /\ map_res (normalize_url env base)
             (flat_map Re.findall_url (Re.findall_font_face css)) = Ret face
        /\ r = mkCssAssets None
                 (list_of_set (List.filter is_font_url resolved ++ face))
                 (list_of_set (List.filter (fun u => negb (is_font_url u)) resolved))
  | Raise e =>
      get_base_url env css_url = Raise e
      \/ exists base ref,
           get_base_url env css_url = Ret base /\ normalize_url env base ref = Raise e
  end.
Proof.
  destruct (get_base_url env css_url) as [base|e0] eqn:Hb.
  - rewrite (parse_css_given _ _ _ Hb). unfold classify_urls.
    pose proof (classify_loop base (Re.findall_url css) [] []) as H1.
    destruct (for_each (classify_url env base) _ _) as [[f1 i1]|e]; simpl.
    + destruct H1 as (resolved & Hres & -> & ->). simpl.
      pose proof (font_face_loop base (Re.findall_font_face css)
                    (List.filter is_font_url resolved)) as H2.
      destruct (for_each (add_font_face env base) _ _) as [f2|e]; simpl.
      * destruct H2 as (face & Hface & ->). exists base, resolved, face. done.
      * destruct H2 as (ref & Hr). right. eauto.
    + destruct H1 as (ref & _ & Hr). right. eauto.
  - unfold parse_css_for_assets. rewrite Hb. simpl. by left.
Qed.

Lemma elem_of_list_of_set x l : x ∈ list_of_set l <-> x ∈ l.
Proof. unfold list_of_set. by rewrite elem_of_elements, elem_of_list_to_set. Qed.

Lemma NoDup_list_of_set l : NoDup (list_of_set l).
Proof. unfold list_of_set. apply NoDup_elements. Qed.

Lemma elem_of_List_filter {A} (p : A -> bool) l x :
  x ∈ List.filter p l <-> x ∈ l /\ p x = true.
Proof. rewrite !list_elem_of_In. apply filter_In. Qed.

End Css.

(** ** The crawl *)

Section CrawlProps.

Variable env : Env.
Variable base : string.
Variable max_depth : Z.

Lemma crawl_S fuel current_url depth st :
  crawl env base max_depth (S fuel) current_url depth st =
  if cut max_depth current_url depth st then Some st
  else
    match crawl_try env base max_depth (crawl env base max_depth fuel)
            current_url depth (visit current_url st) with
    | Some (st', None) => Some st'
    | Some (st', Some e) =>
        Some (sitemap_append (ErrorEntry current_url (str_exn e)) st')
    | None => None
    end.
Proof. reflexivity. Qed.

(** *** Termination *)

Lemma crawl_links_total rec idx depth links st :
  (forall u s, is_Some (rec u (depth + 1)%Z s)) ->
  is_Some (crawl_links env base rec idx depth links st).
Proof.
  intros Hrec. revert st. induction links as [|link rest IH]; intros st; simpl.
  - eauto.
  - destruct (link_target env base link) as [[lk|]|e]; [|apply IH|eauto].
    destruct (Hrec (link_url lk) (links_append idx lk st)) as [st' ->].
    apply IH.
Qed.

Lemma crawl_total fuel :
  forall current_url depth st,
    (0 < fuel)%nat -> (max_depth - depth < Z.of_nat fuel)%Z ->
    is_Some (crawl env base max_depth fuel current_url depth st).
Proof.
  induction fuel as [|fuel IH]; intros current_url depth st Hpos Hfuel; [lia|].
  rewrite crawl_S. destruct (cut max_depth current_url depth st); [eauto|].
  unfold crawl_try.
  destruct (fetch_url env current_url None) as [response|e]; [|eauto].
  case_bool_decide as Hd.
  - match goal with
    | |- context [crawl_links env base ?r ?i ?d ?l ?s] =>
        destruct (crawl_links_total r i d l s) as [[st' [e|]] ->]
    end; eauto.
    intros u s. apply IH; lia.
  - eauto.
Qed.

(** *** Properties that every step of the crawl keeps *)

Lemma crawl_links_rel (R : CrawlState -> CrawlState -> Prop) rec idx depth links :
  (forall st, R st st) ->
  (forall a b c, R a b -> R b c -> R a c) ->
  (forall lk st, R st (links_append idx lk st)) ->
  (forall u d s s', rec u d s = Some s' -> R s s') ->
  forall st st' exn,
    crawl_links env base rec idx depth links st = Some (st', exn) -> R st st'.
Proof.
  intros Hrefl Htrans Hlink Hrec.
  induction links as [|link rest IH]; intros st st' exn H; simpl in H.
  - injection H as <- <-. apply Hrefl.
  - destruct (link_target env base link) as [[lk|]|e].
    + destruct (rec (link_url lk) (depth + 1)%Z (links_append idx lk st))
        as [st1|] eqn:Hr; [|discriminate].
      eapply Htrans; [apply Hlink|]. eapply Htrans; [eapply Hrec, Hr|].
      eapply IH, H.
    + eapply IH, H.
    + injection H as <- <-. apply Hrefl.
Qed.

Lemma crawl_rel (R : CrawlState -> CrawlState -> Prop) :
  (forall st, R st st) ->
  (forall a b c, R a b -> R b c -> R a c) ->
  (forall u st, u ∉ cs_visited st -> R st (log_fetch u (visit u st))) ->
  (forall e st, R st (sitemap_append e st)) ->
  (forall idx lk st, R st (links_append idx lk st)) ->
  forall fuel current_url depth st st',
    crawl env base max_depth fuel current_url depth st = Some st' -> R st st'.
Proof.
  intros Hrefl Htrans Hvisit Happ Hlink.
  induction fuel as [|fuel IH]; intros current_url depth st st' H; [discriminate|].
  rewrite crawl_S in H. unfold cut in H.
  destruct (bool_decide (depth > max_depth)%Z); simpl in H;
    [injection H as <-; apply Hrefl|].
  case_bool_decide as Hv; [injection H as <-; apply Hrefl|].
  eapply Htrans; [apply (Hvisit current_url st Hv)|].
  unfold crawl_try in H.
  destruct (fetch_url env current_url None) as [response|e].
  - case_bool_decide as Hd.
    + match type of H with
      | context [crawl_links env base ?r ?i ?d ?l ?s] =>
          destruct (crawl_links env base r i d l s) as [[st1 exn]|] eqn:Hl;
            [|discriminate]
      end.
      eapply Htrans; [apply Happ|].
      eapply Htrans;
        [eapply (crawl_links_rel R _ _ _ _ Hrefl Htrans (Hlink _) IH), Hl|].
      destruct exn; injection H as <-; [apply Happ | apply Hrefl].
    + injection H as <-. apply Happ.
  - injection H as <-. apply Happ.
Qed.

Lemma crawl_visited_mono fuel current_url depth st st' :
  crawl env base max_depth fuel current_url depth st = Some st' ->
  cs_visited st ⊆ cs_visited st'.
Proof.
  apply (crawl_rel (fun a b => cs_visited a ⊆ cs_visited b)); intros; simpl;
    set_solver.
Qed.

Lemma crawl_visits fuel current_url depth st st' :
  crawl env base max_depth fuel current_url depth st = Some st' ->
  (depth <= max_depth)%Z -> current_url ∈ cs_visited st'.
Proof.
  destruct fuel as [|fuel]; [discriminate|]. intros H Hd.
  destruct (decide (current_url ∈ cs_visited st)) as [Hin|Hnin].
  - eapply crawl_visited_mono; eauto.
  - assert (Hsub : cs_visited (visit current_url st) ⊆ cs_visited st').
    { rewrite crawl_S in H. unfold cut in H.
      rewrite bool_decide_eq_false_2 in H by lia.
      rewrite bool_decide_eq_false_2 in H by done. simpl in H.
      unfold crawl_try in H.
      destruct (fetch_url env current_url None) as [response|e].
      - case_bool_decide.
        + match type of H with
          | context [crawl_links env base ?r ?i ?d ?l ?s] =>
              destruct (crawl_links env base r i d l s) as [[st1 exn]|] eqn:Hl;
                [|discriminate]
          end.
          assert (cs_visited (visit current_url st) ⊆ cs_visited st1).
          { apply (crawl_links_rel (fun a b => cs_visited a ⊆ cs_visited b)
                     _ _ _ _) in Hl; [exact Hl|set_solver|set_solver|set_solver|].
            intros. eapply crawl_visited_mono; eauto. }
          destruct exn; injection H as <-; simpl; set_solver.
        + injection H as <-. simpl. set_solver.
      - injection H as <-. simpl. set_solver. }
    apply Hsub. simpl. set_solver.
Qed.

Lemma crawl_fetch_log fuel current_url depth st st' :
  crawl env base max_depth fuel current_url depth st = Some st' ->
  fetch_log_ok st -> fetch_log_ok st'.
Proof.
  revert fuel current_url depth st st'.
  apply (crawl_rel (fun a b => fetch_log_ok a -> fetch_log_ok b)).
  - auto.
  - auto.
  - intros u s Hu [Hnd Hsub]. split; simpl.
    + apply NoDup_app. split; [done|]. split; [|apply NoDup_singleton].
      intros x Hx Hx'. apply list_elem_of_singleton in Hx' as ->. auto.
    + intros x Hx. apply elem_of_app in Hx as [Hx|Hx].
      * apply elem_of_union. right. auto.
      * apply list_elem_of_singleton in Hx as ->. apply elem_of_union. left.
        by apply elem_of_singleton.
  - intros e s H. exact H.
  - intros idx lk s H. exact H.
Qed.

(** *** The entries of the sitemap *)

Lemma add_links_nil e : add_links [] e = e.
Proof. destruct e; simpl; [by rewrite app_nil_r | done]. Qed.

Lemma add_links_cons lk ls e : add_links ls (add_link lk e) = add_links (lk :: ls) e.
Proof. destruct e; simpl; [by rewrite <- app_assoc | done]. Qed.

Lemma crawl_links_sitemap rec idx depth links :
  (forall u d s s', rec u d s = Some s' ->
     exists new, cs_sitemap s' = cs_sitemap s ++ new) ->
  forall st st' exn,
    crawl_links env base rec idx depth links st = Some (st', exn) ->
    (idx < length (cs_sitemap st))%nat ->
    exists new,
      cs_sitemap st' =
      alter (add_links (recorded_links env base links)) idx (cs_sitemap st) ++ new.
Proof.
  intros Hrec. induction links as [|link rest IH]; intros st st' exn H Hidx;
    simpl in H |- *.
  - injection H as <- <-. exists [].
    rewrite app_nil_r. symmetry. apply list_alter_id, add_links_nil.
  - destruct (link_target env base link) as [[lk|]|e].
    + destruct (rec (link_url lk) (depth + 1)%Z (links_append idx lk st))
        as [st1|] eqn:Hr; [|discriminate].
      destruct (Hrec _ _ _ _ Hr) as (new1 & Hs1). simpl in Hs1.
      destruct (IH _ _ _ H) as (new2 & Hs2).
      { rewrite Hs1, length_app, length_alter. lia. }
      exists (new1 ++ new2). rewrite Hs2, Hs1.
      rewrite alter_app_l by (rewrite length_alter; lia).
      rewrite list_alter_alter_eq, <- app_assoc. f_equal.
      apply list_alter_ext; [|done]. intros e _. simpl. apply add_links_cons.
    + eapply IH; eauto.
    + injection H as <- <-. exists [].
      rewrite app_nil_r. symmetry. apply list_alter_id, add_links_nil.
Qed.

Lemma crawl_sitemap fuel :
  forall current_url depth st st',
    crawl env base max_depth fuel current_url depth st = Some st' ->
    if cut max_depth current_url depth st then st' = st
    else exists new,
        cs_sitemap st' =
        cs_sitemap st ++ first_entry env base max_depth current_url depth :: new.
Proof.
  induction fuel as [|fuel IH]; intros current_url depth st st' H; [discriminate|].
  rewrite crawl_S in H.
  destruct (cut max_depth current_url depth st) eqn:Hcut; [by injection H|].
  unfold crawl_try in H. unfold first_entry.
  destruct (fetch_url env current_url None) as [response|e].
  - case_bool_decide as Hd.
    + match type of H with
      | context [crawl_links env base ?r ?i ?d ?l ?s] =>
          destruct (crawl_links env base r i d l s) as [[st1 exn]|] eqn:Hl;
            [|discriminate]
      end.
      apply crawl_links_sitemap in Hl as (new & Hs).
      * simpl in Hs.
        rewrite alter_app_r_alt in Hs by lia.
        rewrite Nat.sub_diag in Hs. simpl in Hs.
        destruct exn; injection H as <-; simpl; rewrite Hs; eexists;
          rewrite <- !app_assoc; simpl; reflexivity.
      * intros u d s s' Hc. specialize (IH _ _ _ _ Hc).
        destruct (cut max_depth u d s); [subst; exists []; by rewrite app_nil_r|].
        destruct IH as (new & ->). eauto.
      * simpl. rewrite length_app. simpl. lia.
    + injection H as <-. simpl. eauto.
  - injection H as <-. simpl. eauto.
Qed.

Lemma crawl_sitemap_prefix fuel current_url depth st st' :
  crawl env base max_depth fuel current_url depth st = Some st' ->
  exists new, cs_sitemap st' = cs_sitemap st ++ new.
Proof.
  intros H. apply crawl_sitemap in H.
  destruct (cut max_depth current_url depth st); [subst; exists []; by rewrite app_nil_r|].
  destruct H as (new & ->). eauto.
Qed.

(** *** One URL, how many entries *)

Lemma elem_of_omap_page_url x (l : list SitemapEntry) :
  x ∈ omap page_url l -> exists e, e ∈ l /\ entry_url e = x.
Proof.
  intros H. apply list_elem_of_omap in H as (e & He & Hx).
  exists e. split; [done|]. destruct e; simpl in *; congruence.
Qed.

Lemma elem_of_omap_error_url x (l : list SitemapEntry) :
  x ∈ omap error_url l -> exists e, e ∈ l /\ entry_url e = x.
Proof.
  intros H. apply list_elem_of_omap in H as (e & He & Hx).
  exists e. split; [done|]. destruct e; simpl in *; congruence.
Qed.

Lemma fresh_entries_nil quiet v : fresh_entries quiet v v [].
Proof.
  split; [|split; [|split]].
  - intros e He. inversion He.
  - apply NoDup_nil_2.
  - apply NoDup_nil_2.
  - intros _. apply NoDup_nil_2.
Qed.

Lemma fresh_entries_nil_sub quiet v v' : fresh_entries quiet v v' [].
Proof.
  split; [|split; [|split]].
  - intros e He. inversion He.
  - apply NoDup_nil_2.
  - apply NoDup_nil_2.
  - intros _. apply NoDup_nil_2.
Qed.

Lemma fresh_entries_app quiet v1 v2 v3 n1 n2 :
  v1 ⊆ v2 -> v2 ⊆ v3 ->
  fresh_entries quiet v1 v2 n1 -> fresh_entries quiet v2 v3 n2 ->
  fresh_entries quiet v1 v3 (n1 ++ n2).
Proof.
  intros H12 H23 (Hm1 & Hp1 & He1 & Hq1) (Hm2 & Hp2 & He2 & Hq2).
  assert (Hdisj : forall e1 e2, e1 ∈ n1 -> e2 ∈ n2 -> entry_url e1 <> entry_url e2).
  { intros e1 e2 H1 H2 Heq. destruct (Hm1 _ H1) as [_ Hin].
    destruct (Hm2 _ H2) as [Hnin _]. rewrite Heq in Hin. auto. }
  split; [|split; [|split]].
  - intros e He. apply elem_of_app in He as [He|He].
    + destruct (Hm1 _ He) as [Hn1 Hn2]. split; [done|]. by apply H23.
    + destruct (Hm2 _ He) as [Hn1 Hn2]. split; [|done].
      intros Hx. by apply Hn1, H12.
  - rewrite omap_app. apply NoDup_app. split; [done|]. split; [|done].
    intros x Hx1 Hx2.
    apply elem_of_omap_page_url in Hx1 as (e1 & H1 & <-).
    apply elem_of_omap_page_url in Hx2 as (e2 & H2 & Heq).
    by apply (Hdisj e1 e2).
  - rewrite omap_app. apply NoDup_app. split; [done|]. split; [|done].
    intros x Hx1 Hx2.
    apply elem_of_omap_error_url in Hx1 as (e1 & H1 & <-).
    apply elem_of_omap_error_url in Hx2 as (e2 & H2 & Heq).
    by apply (Hdisj e1 e2).
  - intros Hquiet. rewrite fmap_app. apply NoDup_app.
    split; [auto|]. split; [|auto].
    intros x Hx1 Hx2.
    apply list_elem_of_fmap in Hx1 as (e1 & -> & H1).
    apply list_elem_of_fmap in Hx2 as (e2 & Heq & H2).
    by apply (Hdisj e1 e2).
Qed.

(** The entries of a call that is not cut: the first entry, the entries of
    the calls below, and the error entry when the loop raised. *)
Lemma fresh_entries_enter quiet v v' url first mid last :
  url ∉ v -> {[url]} ∪ v ⊆ v' ->
  fresh_entries quiet ({[url]} ∪ v) v' mid ->
  entry_url first = url ->
  (last = [] \/ (exists t ls msg,
                   first = PageInfo url t ls /\ last = [ErrorEntry url msg]
                   /\ ~ quiet)) ->
  fresh_entries quiet v v' (first :: mid ++ last).
Proof.
  intros Hnin Hsub (Hm & Hp & He & Hq) Hfirst Hlast.
  assert (Hurl : url ∈ {[url]} ∪ v)
    by (apply elem_of_union; left; by apply elem_of_singleton).
  assert (Hin' : url ∈ v') by (by apply Hsub).
  assert (Hmid : forall e, e ∈ mid -> entry_url e <> url).
  { intros e H Heq. destruct (Hm _ H) as [Hn _]. rewrite Heq in Hn. done. }
  assert (Hpm : url ∉ omap page_url mid).
  { intros H. apply elem_of_omap_page_url in H as (e & H & Heq). by eapply Hmid. }
  assert (Hem : url ∉ omap error_url mid).
  { intros H. apply elem_of_omap_error_url in H as (e & H & Heq). by eapply Hmid. }
  assert (Hum : url ∉ entry_url <$> mid).
  { intros H. apply list_elem_of_fmap in H as (e & Heq & H). by eapply Hmid. }
  destruct Hlast as [-> | (t & ls & msg & -> & -> & Hnq)].
  - rewrite app_nil_r. split; [|split; [|split]].
    + intros e H. apply elem_of_cons in H as [->|H].
      * by rewrite Hfirst.
      * destruct (Hm _ H) as [Hn1 Hn2]. split; [|done].
        intros Hx. apply Hn1, elem_of_union. by right.
    + destruct first; simpl in *; subst; [by apply NoDup_cons | done].
    + destruct first; simpl in *; subst; [done | by apply NoDup_cons].
    + intros Hquiet. rewrite fmap_cons, Hfirst. apply NoDup_cons. auto.
  - split; [|split; [|split]].
    + intros e H. apply elem_of_cons in H as [->|H]; [done|].
      apply elem_of_app in H as [H|H].
      * destruct (Hm _ H) as [Hn1 Hn2]. split; [|done].
        intros Hx. apply Hn1, elem_of_union. by right.
      * apply list_elem_of_singleton in H as ->. done.
    + simpl. rewrite omap_app. simpl. rewrite app_nil_r. by apply NoDup_cons.
    + simpl. rewrite omap_app. simpl. apply NoDup_app. split; [done|].
      split; [|apply NoDup_singleton].
      intros x Hx Hx'. apply list_elem_of_singleton in Hx' as ->. auto.
    + intros Hquiet. by destruct Hnq.
Qed.

Lemma crawl_links_quiet rec idx depth links :
  (forall link, link ∈ links -> exists r, link_target env base link = Ret r) ->
  forall st st' exn,
    crawl_links env base rec idx depth links st = Some (st', exn) -> exn = None.
Proof.
  induction links as [|link rest IH]; intros Hok st st' exn H; simpl in H.
  - by injection H as <- <-.
  - assert (Hrest : forall l, l ∈ rest -> exists r, link_target env base l = Ret r)
      by (intros; apply Hok; by right).
    destruct (Hok link) as [r Hr]; [by left|]. rewrite Hr in H.
    destruct r as [lk|]; [|eauto].
    destruct (rec (link_url lk) (depth + 1)%Z (links_append idx lk st));
      [eauto | discriminate].
Qed.

Lemma crawl_links_fresh quiet rec idx depth links :
  (forall u d s s', rec u d s = Some s' ->
     exists new, cs_sitemap s' = cs_sitemap s ++ new) ->
  (forall u d s s', rec u d s = Some s' -> cs_visited s ⊆ cs_visited s') ->
  (forall u d s s', rec u d s = Some s' ->
     fresh_entries quiet (cs_visited s) (cs_visited s') (entries_after s s')) ->
  forall st st' exn,
    crawl_links env base rec idx depth links st = Some (st', exn) ->
    (idx < length (cs_sitemap st))%nat ->
    cs_visited st ⊆ cs_visited st'
    /\ fresh_entries quiet (cs_visited st) (cs_visited st') (entries_after st st').
Proof.
  intros Hpre Hvis Hfr. induction links as [|link rest IH];
    intros st st' exn H Hidx.
  - simpl in H. injection H as <- <-. split; [done|].
    unfold entries_after. rewrite drop_all. apply fresh_entries_nil.
  - pose proof H as Hwhole. simpl in H.
    destruct (link_target env base link) as [[lk|]|e] eqn:Ht.
    + destruct (rec (link_url lk) (depth + 1)%Z (links_append idx lk st))
        as [st1|] eqn:Hr; [|discriminate].
      destruct (Hpre _ _ _ _ Hr) as (new1 & Hs1). simpl in Hs1.
      pose proof (Hvis _ _ _ _ Hr) as Hv1. simpl in Hv1.
      pose proof (Hfr _ _ _ _ Hr) as Hf1. unfold entries_after in Hf1.
      simpl in Hf1. rewrite Hs1, length_alter, <- (length_alter (add_link lk) _ idx),
        drop_app_length in Hf1.
      assert (Hidx1 : (idx < length (cs_sitemap st1))%nat)
        by (rewrite Hs1, length_app, length_alter; lia).
      destruct (IH _ _ _ H Hidx1) as (Hv2 & Hf2).
      destruct (crawl_links_sitemap rec idx depth rest Hpre _ _ _ H Hidx1)
        as (new2 & Hs2).
      assert (Hn2 : entries_after st1 st' = new2).
      { unfold entries_after. rewrite Hs2.
        rewrite <- (length_alter (add_links (recorded_links env base rest)) _ idx).
        apply drop_app_length. }
      assert (Hn : entries_after st st' = new1 ++ new2).
      { unfold entries_after. rewrite Hs2, Hs1.
        rewrite alter_app_l by (rewrite length_alter; lia).
        rewrite <- app_assoc.
        rewrite <- (length_alter (add_link lk) (cs_sitemap st) idx).
        rewrite <- (length_alter (add_links (recorded_links env base rest)) _ idx).
        apply drop_app_length. }
      split; [by transitivity (cs_visited st1)|]. rewrite Hn. rewrite Hn2 in Hf2.
      eapply fresh_entries_app; eauto.
    + eapply IH; eauto.
    + injection H as <- <-. split; [done|].
      unfold entries_after. rewrite drop_all. apply fresh_entries_nil.
Qed.

Lemma crawl_fresh fuel :
  forall current_url depth st st',
    crawl env base max_depth fuel current_url depth st = Some st' ->
    fresh_entries (anchors_parse env base) (cs_visited st) (cs_visited st')
      (entries_after st st').
Proof.
  induction fuel as [|fuel IH]; intros current_url depth st st' H; [discriminate|].
  pose proof (crawl_visited_mono _ _ _ _ _ H) as Hmono.
  pose proof H as Hwhole. rewrite crawl_S in H.
  destruct (cut max_depth current_url depth st) eqn:Hcut.
  { injection H as <-. unfold entries_after. rewrite drop_all.
    apply fresh_entries_nil. }
  assert (Hnin : current_url ∉ cs_visited st).
  { unfold cut in Hcut. apply orb_false_iff in Hcut as [_ Hc].
    by apply bool_decide_eq_false in Hc. }
  assert (Hd : (depth <= max_depth)%Z).
  { unfold cut in Hcut. apply orb_false_iff in Hcut as [Hc _].
    apply bool_decide_eq_false in Hc. lia. }
  pose proof (crawl_visits _ _ _ _ _ Hwhole Hd) as Hin.
  assert (Hsub : {[current_url]} ∪ cs_visited st ⊆ cs_visited st').
  { intros x Hx. apply elem_of_union in Hx as [Hx|Hx]; [|by apply Hmono].
    by apply elem_of_singleton in Hx as ->. }
  unfold crawl_try in H.
  destruct (fetch_url env current_url None) as [response|e] eqn:Hfetch.
  - case_bool_decide as Hlt.
    + match type of H with
      | context [crawl_links env base ?r ?i ?d ?l ?s] =>
          destruct (crawl_links env base r i d l s) as [[st1 exn]|] eqn:Hl;
            [|discriminate]
      end.
      pose proof Hl as Hl2.
      apply (crawl_links_fresh (anchors_parse env base)) in Hl as (Hv & Hf).
      * pose proof Hl2 as Hl3.
        apply crawl_links_sitemap in Hl2 as (new & Hs).
        -- simpl in Hs. rewrite alter_app_r_alt in Hs by lia.
           rewrite Nat.sub_diag in Hs. simpl in Hs.
           assert (Hnew : entries_after
                            (sitemap_append
                               (PageInfo current_url
                                  (title_of (BeautifulSoup env (text response))) [])
                               (log_fetch current_url (visit current_url st)))
                            st1 = new).
           { unfold entries_after. rewrite Hs. simpl.
             rewrite length_app. simpl.
             set (p := PageInfo _ _ _).
             replace (length (cs_sitemap st) + 1)%nat
               with (length (cs_sitemap st ++ [p])) by (rewrite length_app; simpl; lia).
             apply drop_app_length. }
           rewrite Hnew in Hf. simpl in Hf.
           assert (Hv1 : cs_visited st1 = cs_visited st')
             by (destruct exn; injection H as <-; reflexivity).
           rewrite Hv1 in Hf.
           assert (Hentries : exists last,
                     entries_after st st' =
                     PageInfo current_url
                       (title_of (BeautifulSoup env (text response)))
                       (recorded_links env base
                          (bs4.find_all ["a"] [("href", bs4.AttrTrue)]
                             (BeautifulSoup env (text response))))
                     :: new ++ last
                     /\ (last = [] \/ exists msg,
                           last = [ErrorEntry current_url msg] /\ exn <> None)).
           { unfold entries_after.
             destruct exn as [e|]; injection H as <-; simpl; rewrite Hs.
             - exists [ErrorEntry current_url (str_exn e)].
               split; [|right; eauto].
               rewrite <- !app_assoc. rewrite drop_app_length. reflexivity.
             - exists []. split; [|by left].
               rewrite <- !app_assoc. rewrite drop_app_length.
               by rewrite app_nil_r. }
           destruct Hentries as (last & -> & Hlast).
           apply (fresh_entries_enter _ _ _ current_url); try done.
           destruct Hlast as [-> | (msg & -> & Hexn)]; [by left|].
           right. do 3 eexists. split; [reflexivity|]. split; [reflexivity|].
           intros Hquiet. apply Hexn.
           eapply crawl_links_quiet; [|exact Hl3].
           intros link Hlink. exact (Hquiet current_url response link Hfetch Hlink).
        -- intros u d s s' Hc. eapply crawl_sitemap_prefix; eauto.
        -- simpl. rewrite length_app. simpl. lia.
      * intros u d s s' Hc. eapply crawl_sitemap_prefix; eauto.
      * intros u d s s' Hc. eapply crawl_visited_mono; eauto.
      * intros u d s s' Hc. eapply IH; eauto.
      * simpl. rewrite length_app. simpl. lia.
    + injection H as <-. unfold entries_after. simpl.
      rewrite drop_app_length.
      apply (fresh_entries_enter _ _ _ current_url _ [] []); try done.
      * apply fresh_entries_nil_sub. 
      * by left.
  - injection H as <-. unfold entries_after. simpl.
    rewrite drop_app_length.
    apply (fresh_entries_enter _ _ _ current_url _ [] []); try done.
    + apply fresh_entries_nil_sub.
    + by left.
Qed.

End CrawlProps.

(** * The statements of the specification *)

(** ** The sitemap at depth one (C1) *)



(** ** The key of a [meta] element (C3) *)

Lemma add_meta_key metadata meta :
  add_meta metadata meta =
  match meta_key meta, bs4.attrs meta !! "content" with
  | Some k, Some c => <[k := c]> metadata
  | _, _ => metadata
  end.
Proof.
  unfold add_meta, meta_key.
  destruct (bs4.attrs meta !! "name"), (bs4.attrs meta !! "content"),
    (bs4.attrs meta !! "property"); reflexivity.
Qed.

Lemma foldl_add_meta_lookup metas k (m1 m2 : gmap string string) :
  m1 !! k = m2 !! k ->
  foldl add_meta m1 metas !! k = foldl add_meta m2 metas !! k.
Proof.
  revert m1 m2. induction metas as [|meta metas IH]; intros m1 m2 H; simpl; [done|].
  apply IH. rewrite !add_meta_key.
  destruct (meta_key meta) as [k'|], (bs4.attrs meta !! "content") as [c|]; try done.
  rewrite !lookup_insert. by case_decide.
Qed.

Lemma foldl_add_meta_keep metas k (m : gmap string string) :
  (forall meta, meta ∈ metas -> meta_key meta <> Some k) ->
  foldl add_meta m metas !! k = m !! k.
Proof.
  revert m. induction metas as [|meta metas IH]; intros m H; simpl; [done|].
  rewrite IH by (intros; apply H; by right).
  rewrite add_meta_key.
  destruct (meta_key meta) as [k'|] eqn:Hk, (bs4.attrs meta !! "content") as [c|];
    try done.
  rewrite lookup_insert_ne; [done|]. intros ->. eapply H; [by left | done].
Qed.

Lemma analyze_page_structure_metadata env html_content :
  ps_metadata (analyze_page_structure env html_content)
  = metadata_of (BeautifulSoup env html_content).
Proof. reflexivity. Qed.

(** C3, as amended.  A [meta] element that carries a [content] together
    with both a [name] and a [property] is filed under the value of its
    [name] attribute: the [name] test comes first and the [property] test is
    its [elif].  So the metadata has the content under the name, unless a
    later [meta] writes that key again, and the element leaves the entry of
    the property's value as the other elements make it. *)
Theorem meta_name_wins env html_content before meta after n p c :
  let soup := BeautifulSoup env html_content in
  let metadata := ps_metadata (analyze_page_structure env html_content) in
  bs4.find_all ["meta"] [] soup = before ++ meta :: after ->
  bs4.attrs meta !! "name" = Some n ->
  bs4.attrs meta !! "property" = Some p ->
  bs4.attrs meta !! "content" = Some c ->
  (forall m, add_meta m meta = <[n := c]> m)
  /\ ((forall later, later ∈ after -> meta_key later <> Some n) ->
      metadata !! n = Some c)
  /\ (p <> n -> metadata !! p = foldl add_meta ∅ (before ++ after) !! p).
Proof.
  intros soup metadata Hall Hn Hp Hc. subst metadata.
  rewrite analyze_page_structure_metadata. fold soup.
  assert (Hstep : forall metadata, add_meta metadata meta = <[n := c]> metadata).
  { intros metadata. unfold add_meta. by rewrite Hn, Hc. }
  split; [done|]. unfold metadata_of. rewrite Hall, !foldl_app. simpl.
  rewrite Hstep. split.
  - intros Hlater. rewrite foldl_add_meta_keep by done. apply lookup_insert_eq.
  - intros Hne. apply foldl_add_meta_lookup. by rewrite lookup_insert_ne.
Qed.

(** A [meta] element with the name [description], the property
    [og:description] and a content: the metadata has nothing under the
    property's value, and the content under the name. *)
Lemma property_does_not_win :
  bs4.find_all ["meta"] [] (BeautifulSoup Example.env Example.meta_html)
    = [Example.meta_tag]
  /\ bs4.attrs Example.meta_tag !! "name" = Some "description"
  /\ bs4.attrs Example.meta_tag !! "property" = Some "og:description"
  /\ bs4.attrs Example.meta_tag !! "content" = Some "About us"
  /\ ps_metadata (analyze_page_structure Example.env Example.meta_html)
       !! "og:description" = None
  /\ ps_metadata (analyze_page_structure Example.env Example.meta_html)
       !! "description" = Some "About us".
Proof. repeat split; vm_compute; reflexivity. Qed.

Lemma meta_name_wins_witness :
  ps_metadata (analyze_page_structure Example.env Example.meta_html)
    !! "description" = Some "About us".
Proof.
  refine (proj1 (proj2 (meta_name_wins Example.env
    Example.meta_html [] Example.meta_tag []
    "description" "og:description" "About us" _ _ _ _)) _).
  - vm_compute; reflexivity.
  - vm_compute; reflexivity.
  - vm_compute; reflexivity.
  - vm_compute; reflexivity.
  - intros later H. inversion H.
Defined.

(** ** Fonts and images in a stylesheet (C5) *)

(** C5, as amended.  The first loop of [parse_css_for_assets] sorts every
    resolved reference by the occurrence of a font marker ([.woff],
    [.woff2], [.ttf], [.eot], [.otf]) anywhere in its lower-case form, not
    by its filename extension: it goes to [fonts] if and only if a marker
    occurs, and to [images] otherwise, whether an image marker occurs or
    none; no reference goes to both lists. *)
Theorem classify_by_marker env base css fonts1 images1 :
  classify_urls env base css = Ret (fonts1, images1) ->
  exists resolved,
    map_res (normalize_url env base) (Re.findall_url css) = Ret resolved
    /\ fonts1 = List.filter is_font_url resolved
    /\ images1 = List.filter (fun u => negb (is_font_url u)) resolved
    /\ forall u, u ∈ resolved ->
         (u ∈ fonts1 <-> is_font_url u = true)
         /\ (u ∈ images1 <-> is_font_url u = false)
         /\ ~ (u ∈ fonts1 /\ u ∈ images1).
Proof.
  intros H. unfold classify_urls in H.
  pose proof (classify_loop env base (Re.findall_url css) [] []) as Hl.
  rewrite H in Hl. destruct Hl as (resolved & Hres & -> & ->). simpl.
  exists resolved. repeat split; try done.
  - intros Hu. by apply elem_of_List_filter in Hu as [_ Hu].
  - intros Hf. by apply elem_of_List_filter.
  - intros Hu. apply elem_of_List_filter in Hu as [_ Hu].
    by apply negb_true_iff.
  - intros Hf. apply elem_of_List_filter. split; [done|]. by apply negb_true_iff.
  - intros [Hf Hi]. apply elem_of_List_filter in Hf as [_ Hf].
    apply elem_of_List_filter in Hi as [_ Hi]. rewrite Hf in Hi. discriminate.
Qed.

(** The reference [a.ttf.png] has the filename extension [.png] and is put
    in [fonts], not in [images]. *)
Lemma marker_beats_extension :
  Re.findall_url "url(a.ttf.png)" = ["a.ttf.png"]
  /\ normalize_url Example.env "http://example.com" "a.ttf.png"
     = Ret "http://example.com/a.ttf.png"
  /\ filename_extension "http://example.com/a.ttf.png" = ".png"
  /\ classify_urls Example.env "http://example.com" "url(a.ttf.png)"
     = Ret (["http://example.com/a.ttf.png"], []).
Proof. repeat split; vm_compute; reflexivity. Qed.

Lemma classify_by_marker_witness :
  exists resolved,
    map_res (normalize_url Example.env "http://example.com")
      (Re.findall_url "url(a.ttf.png) url(b.png) url(c)") = Ret resolved
    /\ ["http://example.com/a.ttf.png"] = List.filter is_font_url resolved
    /\ ["http://example.com/b.png"; "http://example.com/c"]
       = List.filter (fun u => negb (is_font_url u)) resolved
    /\ forall u, u ∈ resolved ->
         (u ∈ ["http://example.com/a.ttf.png"] <-> is_font_url u = true)
         /\ (u ∈ ["http://example.com/b.png"; "http://example.com/c"]
             <-> is_font_url u = false)
         /\ ~ (u ∈ ["http://example.com/a.ttf.png"]
               /\ u ∈ ["http://example.com/b.png"; "http://example.com/c"]).
Proof.
  apply (classify_by_marker Example.env "http://example.com"
           "url(a.ttf.png) url(b.png) url(c)").
  vm_compute; reflexivity.
Defined.

(** ** The references of an [@font-face] block (C4) *)

(** C4, as amended.  Every reference found in an [@font-face] block is
    returned in [fonts]; it is returned in [images] too when the scan of the
    whole text finds it and no font marker occurs in its resolved form
    (such a marker sends it to [fonts] in the first loop as well, whatever
    its extension).  The text [@font-face{src:url(x.png)}] under
    [http://example.com] is a case of it: [x.png] is in both lists. *)
Theorem font_face_url_in_both env css_url css r block u :
  parse_css_for_assets env css_url (Some css) = Ret r ->
  block ∈ Re.findall_font_face css ->
  u ∈ Re.findall_url block ->
  exists base full,
    get_base_url env css_url = Ret base
    /\ normalize_url env base u = Ret full
    /\ full ∈ fonts r
    /\ (u ∈ Re.findall_url css -> is_font_url full = false -> full ∈ images r).
Proof.
  intros H Hblock Hu. pose proof (parse_css_spec env css_url css) as Hs.
  rewrite H in Hs. destruct Hs as (base & resolved & face & Hb & Hres & Hface & ->).
  assert (Hin : u ∈ flat_map Re.findall_url (Re.findall_font_face css)).
  { apply list_elem_of_In, in_flat_map. exists block.
    split; by apply list_elem_of_In. }
  destruct (map_res_Ret_all _ _ _ _ Hface Hin) as (full & Hn & Hfull).
  exists base, full. repeat split; try done; simpl.
  - apply elem_of_list_of_set, elem_of_app. by right.
  - intros Hcss Hf. apply elem_of_list_of_set, elem_of_List_filter.
    split; [|by rewrite Hf]. apply (map_res_elem _ _ _ _ Hres). eauto.
Qed.

(** The reference [a.woff.png] has the image extension [.png] and stands in
    an [@font-face] block, and is returned in [fonts] only. *)
Lemma font_marker_keeps_out_of_images :
  Re.findall_font_face "@font-face{src:url(a.woff.png)}"
    = ["@font-face{src:url(a.woff.png)}"]
  /\ Re.findall_url "@font-face{src:url(a.woff.png)}" = ["a.woff.png"]
  /\ filename_extension "http://example.com/a.woff.png" = ".png"
  /\ parse_css_for_assets Example.env "http://example.com/style.css"
       (Some "@font-face{src:url(a.woff.png)}")
     = Ret (mkCssAssets None ["http://example.com/a.woff.png"] []).
Proof. repeat split; vm_compute; reflexivity. Qed.

Lemma font_face_url_in_both_witness :
  parse_css_for_assets Example.env "http://example.com/style.css"
    (Some "@font-face{src:url(x.png)}")
  = Ret (mkCssAssets None ["http://example.com/x.png"] ["http://example.com/x.png"])
  /\ exists full,
       normalize_url Example.env "http://example.com" "x.png" = Ret full
       /\ full ∈ ["http://example.com/x.png"]
       /\ full ∈ ["http://example.com/x.png"].
Proof.
  split; [vm_compute; reflexivity|].
  destruct (font_face_url_in_both Example.env "http://example.com/style.css"
              "@font-face{src:url(x.png)}"
              (mkCssAssets None ["http://example.com/x.png"]
                                ["http://example.com/x.png"])
              "@font-face{src:url(x.png)}" "x.png")
    as (base & full & Hb & Hn & Hf & Hi).
  - vm_compute; reflexivity.
  - vm_compute. left.
  - vm_compute. left.
  - vm_compute in Hb. injection Hb as <-.
    exists full. split; [exact Hn|]. split; [exact Hf|].
    apply Hi.
    + vm_compute. left.
    + vm_compute in Hn. injection Hn as <-. vm_compute; reflexivity.
Defined.

(** ** Duplicates (C6) *)

(** C6.  The two lists that [parse_css_for_assets] returns have no
    duplicates, on every path that returns; each list that [extract_assets]
    returns is the list of the references discovered for its category,
    resolved one by one, in the order of discovery and with as many items:
    nothing is removed. *)
Theorem dedup_only_for_stylesheets env :
  (forall css_url css_content r,
     parse_css_for_assets env css_url css_content = Ret r ->
     NoDup (fonts r) /\ NoDup (images r))
  /\ (forall url html_content d key,
        extract_assets env url html_content = Ret d ->
        key ∈ asset_keys ->
        exists base urls,
          get_base_url env url = Ret base
          /\ map_res (normalize_url env base)
               (discovered key (BeautifulSoup env html_content)) = Ret urls
          /\ d !! key = Some urls
          /\ length urls = length (discovered key (BeautifulSoup env html_content))).
Proof.
  split.
  - intros css_url css_content r H.
    assert (Hgiven : forall css, parse_css_for_assets env css_url (Some css) = Ret r ->
                       NoDup (fonts r) /\ NoDup (images r)).
    { intros css Hc. pose proof (parse_css_spec env css_url css) as Hs.
      rewrite Hc in Hs. destruct Hs as (base & resolved & face & _ & _ & _ & ->).
      simpl. split; apply NoDup_list_of_set. }
    destruct css_content as [css|]; [eauto|].
    destruct (fetch_url env css_url None) as [response|e] eqn:Hf.
    + rewrite (parse_css_fetched env _ _ Hf) in H. eauto.
    + destruct (get_base_url env css_url) as [base|e0] eqn:Hb.
      * rewrite (parse_css_fetch_failure env _ _ _ Hb Hf) in H.
        injection H as <-. simpl. split; apply NoDup_nil_2.
      * unfold parse_css_for_assets in H. rewrite Hb in H. discriminate.
  - intros url html_content d key H Hkey.
    destruct (discovered_lookup env url html_content d key H Hkey)
      as (base & urls & Hb & Hm & Hl).
    exists base, urls. repeat split; try done.
    by apply map_res_length in Hm.
Qed.

Lemma dedup_only_for_stylesheets_witness :
  (NoDup ["http://example.com/b.png"] /\ NoDup ["http://example.com/b.png"])
  /\ exists d, extract_assets Example.env Example.home Example.imgs_html = Ret d
       /\ d !! "images"
          = Some ["http://example.com/logo.png"; "http://example.com/logo.png"].
Proof.
  split.
  - change (NoDup (fonts (mkCssAssets None ["http://example.com/b.png"]
                                            ["http://example.com/b.png"]))
            /\ NoDup (images (mkCssAssets None ["http://example.com/b.png"]
                                               ["http://example.com/b.png"]))).
    apply (proj1 (dedup_only_for_stylesheets Example.env)
             "http://example.com/style.css"
             (Some "@font-face{src:url(b.png)} url(b.png) url(b.png)")).
    vm_compute; reflexivity.
  - destruct (extract_assets Example.env Example.home Example.imgs_html)
      as [d|e] eqn:Hd; [|vm_compute in Hd; discriminate].
    exists d. split; [reflexivity|].
    destruct (proj2 (dedup_only_for_stylesheets Example.env)
                Example.home Example.imgs_html d "images" Hd)
      as (base & urls & Hb & Hm & Hl & _).
    + vm_compute. reflexivity.
    + vm_compute in Hb. injection Hb as <-.
      vm_compute in Hm. injection Hm as <-. exact Hl.
Defined.

(** ** The six categories (C9) *)

(** C9.  The dictionary that [extract_assets] returns has exactly the six
    keys [css], [javascript], [images], [fonts], [videos] and [other];
    markup in which no rule finds an element gives the six keys with empty
    lists (the URL of the page being one that parses). *)
Theorem extract_assets_six_keys env url html_content :
  (forall d, extract_assets env url html_content = Ret d ->
     dom d = asset_keys)
  /\ (forall base,
        get_base_url env url = Ret base ->
        no_matching_elements (BeautifulSoup env html_content) ->
        extract_assets env url html_content = Ret empty_assets)
  /\ dom empty_assets = asset_keys
  /\ (forall key, key ∈ asset_keys -> empty_assets !! key = Some []).
Proof.
  split; [apply extract_assets_dom|].
  split; [apply extract_assets_nothing|].
  split; [apply dom_empty_assets | apply empty_assets_lookup].
Qed.

Lemma extract_assets_six_keys_witness :
  (exists d, extract_assets Example.env Example.home Example.imgs_html = Ret d
             /\ dom d = asset_keys)
  /\ extract_assets Example.env Example.home EmptyString = Ret empty_assets.
Proof.
  split.
  - destruct (extract_assets Example.env Example.home Example.imgs_html)
      as [d|e] eqn:Hd; [|vm_compute in Hd; discriminate].
    exists d. split; [reflexivity|].
    exact (proj1 (extract_assets_six_keys Example.env Example.home
                    Example.imgs_html) d Hd).
  - apply (proj1 (proj2 (extract_assets_six_keys Example.env Example.home
                           EmptyString)) "http://example.com").
    + vm_compute; reflexivity.
    + repeat split; vm_compute; reflexivity.
Defined.

(** ** Termination of the crawl (C8) *)

(** C8.  For every bound [max_depth >= 1] and every site, the crawl of
    [create_site_map] comes to an end: as soon as the nesting allowed is at
    least [max_depth], the call returns, and so does every call of [crawl]
    at a depth of at least 1.  A call that is cut (depth over the bound, or
    URL visited) changes nothing; every other call is on a URL that was not
    in the visited set and is in it afterwards, and no call removes a URL
    from the set.  (The recursive call is at [depth + 1] by the definition
    of [crawl_links].) *)
Theorem crawl_terminates env url max_depth fuel :
  (1 <= max_depth)%Z -> (max_depth <= Z.of_nat fuel)%Z ->
  (exists r, create_site_map env fuel url max_depth = Some r)
  /\ forall base u depth st,
       (1 <= depth)%Z ->
       exists st',
         crawl env base max_depth fuel u depth st = Some st'
         /\ cs_visited st ⊆ cs_visited st'
         /\ (cut max_depth u depth st = true -> st' = st)
         /\ (cut max_depth u depth st = false ->
             (u ∉ cs_visited st) /\ (u ∈ cs_visited st')).
Proof.
  intros H1 Hfuel.
  assert (Hcrawl : forall base u depth st, (1 <= depth)%Z ->
            exists st', crawl env base max_depth fuel u depth st = Some st').
  { intros base u depth st Hd.
    destruct (crawl_total env base max_depth fuel u depth st) as [st' Hst'];
      try lia. eauto. }
  split.
  - unfold create_site_map. destruct (get_base_url env url) as [base|e]; [|eauto].
    destruct (Hcrawl base url 1%Z (mkCrawlState ∅ [] [])) as [st' ->];
      try lia. eauto.
  - intros base u depth st Hd. destruct (Hcrawl base u depth st Hd) as [st' Hst'].
    exists st'. split; [done|]. split; [eapply crawl_visited_mono; eauto|]. split.
    + intros Hcut. apply crawl_sitemap in Hst'. by rewrite Hcut in Hst'.
    + intros Hcut. unfold cut in Hcut. apply orb_false_iff in Hcut as [Hc1 Hc2].
      apply bool_decide_eq_false in Hc1. apply bool_decide_eq_false in Hc2.
      split; [done|]. eapply crawl_visits; [exact Hst' | lia].
Qed.

Lemma crawl_terminates_witness :
  (exists r, create_site_map Example.env 3 Example.home 3 = Some r)
  /\ exists st',
       crawl Example.env "http://example.com" 3 3 "http://example.com/a" 2
         (mkCrawlState {[Example.home]} [] []) = Some st'
       /\ "http://example.com/a" ∈ cs_visited st'.
Proof.
  destruct (crawl_terminates Example.env Example.home 3 3) as [Hmap Hcrawl];
    try lia.
  split; [exact Hmap|].
  destruct (Hcrawl "http://example.com" "http://example.com/a" 2%Z
              (mkCrawlState {[Example.home]} [] [])) as (st' & Hst' & _ & _ & Hfresh);
    try lia.
  exists st'. split; [exact Hst'|]. apply Hfresh. vm_compute; reflexivity.
Defined.

(** ** One URL, one fetch, how many entries (C7) *)

(** X1.  Within one call of [create_site_map] no URL is given to
    [fetch_url] twice. *)
Lemma crawl_fetches_once env base max_depth fuel url st' :
  crawl env base max_depth fuel url 1 (mkCrawlState ∅ [] []) = Some st' ->
  NoDup (cs_fetched st').
Proof.
  intros H. apply crawl_fetch_log in H as [Hnd _]; [done|].
  split; simpl; [apply NoDup_nil_2 | intros u Hu; inversion Hu].
Qed.

(** X2.  Within one call of [create_site_map] a URL has at most one page
    entry and at most one error entry; it has at most one entry when no anchor of
    the site makes the loop over the anchors raise. *)
Lemma sitemap_entries_per_url env fuel url max_depth sm :
  create_site_map env fuel url max_depth = Some (Ret sm) ->
  pages sm = length (sitemap sm)
  /\ NoDup (omap page_url (sitemap sm))
  /\ NoDup (omap error_url (sitemap sm))
  /\ (anchors_parse env (base_url sm) -> NoDup (entry_url <$> sitemap sm)).
Proof.
  unfold create_site_map.
  destruct (get_base_url env url) as [base|e]; [|discriminate].
  destruct (crawl env base max_depth fuel url 1 (mkCrawlState ∅ [] []))
    as [st'|] eqn:Hc; [|discriminate].
  intros [= <-]. simpl. split; [done|].
  apply crawl_fresh in Hc as (_ & Hp & He & Hq). unfold entries_after in *.
  simpl in *. auto.
Qed.

(** C7, at the failing input.  A page whose one anchor has the reference
    [//[], which the URL parser refuses: the seed is fetched, its page
    entry is appended, the loop over the anchors raises, and the handler
    appends an error entry for the same URL.  One URL, two entries. *)
Theorem page_entry_then_error_entry :
  bs4.find_all ["a"] [("href", bs4.AttrTrue)]
    (BeautifulSoup Example.env Example.c_html)
  = [Example.anchor "//[" "broken"]
  /\ normalize_url Example.env "http://example.com" "//["
     = Raise (ValueError "Invalid IPv6 URL")
  /\ create_site_map Example.env 2 "http://example.com/c" 2
     = Some (Ret (mkSiteMap "http://example.com" 2
                    [PageInfo "http://example.com/c" "No title" [];
                     ErrorEntry "http://example.com/c" "Invalid IPv6 URL"])).
Proof. repeat split; vm_compute; reflexivity. Qed.

(** ** The links of an entry (C10) *)



(** ** What reaches the caller (C2) *)





(** * Further properties of the program *)

(** ** The calls of the crawl *)

Section CrawlCalls.

Variable env : Env.
Variable base : string.
Variable max_depth : Z.

(** The loop over the anchors, with what is known of each anchor it takes. *)
Lemma crawl_links_calls (R : CrawlState -> CrawlState -> Prop) rec idx depth links :
  (forall st, R st st) ->
  (forall a b c, R a b -> R b c -> R a c) ->
  (forall link lk st,
     link ∈ links -> link_target env base link = Ret (Some lk) ->
     R st (links_append idx lk st)) ->
  (forall link lk s s',
     link ∈ links -> link_target env base link = Ret (Some lk) ->
     rec (link_url lk) (depth + 1)%Z s = Some s' -> R s s') ->
  forall st st' exn,
    crawl_links env base rec idx depth links st = Some (st', exn) -> R st st'.
Proof.
  intros Hrefl Htrans. induction links as [|link rest IH];
    intros Hlink Hrec st st' exn H; simpl in H.
  - injection H as <- <-. apply Hrefl.
  - assert (IH' : forall st st' exn,
              crawl_links env base rec idx depth rest st = Some (st', exn) ->
              R st st').
    { apply IH.
      - intros l lk s Hl. apply Hlink. by right.
      - intros l lk s s' Hl. apply Hrec. by right. }
    destruct (link_target env base link) as [[lk|]|e] eqn:Ht.
    + destruct (rec (link_url lk) (depth + 1)%Z (links_append idx lk st))
        as [st1|] eqn:Hr; [|discriminate].
      eapply Htrans; [apply (Hlink link lk st); [by left | done]|].
      eapply Htrans; [apply (Hrec link lk _ _); [by left | done | exact Hr]|].
      eapply IH', H.
    + eapply IH', H.
    + injection H as <- <-. apply Hrefl.
Qed.

Lemma entry_url_add_link lk e : entry_url (add_link lk e) = entry_url e.
Proof. by destruct e. Qed.

Lemma entry_urls_links_append idx lk st :
  entry_url <$> cs_sitemap (links_append idx lk st) = entry_url <$> cs_sitemap st.
Proof.
  simpl. generalize (cs_sitemap st) as l. intros l. revert idx.
  induction l as [|e l IH]; intros [|idx]; simpl; try done.
  - by rewrite entry_url_add_link.
  - f_equal. apply IH.
Qed.

Lemma crawl_fetched_mono fuel u d st st' :
  crawl env base max_depth fuel u d st = Some st' ->
  forall x, x ∈ cs_fetched st -> x ∈ cs_fetched st'.
Proof.
  revert fuel u d st st'.
  apply (crawl_rel env base max_depth
           (fun a b => forall x, x ∈ cs_fetched a -> x ∈ cs_fetched b)).
  - auto.
  - auto.
  - intros u st _ x Hx. simpl. apply elem_of_app. by left.
  - intros e st x Hx. exact Hx.
  - intros idx lk st x Hx. exact Hx.
Qed.

Lemma crawl_links_keeps fuel idx depth links st st' exn :
  crawl_links env base (crawl env base max_depth fuel) idx depth links st
    = Some (st', exn) ->
  (forall x, x ∈ cs_fetched st -> x ∈ cs_fetched st')
  /\ (forall x, x ∈ entry_url <$> cs_sitemap st ->
                x ∈ entry_url <$> cs_sitemap st').
Proof.
  intros H. split.
  - revert H. apply (crawl_links_rel env base
             (fun a b => forall x, x ∈ cs_fetched a -> x ∈ cs_fetched b)).
    + auto.
    + auto.
    + intros lk s x Hx. exact Hx.
    + intros u d s s'. apply crawl_fetched_mono.
  - revert H. apply (crawl_links_rel env base
             (fun a b => forall x, x ∈ entry_url <$> cs_sitemap a ->
                                   x ∈ entry_url <$> cs_sitemap b)).
    + auto.
    + auto.
    + intros lk s x Hx. by rewrite entry_urls_links_append.
    + intros u d s s' Hc x Hx.
      destruct (crawl_sitemap_prefix env base max_depth _ _ _ _ _ Hc) as (new & ->).
      rewrite fmap_app. apply elem_of_app. by left.
Qed.

(** An induction over the calls of [crawl]: [call_ok] is kept by the calls
    that the loop makes, and [R] by the steps of a call. *)
Lemma crawl_calls (call_ok : string -> Z -> Prop)
    (R : CrawlState -> CrawlState -> Prop) :
  (forall st, R st st) ->
  (forall a b c, R a b -> R b c -> R a c) ->
  (forall u d response link lk,
     call_ok u d -> (d < max_depth)%Z ->
     fetch_url env u None = Ret response ->
     link ∈ anchors_of env response ->
     link_target env base link = Ret (Some lk) ->
     call_ok (link_url lk) (d + 1)%Z) ->
  (forall u d st e,
     cut max_depth u d st = false -> call_ok u d ->
     (exists msg, e = ErrorEntry u msg) \/ (exists t, e = PageInfo u t []) ->
     R st (sitemap_append e (log_fetch u (visit u st)))) ->
  (forall link lk idx st,
     link_target env base link = Ret (Some lk) -> R st (links_append idx lk st)) ->
  (forall u msg st,
     u ∈ cs_fetched st -> u ∈ entry_url <$> cs_sitemap st ->
     R st (sitemap_append (ErrorEntry u msg) st)) ->
  forall fuel u d st st',
    crawl env base max_depth fuel u d st = Some st' -> call_ok u d -> R st st'.
Proof.
  intros Hrefl Htrans Hnext Henter Hlink Hfail.
  induction fuel as [|fuel IH]; intros u d st st' H Hok; [discriminate|].
  rewrite crawl_S in H.
  destruct (cut max_depth u d st) eqn:Hcut; [injection H as <-; apply Hrefl|].
  unfold crawl_try in H.
  destruct (fetch_url env u None) as [response|e] eqn:Hf.
  - case_bool_decide as Hd.
    + match type of H with
      | context [crawl_links env base ?r ?i ?dd ?l ?s] =>
          destruct (crawl_links env base r i dd l s) as [[st1 exn]|] eqn:Hl;
            [|discriminate]
      end.
      eapply Htrans;
        [apply (Henter u d st
                  (PageInfo u (title_of (BeautifulSoup env (text response))) [])
                  Hcut Hok); right; eauto|].
      assert (Hkeep : u ∈ cs_fetched st1 /\ u ∈ entry_url <$> cs_sitemap st1).
      { destruct (crawl_links_keeps _ _ _ _ _ _ _ Hl) as [H1 H2]. split.
        - apply H1. simpl. apply elem_of_app. right. by left.
        - apply H2. simpl. rewrite fmap_app. apply elem_of_app. right. by left. }
      eapply Htrans.
      * apply (crawl_links_calls R) in Hl; [exact Hl|done|done|..].
        -- intros link lk s _ Ht. by apply (Hlink link).
        -- intros link lk s s' Hin Ht Hc. eapply IH; [exact Hc|].
           eapply Hnext; eauto.
      * destruct exn as [e|]; injection H as <-; [|apply Hrefl].
        apply Hfail; apply Hkeep.
    + injection H as <-. apply (Henter u d st); [done | done | right; eauto].
  - injection H as <-. apply (Henter u d st); [done | done | left; eauto].
Qed.

End CrawlCalls.

(** ** The origin of what the crawl fetches and records *)

Lemma link_target_same_origin env base link lk :
  link_target env base link = Ret (Some lk) ->
  get_base_url env (link_url lk) = Ret base.
Proof.
  unfold link_target. intros H.
  destruct (bs4.attrs link !! "href") as [href|]; [|discriminate].
  change (Ret href ≫= ?k) with (k href) in H. cbv beta in H.
  destruct (negb (Str.truthy href) || Str.startswith "#" href
            || Str.startswith "javascript:" href || Str.startswith "mailto:" href);
    [discriminate|].
  destruct (normalize_url env base href) as [full_url|e]; [|discriminate].
  change (Ret full_url ≫= ?k) with (k full_url) in H. cbv beta in H.
  destruct (get_base_url env full_url) as [full_base|e] eqn:Hb; [|discriminate].
  change (Ret full_base ≫= ?k) with (k full_base) in H. cbv beta in H.
  destruct (String.eqb full_base base) eqn:Heq; [|discriminate].
  injection H as <-. simpl. apply String.eqb_eq in Heq. by subst.
Qed.

Lemma elem_of_sitemap_links lk l :
  lk ∈ sitemap_links l <->
  exists e ls, e ∈ l /\ entry_links e = Some ls /\ lk ∈ ls.
Proof.
  unfold sitemap_links. rewrite list_elem_of_In, in_flat_map. split.
  - intros (e & He & Hlk). exists e.
    destruct (entry_links e) as [ls|] eqn:Hls; simpl in Hlk; [|done].
    exists ls. repeat split; by apply list_elem_of_In.
  - intros (e & ls & He & Hls & Hlk). exists e. rewrite Hls. simpl.
    split; by apply list_elem_of_In.
Qed.

Lemma sitemap_links_alter lk' lk idx l :
  lk' ∈ sitemap_links (alter (add_link lk) idx l) ->
  lk' = lk \/ lk' ∈ sitemap_links l.
Proof.
  revert idx. induction l as [|e l IH]; intros idx H; [by right|].
  unfold sitemap_links in *. destruct idx as [|idx]; simpl in H.
  - apply elem_of_app in H as [H|H].
    + destruct e as [u t ls|u err]; simpl in H.
      * apply elem_of_app in H as [H|H].
        -- right. simpl. apply elem_of_app. by left.
        -- left. by apply list_elem_of_singleton in H.
      * inversion H.
    + right. simpl. apply elem_of_app. by right.
  - apply elem_of_app in H as [H|H].
    + right. simpl. apply elem_of_app. by left.
    + destruct (IH idx H) as [->|H']; [by left|].
      right. simpl. apply elem_of_app. by right.
Qed.

Lemma sitemap_links_snoc lk l e :
  lk ∈ sitemap_links (l ++ [e]) ->
  lk ∈ sitemap_links l \/ exists ls, entry_links e = Some ls /\ lk ∈ ls.
Proof.
  unfold sitemap_links. rewrite flat_map_app. intros H.
  apply elem_of_app in H as [H|H]; [by left|]. right. simpl in H.
  rewrite app_nil_r in H. destruct (entry_links e) as [ls|]; [eauto|inversion H].
Qed.

Lemma crawl_on_origin env base max_depth fuel u d st st' :
  crawl env base max_depth fuel u d st = Some st' ->
  get_base_url env u = Ret base ->
  on_origin env base st -> on_origin env base st'.
Proof.
  intros H Hu.
  revert fuel u d st st' H Hu.
  apply (crawl_calls env base max_depth
           (fun u _ => get_base_url env u = Ret base)
           (fun a b => on_origin env base a -> on_origin env base b)).
  - auto.
  - auto.
  - intros u d response link lk _ _ _ _ Ht. by eapply link_target_same_origin.
  - intros u d st e _ Hu He (Hl & Hs & Hf). split; [|split]; simpl.
    + intros lk Hlk. apply sitemap_links_snoc in Hlk as [Hlk|(ls & Hls & Hlk)];
        [auto|].
      destruct He as [(msg & ->)|(t & ->)]; simpl in Hls; [done|].
      injection Hls as <-. inversion Hlk.
    + intros e' He'. apply elem_of_app in He' as [He'|He']; [auto|].
      apply list_elem_of_singleton in He' as ->.
      by destruct He as [(msg & ->)|(t & ->)].
    + intros x Hx. apply elem_of_app in Hx as [Hx|Hx]; [auto|].
      by apply list_elem_of_singleton in Hx as ->.
  - intros link lk idx st Ht (Hl & Hs & Hf). split; [|split]; simpl.
    + intros lk' Hlk. apply sitemap_links_alter in Hlk as [->|Hlk]; [|auto].
      by eapply link_target_same_origin.
    + intros e He. apply list_elem_of_lookup in He as (i & Hi).
      rewrite list_lookup_alter in Hi. case_decide.
      * destruct (cs_sitemap st !! idx) as [e0|] eqn:H0; simpl in Hi; [|done].
        injection Hi as <-. rewrite entry_url_add_link. apply Hs.
        apply list_elem_of_lookup. eauto.
      * apply Hs. apply list_elem_of_lookup. eauto.
    + exact Hf.
  - intros u msg st Hu _ (Hl & Hs & Hf). split; [|split]; simpl.
    + intros lk Hlk. apply sitemap_links_snoc in Hlk as [Hlk|(ls & Hls & Hlk)];
        [auto|done].
    + intros e' He'. apply elem_of_app in He' as [He'|He']; [auto|].
      apply list_elem_of_singleton in He' as ->. simpl. auto.
    + exact Hf.
Qed.

(** X4.  Every page that [create_site_map] reports, and every link that it
    records, has the base URL of the seed as its own base URL: a
    cross-origin link is neither recorded nor followed. *)
Theorem sitemap_stays_on_origin env fuel url max_depth sm :
  create_site_map env fuel url max_depth = Some (Ret sm) ->
  get_base_url env url = Ret (base_url sm)
  /\ (forall e, e ∈ sitemap sm ->
        get_base_url env (entry_url e) = Ret (base_url sm))
  /\ (forall lk, lk ∈ sitemap_links (sitemap sm) ->
        get_base_url env (link_url lk) = Ret (base_url sm)).
Proof.
  unfold create_site_map.
  destruct (get_base_url env url) as [base|e] eqn:Hb; [|discriminate].
  destruct (crawl env base max_depth fuel url 1 (mkCrawlState ∅ [] []))
    as [st'|] eqn:Hc; [|discriminate].
  intros [= <-]. simpl. split; [done|].
  apply crawl_on_origin in Hc as (Hl & Hs & _); [auto|done|].
  split; [|split]; simpl; intros x Hx; inversion Hx.
Qed.

Lemma sitemap_stays_on_origin_witness :
  get_base_url Example.env "http://example.com/b" = Ret "http://example.com".
Proof.
  apply (proj2 (proj2 (sitemap_stays_on_origin Example.env 3 Example.home 3
    (mkSiteMap "http://example.com" 5
          [PageInfo "http://example.com/" "Home"
             [mkLink "http://example.com/a" "A";
              mkLink "http://example.com/b" "B";
              mkLink "http://example.com/c" "C"];
           PageInfo "http://example.com/a" "A"
             [mkLink "http://example.com/b" "B";
              mkLink "http://example.com/b" "No text";
              mkLink "http://example.com/" "Home"];
           PageInfo "http://example.com/b" "B" [];
           PageInfo "http://example.com/c" "No title" [];
           ErrorEntry "http://example.com/c" "Invalid IPv6 URL"])
    ltac:(vm_compute; reflexivity)))
    (mkLink "http://example.com/b" "No text")).
  simpl. repeat constructor.
Defined.

(** ** What is fetched is what is reported *)

Lemma crawl_reported env base max_depth fuel u d st st' :
  crawl env base max_depth fuel u d st = Some st' ->
  reported st -> reported st'.
Proof.
  intros H.
  refine (crawl_calls env base max_depth (fun _ _ => True)
            (fun a b => reported a -> reported b) _ _ _ _ _ _
            fuel u d st st' H I); clear.
  - auto.
  - auto.
  - done.
  - intros u d st e _ _ He Hr x. destruct (Hr x) as [Hf Hs]. simpl.
    assert (Hu : entry_url e = u) by (by destruct He as [(msg & ->)|(t & ->)]).
    rewrite fmap_app, !elem_of_app, elem_of_union, elem_of_singleton. simpl.
    rewrite !list_elem_of_singleton, Hu, Hf, Hs. split; tauto.
  - intros link lk idx st _ Hr x. destruct (Hr x) as [Hf Hs].
    rewrite entry_urls_links_append. simpl. done.
  - intros u msg st Hu Hin Hr x. destruct (Hr x) as [Hf Hs]. simpl.
    split; [done|]. rewrite fmap_app, elem_of_app. simpl.
    rewrite list_elem_of_singleton. split.
    + intros [Hx| ->]; [by apply Hs|]. by apply (Hr u).
    + intros Hx. left. by apply Hs.
Qed.

(** X5.  Within one call of [create_site_map], the URLs given to [fetch_url],
    the URLs in the visited set and the URLs of the entries of the sitemap
    are the same: every URL that is marked visited is fetched, and every
    fetch, failed or not, has an entry. *)
Theorem every_fetch_is_reported env base max_depth fuel url st' :
  crawl env base max_depth fuel url 1 (mkCrawlState ∅ [] []) = Some st' ->
  forall x, (x ∈ cs_fetched st' <-> x ∈ cs_visited st')
            /\ (x ∈ entry_url <$> cs_sitemap st' <-> x ∈ cs_fetched st').
Proof.
  intros H x. apply crawl_reported in H.
  - destruct (H x) as [Hf Hs]. split; [done|]. by rewrite Hs, Hf.
  - intros y. simpl. split; split; intros Hy; inversion Hy.
Qed.

(** ** The depth bound *)

Lemma reach_depth env base seed d u : reach env base seed d u -> (1 <= d)%Z.
Proof. induction 1; lia. Qed.

Lemma crawl_within_depth env base max_depth seed fuel u d st st' :
  crawl env base max_depth fuel u d st = Some st' ->
  reach env base seed d u ->
  (forall x, x ∈ cs_fetched st ->
     exists k, (1 <= k <= max_depth)%Z /\ reach env base seed k x) ->
  forall x, x ∈ cs_fetched st' ->
    exists k, (1 <= k <= max_depth)%Z /\ reach env base seed k x.
Proof.
  intros H Hr. revert fuel u d st st' H Hr.
  apply (crawl_calls env base max_depth
           (fun u d => reach env base seed d u)
           (fun a b =>
              (forall x, x ∈ cs_fetched a ->
                 exists k, (1 <= k <= max_depth)%Z /\ reach env base seed k x) ->
              forall x, x ∈ cs_fetched b ->
                exists k, (1 <= k <= max_depth)%Z /\ reach env base seed k x)).
  - auto.
  - auto.
  - intros u d response link lk Hr _ Hf Hl Ht. by eapply reach_link.
  - intros u d st e Hcut Hr _ Hst x Hx. simpl in Hx.
    apply elem_of_app in Hx as [Hx|Hx]; [auto|].
    apply list_elem_of_singleton in Hx as ->. exists d. split; [|done].
    split; [by eapply reach_depth|].
    unfold cut in Hcut. apply orb_false_iff in Hcut as [Hc _].
    apply bool_decide_eq_false in Hc. lia.
  - intros link lk idx st _ Hst. exact Hst.
  - intros u msg st _ _ Hst. exact Hst.
Qed.

(** Every URL that a call of [create_site_map] fetches is reached from the
    seed through links recorded on pages that were read, and at a depth of
    at most [max_depth], the seed being at depth 1: no page further than
    [max_depth - 1] links from the seed is fetched. *)
Lemma fetches_within_depth env base max_depth fuel url st' :
  crawl env base max_depth fuel url 1 (mkCrawlState ∅ [] []) = Some st' ->
  forall x, x ∈ cs_fetched st' ->
    exists d, (1 <= d <= max_depth)%Z /\ reach env base url d x.
Proof.
  intros H. eapply crawl_within_depth; [exact H | apply reach_seed |].
  intros x Hx. inversion Hx.
Qed.

(** X6.  Every entry of the sitemap is about a URL that is reached from the
    seed through links recorded on pages that were read, at a depth of at
    least 1 and at most [max_depth], the seed being at depth 1: no page
    further than [max_depth - 1] links from the seed is reported. *)
Theorem sitemap_within_depth env fuel url max_depth sm :
  create_site_map env fuel url max_depth = Some (Ret sm) ->
  forall e, e ∈ sitemap sm ->
    exists d, (1 <= d <= max_depth)%Z
              /\ reach env (base_url sm) url d (entry_url e).
Proof.
  unfold create_site_map.
  destruct (get_base_url env url) as [base|e0] eqn:Hb; [|discriminate].
  destruct (crawl env base max_depth fuel url 1 (mkCrawlState ∅ [] []))
    as [st'|] eqn:Hc; [|discriminate].
  intros [= <-] e He. simpl in *.
  apply (fetches_within_depth env base max_depth fuel url st' Hc).
  assert (Hrep : reported st').
  { apply (crawl_reported _ _ _ _ _ _ _ _ Hc).
    intros y. simpl. split; split; intros Hy; inversion Hy. }
  destruct (Hrep (entry_url e)) as [Hf Hs]. apply Hf, Hs.
  apply list_elem_of_fmap. eauto.
Qed.

Lemma sitemap_within_depth_witness :
  exists d, (1 <= d <= 2)%Z
            /\ reach Example.env "http://example.com" Example.home d
                 "http://example.com/c".
Proof.
  apply (sitemap_within_depth Example.env 2 Example.home 2
    (mkSiteMap "http://example.com" 4
       [PageInfo "http://example.com/" "Home"
          [mkLink "http://example.com/a" "A"; mkLink "http://example.com/b" "B";
           mkLink "http://example.com/c" "C"];
        PageInfo "http://example.com/a" "A" [];
        PageInfo "http://example.com/b" "B" [];
        PageInfo "http://example.com/c" "No title" []])
    ltac:(vm_compute; reflexivity)
    (PageInfo "http://example.com/c" "No title" [])).
  repeat constructor.
Defined.

Lemma every_fetch_is_reported_witness :
  exists st',
    crawl Example.env "http://example.com" 3 3 Example.home 1
      (mkCrawlState ∅ [] []) = Some st'
    /\ ("http://example.com/c" ∈ cs_fetched st'
        <-> "http://example.com/c" ∈ cs_visited st')
    /\ ("http://example.com/c" ∈ entry_url <$> cs_sitemap st'
        <-> "http://example.com/c" ∈ cs_fetched st').
Proof.
  destruct (crawl Example.env "http://example.com" 3 3 Example.home 1
              (mkCrawlState ∅ [] [])) as [st'|] eqn:Hc;
    [|vm_compute in Hc; discriminate].
  exists st'. split; [reflexivity|].
  exact (every_fetch_is_reported Example.env "http://example.com" 3 3
           Example.home st' Hc "http://example.com/c").
Defined.

(** ** The seed *)



(** ** Witnesses of the counts per URL *)

Lemma crawl_fetches_once_witness :
  exists st',
    crawl Example.env "http://example.com" 3 3 Example.home 1
      (mkCrawlState ∅ [] []) = Some st'
    /\ NoDup (cs_fetched st').
Proof.
  destruct (crawl Example.env "http://example.com" 3 3 Example.home 1
              (mkCrawlState ∅ [] [])) as [st'|] eqn:Hc;
    [|vm_compute in Hc; discriminate].
  exists st'. split; [reflexivity|].
  exact (crawl_fetches_once Example.env "http://example.com" 3 3
           Example.home st' Hc).
Defined.

Lemma sitemap_entries_per_url_witness :
  NoDup ["http://example.com/"; "http://example.com/a"; "http://example.com/b";
         "http://example.com/c"]
  /\ NoDup ["http://example.com/c"].
Proof.
  pose proof (sitemap_entries_per_url Example.env 3 Example.home 3
    (mkSiteMap "http://example.com" 5
          [PageInfo "http://example.com/" "Home"
             [mkLink "http://example.com/a" "A";
              mkLink "http://example.com/b" "B";
              mkLink "http://example.com/c" "C"];
           PageInfo "http://example.com/a" "A"
             [mkLink "http://example.com/b" "B";
              mkLink "http://example.com/b" "No text";
              mkLink "http://example.com/" "Home"];
           PageInfo "http://example.com/b" "B" [];
           PageInfo "http://example.com/c" "No title" [];
           ErrorEntry "http://example.com/c" "Invalid IPv6 URL"])
    ltac:(vm_compute; reflexivity)) as (_ & Hp & He & _).
  split; [exact Hp | exact He].
Defined.

(** ** The images, the fonts and the references of a page *)

Lemma length_split c s : length (Str.split c s) = S (count_char c s).
Proof.
  induction s as [|a s IH]; simpl; [done|].
  destruct (Str.eqc a c); simpl; [by rewrite IH|].
  destruct (Str.split c s); simpl in *; [done | done].
Qed.

Lemma length_srcset_item_refs item : length (srcset_item_refs item) = 1.
Proof.
  unfold srcset_item_refs.
  pose proof (length_split " " (Str.strip item)) as H.
  by destruct (Str.split " " (Str.strip item)).
Qed.

Lemma length_flat_map {A B} (f : A -> list B) l :
  length (flat_map f l) = sum_list ((fun x => length (f x)) <$> l).
Proof.
  induction l as [|x l IH]; simpl; [done|].
  by rewrite length_app, IH.
Qed.

Lemma length_flat_map_const {A B} (f : A -> list B) n l :
  (forall x, length (f x) = n) -> length (flat_map f l) = n * length l.
Proof.
  intros Hf. induction l as [|x l IH]; simpl; [lia|].
  rewrite length_app, Hf, IH. lia.
Qed.

Lemma length_img_refs img : length (img_refs img) = img_candidates img.
Proof.
  unfold img_refs, img_candidates, attr_refs. rewrite length_app. f_equal.
  - by destruct (bs4.attrs img !! "src").
  - destruct (bs4.attrs img !! "srcset") as [srcset|]; [|done].
    rewrite (length_flat_map_const _ 1) by apply length_srcset_item_refs.
    rewrite length_split. lia.
Qed.

(** X7.  The number of images that [extract_assets] returns: for every
    [img] tag one for its [src] and, when it has a [srcset], one for each
    item between commas, the empty items counted (one more than the commas
    of the attribute); and one for every [url(...)] of every [style]
    attribute.  Nothing is merged and nothing is dropped. *)
Theorem images_count env url html_content d :
  let soup := BeautifulSoup env html_content in
  extract_assets env url html_content = Ret d ->
  exists urls,
    d !! "images" = Some urls
    /\ length urls =
       sum_list (img_candidates <$> bs4.find_all ["img"] [] soup)
       + sum_list ((fun tag => length (style_refs tag))
                     <$> bs4.find_all [] [("style", bs4.AttrTrue)] soup).
Proof.
  intros soup H.
  destruct (discovered_lookup env url html_content d "images" H)
    as (base & urls & _ & Hm & Hd).
  { unfold asset_keys. set_solver. }
  exists urls. split; [done|].
  rewrite (map_res_length _ _ _ Hm).
  change (discovered "images" (BeautifulSoup env html_content))
    with (images_refs soup).
  unfold images_refs. rewrite length_app, !length_flat_map. f_equal.
  f_equal. apply list_fmap_ext. intros _ img _. apply length_img_refs.
Qed.

Lemma images_count_witness :
  exists d urls,
    extract_assets Gallery.env Example.home Gallery.html = Ret d
    /\ d !! "images" = Some urls /\ length urls = 5.
Proof.
  destruct (extract_assets Gallery.env Example.home Gallery.html)
    as [d|e] eqn:Hd; [|vm_compute in Hd; discriminate].
  exists d.
  destruct (images_count Gallery.env Example.home Gallery.html d Hd)
    as (urls & Hl & Hlen).
  exists urls. split; [reflexivity|]. split; [exact Hl|].
  rewrite Hlen. vm_compute. reflexivity.
Defined.

Lemma elem_of_flat_map {A B} (f : A -> list B) l y :
  y ∈ flat_map f l <-> exists x, x ∈ l /\ y ∈ f x.
Proof.
  rewrite list_elem_of_In, in_flat_map.
  split; intros (x & Hx & Hy); exists x; by rewrite ?list_elem_of_In in *.
Qed.

Lemma elem_of_font_refs link href :
  href ∈ font_refs link <->
  bs4.attrs link !! "href" = Some href /\ bs4.attrs link !! "as" = Some "font".
Proof.
  unfold font_refs.
  destruct (bs4.attrs link !! "href") as [h|], (bs4.attrs link !! "as") as [a|];
    try (split; [intros H; inversion H | intros [? ?]; discriminate]).
  destruct (String.eqb a "font") eqn:Ha.
  - apply String.eqb_eq in Ha as ->. rewrite list_elem_of_singleton.
    split; [by intros -> | intros [[= ->] _]; done].
  - apply String.eqb_neq in Ha.
    split; [intros H; inversion H | intros [_ [= ->]]; done].
Qed.

(** X8.  The fonts that [extract_assets] returns are the resolved [href]
    attributes of the [link] tags with [rel] preload whose [as] attribute
    is exactly [font], and all of them: the name of the file has no part
    in it. *)
Theorem fonts_from_preload_links env url html_content d :
  let soup := BeautifulSoup env html_content in
  extract_assets env url html_content = Ret d ->
  exists base fonts,
    get_base_url env url = Ret base
    /\ d !! "fonts" = Some fonts
    /\ forall u,
         u ∈ fonts <->
         exists link href,
           link ∈ bs4.find_all ["link"] [("rel", bs4.AttrIs "preload")] soup
           /\ bs4.attrs link !! "href" = Some href
           /\ bs4.attrs link !! "as" = Some "font"
           /\ normalize_url env base href = Ret u.
Proof.
  intros soup H.
  destruct (discovered_lookup env url html_content d "fonts" H)
    as (base & urls & Hb & Hm & Hd).
  { unfold asset_keys. set_solver. }
  exists base, urls. split; [done|]. split; [done|]. intros u.
  rewrite (map_res_elem _ _ _ u Hm).
  change (discovered "fonts" (BeautifulSoup env html_content))
    with (fonts_refs soup).
  unfold fonts_refs. split.
  - intros (href & Hin & Hn). apply elem_of_flat_map in Hin as (link & Hl & Hr).
    apply elem_of_font_refs in Hr as [Hh Ha]. by exists link, href.
  - intros (link & href & Hl & Hh & Ha & Hn). exists href. split; [|done].
    apply elem_of_flat_map. exists link. split; [done|].
    by apply elem_of_font_refs.
Qed.

Lemma fonts_from_preload_links_witness :
  exists d,
    extract_assets Gallery.env Example.home Gallery.html = Ret d
    /\ d !! "fonts" = Some ["http://example.com/f.woff2"].
Proof.
  destruct (extract_assets Gallery.env Example.home Gallery.html)
    as [d|e] eqn:Hd; [|vm_compute in Hd; discriminate].
  exists d. split; [reflexivity|].
  destruct (fonts_from_preload_links Gallery.env Example.home Gallery.html d Hd)
    as (base & fonts & _ & Hl & _).
  rewrite Hl. vm_compute in Hd. injection Hd as <-. vm_compute in Hl.
  injection Hl as <-. reflexivity.
Defined.

Lemma map_res_id {A} (f : A -> Res A) l :
  (forall x, x ∈ l -> f x = Ret x) -> map_res f l = Ret l.
Proof.
  induction l as [|x l IH]; intros H; simpl; [done|].
  rewrite (H x) by left. simpl. rewrite IH; [done|].
  intros y Hy. apply H. by right.
Qed.

(** X9.  When every reference of a category has a network location of its
    own, that is [is_absolute_url] holds of it, [extract_assets] returns
    the references of the category as they are written in the markup, in
    order; a reference that starts with two slashes is among them and
    stays without a scheme. *)
Theorem absolute_references_kept_as_written env url html_content d key :
  let soup := BeautifulSoup env html_content in
  extract_assets env url html_content = Ret d ->
  key ∈ asset_keys ->
  (forall ref, ref ∈ discovered key soup -> is_absolute_url env ref = Ret true) ->
  d !! key = Some (discovered key soup).
Proof.
  intros soup H Hkey Habs.
  destruct (discovered_lookup env url html_content d key H Hkey)
    as (base & urls & Hb & Hm & Hd).
  rewrite Hd. f_equal.
  rewrite map_res_id in Hm; [by injection Hm|].
  intros ref Hr. unfold normalize_url. by rewrite (Habs ref Hr).
Qed.

Lemma absolute_references_kept_as_written_witness :
  exists d,
    extract_assets Gallery.env Example.home Gallery.html = Ret d
    /\ d !! "javascript"
       = Some ["//cdn.example.org/lib.js"; "https://cdn.example.org/app.js"].
Proof.
  destruct (extract_assets Gallery.env Example.home Gallery.html)
    as [d|e] eqn:Hd; [|vm_compute in Hd; discriminate].
  exists d. split; [reflexivity|].
  apply (absolute_references_kept_as_written
           Gallery.env Example.home Gallery.html d "javascript" Hd).
  - vm_compute. reflexivity.
  - intros ref Hr.
    assert (Hl : discovered "javascript" (BeautifulSoup Gallery.env Gallery.html)
                 = ["//cdn.example.org/lib.js"; "https://cdn.example.org/app.js"])
      by (vm_compute; reflexivity).
    rewrite Hl in Hr.
    repeat (apply elem_of_cons in Hr as [-> | Hr]);
      [vm_compute; reflexivity .. | inversion Hr].
Defined.

Lemma normalize_url_empty env base : normalize_url env base "" = Ret base.
Proof.
  unfold normalize_url, is_absolute_url, urlparse, urljoin.
  destruct base; reflexivity.
Qed.

Lemma split_empty c : Str.split c "" = [""].
Proof. reflexivity. Qed.

(** X10.  An item of a [srcset] that is empty or white space, as after a
    trailing comma, is resolved like the empty reference: the base URL of
    the page itself is among the images. *)
Theorem empty_srcset_item_gives_base env url html_content d img srcset item :
  let soup := BeautifulSoup env html_content in
  extract_assets env url html_content = Ret d ->
  img ∈ bs4.find_all ["img"] [] soup ->
  bs4.attrs img !! "srcset" = Some srcset ->
  item ∈ Str.split "," srcset ->
  Str.strip item = "" ->
  exists base urls,
    get_base_url env url = Ret base /\ d !! "images" = Some urls /\ base ∈ urls.
Proof.
  intros soup H Himg Hs Hitem Hstrip.
  destruct (discovered_lookup env url html_content d "images" H)
    as (base & urls & Hb & Hm & Hd).
  { unfold asset_keys. set_solver. }
  exists base, urls. split; [done|]. split; [done|].
  apply (map_res_elem _ _ _ base Hm). exists "". split.
  - change (discovered "images" (BeautifulSoup env html_content))
      with (images_refs soup).
    unfold images_refs. apply elem_of_app. left.
    apply elem_of_flat_map. exists img. split; [done|].
    unfold img_refs. rewrite Hs. apply elem_of_app. right.
    apply elem_of_flat_map. exists item. split; [done|].
    unfold srcset_item_refs. rewrite Hstrip. simpl. by left.
  - apply normalize_url_empty.
Qed.

Lemma empty_srcset_item_gives_base_witness :
  exists d urls,
    extract_assets Gallery.env Example.home Gallery.html = Ret d
    /\ d !! "images" = Some urls /\ "http://example.com" ∈ urls.
Proof.
  destruct (extract_assets Gallery.env Example.home Gallery.html)
    as [d|e] eqn:Hd; [|vm_compute in Hd; discriminate].
  exists d.
  destruct (empty_srcset_item_gives_base Gallery.env Example.home Gallery.html d
              (bs4.Tag "img" (<["src" := "a.png"]>
                                (<["srcset" := "a.png 1x, b.png 2x,"]> ∅)) [])
              "a.png 1x, b.png 2x," "" Hd)
    as (base & urls & Hb & Hl & Hin).
  - vm_compute. repeat constructor.
  - vm_compute. reflexivity.
  - vm_compute. repeat constructor.
  - reflexivity.
  - exists urls. split; [reflexivity|]. split; [exact Hl|].
    vm_compute in Hb. injection Hb as <-. exact Hin.
Defined.

(** ** The two lists of a stylesheet *)

Section CssMore.

Variable env : Env.

(** X11.  The two lists that [parse_css_for_assets] returns for a given
    stylesheet text, with no error: every reference of the text is resolved
    and is in one of the lists; the images are the resolved references in
    which no font marker occurs; the fonts are those in which one occurs
    and the resolved references of the [@font-face] blocks. *)
Theorem parse_css_lists css_url css r :
  parse_css_for_assets env css_url (Some css) = Ret r ->
  css_error r = None
  /\ exists base,
       get_base_url env css_url = Ret base
       /\ (forall ref, ref ∈ Re.findall_url css ->
             exists u, normalize_url env base ref = Ret u
                       /\ (u ∈ fonts r \/ u ∈ images r))
       /\ (forall u,
             u ∈ images r <->
             exists ref, ref ∈ Re.findall_url css
                         /\ normalize_url env base ref = Ret u
                         /\ is_font_url u = false)
       /\ (forall u,
             u ∈ fonts r <->
             (exists ref, ref ∈ Re.findall_url css
                          /\ normalize_url env base ref = Ret u
                          /\ is_font_url u = true)
             \/ (exists block ref,
                   block ∈ Re.findall_font_face css
                   /\ ref ∈ Re.findall_url block
                   /\ normalize_url env base ref = Ret u)).
Proof.
  intros H. pose proof (parse_css_spec env css_url css) as Hs.
  rewrite H in Hs. destruct Hs as (base & resolved & face & Hb & Hr & Hf & ->).
  split; [done|]. exists base. split; [done|]. simpl.
  assert (Himg : forall u,
            u ∈ list_of_set (List.filter (fun u => negb (is_font_url u)) resolved)
            <-> exists ref, ref ∈ Re.findall_url css
                            /\ normalize_url env base ref = Ret u
                            /\ is_font_url u = false).
  { intros u. rewrite elem_of_list_of_set, elem_of_List_filter,
      (map_res_elem _ _ _ u Hr), negb_true_iff.
    split; [intros [(ref & ? & ?) ?] | intros (ref & ? & ? & ?)]; eauto. }
  assert (Hfont : forall u,
            u ∈ list_of_set (List.filter is_font_url resolved ++ face)
            <-> (exists ref, ref ∈ Re.findall_url css
                             /\ normalize_url env base ref = Ret u
                             /\ is_font_url u = true)
                \/ (exists block ref,
                      block ∈ Re.findall_font_face css
                      /\ ref ∈ Re.findall_url block
                      /\ normalize_url env base ref = Ret u)).
  { intros u. rewrite elem_of_list_of_set, elem_of_app, elem_of_List_filter,
      (map_res_elem _ _ _ u Hr), (map_res_elem _ _ _ u Hf).
    split.
    - intros [[(ref & ? & ?) ?] | (ref & Hin & ?)]; [left; eauto|].
      apply elem_of_flat_map in Hin as (block & ? & ?). right; eauto.
    - intros [(ref & ? & ? & ?) | (block & ref & ? & ? & ?)]; [left; eauto|].
      right. exists ref. split; [|done]. apply elem_of_flat_map; eauto. }
  split; [|split; [exact Himg | exact Hfont]].
  intros ref Hin. destruct (map_res_Ret_all _ _ _ _ Hr Hin) as (u & Hu & _).
  exists u. split; [done|].
  destruct (is_font_url u) eqn:E.
  - left. apply Hfont. left. eauto.
  - right. apply Himg. eauto.
Qed.

End CssMore.

Lemma parse_css_lists_witness :
  exists r,
    parse_css_for_assets Example.env "http://example.com/style.css"
      (Some "@font-face{src:url(x.png)} url(a.ttf.png) url(b.png)") = Ret r
    /\ css_error r = None
    /\ "http://example.com/x.png" ∈ fonts r
    /\ "http://example.com/x.png" ∈ images r.
Proof.
  destruct (parse_css_for_assets Example.env "http://example.com/style.css"
              (Some "@font-face{src:url(x.png)} url(a.ttf.png) url(b.png)"))
    as [r|e] eqn:Hr; [|vm_compute in Hr; discriminate].
  exists r. split; [reflexivity|].
  destruct (parse_css_lists Example.env _ _ r Hr)
    as (He & base & Hb & _ & Himg & Hfont).
  vm_compute in Hb. injection Hb as <-.
  split; [exact He|]. split.
  - apply Hfont. right.
    exists "@font-face{src:url(x.png)}", "x.png".
    split; [vm_compute; repeat constructor|].
    split; [vm_compute; repeat constructor|]. vm_compute. reflexivity.
  - apply Himg. exists "x.png".
    split; [vm_compute; repeat constructor|].
    split; vm_compute; reflexivity.
Defined.

(** ** The references that the pattern takes *)

Lemma lazy_group_chars s g n c :
  Re.lazy_group s = Some (g, n) ->
  Str.has_char c g = true ->
  Str.eqc c ")"%char = false /\ Str.eqc c Re.newline = false.
Proof.
  revert g n. induction s as [|a s IH]; intros g n H Hc;
    cbn [Re.lazy_group] in H; [done|].
  destruct (Re.is_quote a && Str.startswith ")" s).
  { injection H as <- <-. done. }
  destruct (Str.eqc a ")"%char) eqn:E1.
  { injection H as <- <-. done. }
  destruct (Str.eqc a Re.newline) eqn:E2; [done|].
  destruct (Re.lazy_group s) as [[g' n']|] eqn:E; [|done].
  injection H as <- <-. simpl in Hc.
  apply orb_true_iff in Hc as [Hc|Hc]; [|by eapply IH].
  apply Ascii.eqb_eq in Hc as ->. done.
Qed.

Lemma match_url_chars s g n c :
  Re.match_url s = Some (g, n) ->
  Str.has_char c g = true ->
  Str.eqc c ")"%char = false /\ Str.eqc c Re.newline = false.
Proof.
  unfold Re.match_url. destruct (Str.startswith "url(" s); [|done].
  intros H Hc.
  destruct (Str.drop 4 s) as [|q r] eqn:Hd.
  - simpl in H. done.
  - destruct (Re.is_quote q).
    + destruct (Re.lazy_group r) as [[g1 n1]|] eqn:E1.
      * injection H as <- <-. by eapply lazy_group_chars.
      * destruct (Re.lazy_group (String q r)) as [[g2 n2]|] eqn:E2; [|done].
        injection H as <- <-. by eapply lazy_group_chars.
    + destruct (Re.lazy_group (String q r)) as [[g2 n2]|] eqn:E2; [|done].
      injection H as <- <-. by eapply lazy_group_chars.
Qed.

(** X12.  A reference that the pattern of the program takes from a
    [url(...)] has no closing parenthesis and no line feed in it: it is cut
    at the first closing parenthesis. *)
Theorem reference_stops_at_parenthesis s ref :
  ref ∈ Re.findall_url s ->
  Str.has_char ")" ref = false /\ Str.has_char Re.newline ref = false.
Proof.
  unfold Re.findall_url. generalize 0 as skip. intros skip H.
  assert (Hc : forall c, Str.has_char c ref = true ->
            Str.eqc c ")"%char = false /\ Str.eqc c Re.newline = false).
  { revert skip H. induction s as [|a s IH]; intros skip H; simpl in H.
    - inversion H.
    - destruct skip as [|k]; [|by eapply IH].
      destruct (Re.match_url (String a s)) as [[g n]|] eqn:E; [|by eapply IH].
      apply elem_of_cons in H as [-> | H]; [|by eapply IH].
      intros c Hc. by eapply match_url_chars. }
  split.
  - destruct (Str.has_char ")" ref) eqn:E; [|done].
    by destruct (Hc _ E) as [? _].
  - destruct (Str.has_char Re.newline ref) eqn:E; [|done].
    by destruct (Hc _ E) as [_ ?].
Qed.

Lemma reference_stops_at_parenthesis_witness :
  Re.findall_url "a{background:url(img/a(1).png)}" = ["img/a(1"]
  /\ Str.has_char ")" "img/a(1" = false
  /\ Str.has_char Re.newline "img/a(1" = false.
Proof.
  split; [vm_compute; reflexivity|].
  apply (reference_stops_at_parenthesis "a{background:url(img/a(1).png)}").
  vm_compute. repeat constructor.
Defined.

(** ** The structure of a page *)

Section Structure.

Variable env : Env.


















End Structure.

(** ** download_asset: texts *)

Lemma append_cons c a b : String c a +:+ b = String c (a +:+ b).
Proof. reflexivity. Qed.

Lemma append_inv_head a x y : a +:+ x = a +:+ y -> x = y.
Proof. apply String.app_inj. Qed.

Lemma length_append a b :
  String.length (a +:+ b) = String.length a + String.length b.
Proof.
  induction a as [|c a IH]; [done|]. rewrite append_cons. simpl. by rewrite IH.
Qed.

Lemma append_inv_tail x y s : x +:+ s = y +:+ s -> x = y.
Proof.
  revert y. induction x as [|c x IH]; intros [|d y] H.
  - done.
  - apply (f_equal String.length) in H.
    rewrite !length_append in H. simpl in H. lia.
  - apply (f_equal String.length) in H.
    rewrite !length_append in H. simpl in H. lia.
  - rewrite !append_cons in H. injection H as -> H. f_equal. auto.
Qed.

Lemma append_assoc a b c : (a +:+ b) +:+ c = a +:+ (b +:+ c).
Proof.
  induction a as [|x a IH]; [done|]. rewrite !append_cons. by rewrite IH.
Qed.

Lemma append_empty_r a : a +:+ "" = a.
Proof.
  induction a as [|x a IH]; [done|]. rewrite append_cons. by rewrite IH.
Qed.

Lemma has_char_append c a b :
  Str.has_char c (a +:+ b) = Str.has_char c a || Str.has_char c b.
Proof.
  induction a as [|x a IH]; [done|]. rewrite append_cons. simpl.
  by rewrite IH, orb_assoc.
Qed.
Lemma has_char_take c n s :
  Str.has_char c s = false -> Str.has_char c (Str.take n s) = false.
Proof.
  revert n. induction s as [|x s IH]; intros [|n] H; simpl in *; try done.
  apply orb_false_iff in H as [-> H]. simpl. auto.
Qed.

Lemma has_char_drop c n s :
  Str.has_char c s = false -> Str.has_char c (Str.drop n s) = false.
Proof.
  revert n. induction s as [|x s IH]; intros [|n] H; simpl in *; try done.
  apply orb_false_iff in H as [_ H]. auto.
Qed.

Lemma split_parts_free c s x : x ∈ Str.split c s -> Str.has_char c x = false.
Proof.
  revert x. induction s as [|a s IH]; intros x H; simpl in H.
  - apply list_elem_of_singleton in H as ->. done.
  - destruct (Str.eqc a c) eqn:E.
    + apply elem_of_cons in H as [->|H]; [done | auto].
    + destruct (Str.split c s) as [|h t].
      * apply list_elem_of_singleton in H as ->. simpl. by rewrite E.
      * apply elem_of_cons in H as [->|H].
        -- simpl. rewrite E. simpl. apply IH. by left.
        -- apply IH. by right.
Qed.

Lemma split_free c s : Str.has_char c s = false -> Str.split c s = [s].
Proof.
  induction s as [|a s IH]; simpl; [done|].
  intros H. apply orb_false_iff in H as [-> H]. by rewrite (IH H).
Qed.

Lemma pretty_N_go_free x s :
  Str.has_char "/" s = false -> Str.has_char "/" (pretty_N_go x s) = false.
Proof.
  revert s. induction (N.lt_wf_0 x) as [x _ IH]; intros s Hs.
  destruct (decide (x = 0)%N) as [->|Hx]; [by rewrite pretty_N_go_0|].
  rewrite pretty_N_go_step by lia. apply IH.
  - apply N.div_lt; lia.
  - simpl. rewrite Hs. unfold pretty_N_char. by repeat case_match.
Qed.

Lemma pretty_nat_free (k : nat) : Str.has_char "/" (pretty k) = false.
Proof.
  unfold pretty, pretty_nat, pretty, pretty_N.
  case_decide; [done|]. by apply pretty_N_go_free.
Qed.

Lemma safe_text_free s : Str.has_char "/" (safe_text s) = false.
Proof.
  induction s as [|c s IH]; simpl; [done|]. rewrite IH, orb_false_r.
  destruct (is_word c || Str.eqc c "-"%char || Str.eqc c "."%char) eqn:E; [|done].
  destruct (Str.eqc c "/"%char) eqn:E'; [|done].
  apply Ascii.eqb_eq in E' as ->. done.
Qed.

(** ** download_asset: paths *)

Lemma components_proper rel x : x ∈ pathlib.components rel -> proper x.
Proof.
  unfold pathlib.components. rewrite elem_of_List_filter. intros [Hin Hp].
  apply andb_true_iff in Hp as [Ht Hd]. split; [by eapply split_parts_free|].
  split.
  - intros ->. done.
  - intros ->. done.
Qed.

Lemma Path_names_proper s : Forall proper (pathlib.names (pathlib.Path s)).
Proof.
  unfold pathlib.Path. destruct (pathlib.splitroot s) as [r rel]. simpl.
  apply Forall_forall. intros x. apply components_proper.
Qed.

Lemma eqc_sym a b : Str.eqc a b = Str.eqc b a.
Proof. apply Ascii.eqb_sym. Qed.

Lemma Path_proper x : proper x -> pathlib.Path x = pathlib.mkPurePath "" [x].
Proof.
  intros (Hs & Hne & Hd). unfold pathlib.Path, pathlib.splitroot.
  assert (Hst : Str.startswith "/" x = false).
  { destruct x as [|c x]; [done|]. cbn [Str.startswith Str.has_char] in *.
    apply orb_false_iff in Hs as [Hc _]. by rewrite eqc_sym, Hc. }
  rewrite Hst. unfold pathlib.components. rewrite (split_free _ _ Hs).
  cbn [List.filter].
  assert (Ht : Str.truthy x = true) by by destruct x.
  assert (He : String.eqb x "." = false) by by apply String.eqb_neq.
  by rewrite Ht, He.
Qed.

Lemma joinpath_proper p x :
  proper x ->
  pathlib.joinpath p x = pathlib.mkPurePath (pathlib.root p) (pathlib.names p ++ [x]).
Proof. intros H. unfold pathlib.joinpath. by rewrite (Path_proper x H). Qed.

Lemma joinpath_names_proper p s :
  Forall proper (pathlib.names p) ->
  Forall proper (pathlib.names (pathlib.joinpath p s)).
Proof.
  intros Hp. unfold pathlib.joinpath.
  destruct (Str.truthy (pathlib.root (pathlib.Path s))).
  - apply Path_names_proper.
  - simpl. apply Forall_app. split; [done | apply Path_names_proper].
Qed.

Lemma join_snoc l x :
  l <> [] -> Str.join "/" (l ++ [x]) = Str.join "/" l +:+ "/" +:+ x.
Proof.
  induction l as [|a l IH]; [done|]. intros _.
  destruct l as [|b l]; [done|].
  change (Str.join "/" ((a :: b :: l) ++ [x]))
    with (a +:+ "/" +:+ Str.join "/" ((b :: l) ++ [x])).
  rewrite IH by done.
  change (Str.join "/" (a :: b :: l)) with (a +:+ "/" +:+ Str.join "/" (b :: l)).
  by rewrite !append_assoc.
Qed.

Lemma append_nonempty a x : x <> "" -> a +:+ x <> "".
Proof.
  intros Hx H. apply (f_equal String.length) in H.
  rewrite length_append in H. destruct x; [done|]. simpl in H. lia.
Qed.

Lemma str_names r l :
  r +:+ Str.join "/" l <> "" ->
  pathlib.str (pathlib.mkPurePath r l) = r +:+ Str.join "/" l.
Proof.
  intros H. unfold pathlib.str. cbn [pathlib.root pathlib.names].
  by destruct (r +:+ Str.join "/" l).
Qed.

Lemma dir_prefix_names r l :
  l <> [] ->
  dir_prefix (pathlib.mkPurePath r l) = (r +:+ Str.join "/" l) +:+ "/".
Proof.
  intros H. unfold dir_prefix. cbn [pathlib.root pathlib.names].
  destruct l; [done|]. by rewrite append_assoc.
Qed.

Lemma join_snoc_prefix r l x :
  r +:+ Str.join "/" (l ++ [x]) = dir_prefix (pathlib.mkPurePath r l) +:+ x.
Proof.
  destruct l as [|a l].
  - unfold dir_prefix. cbn [app Str.join pathlib.root pathlib.names].
    by rewrite append_empty_r.
  - rewrite dir_prefix_names by done. rewrite join_snoc by done.
    by rewrite !append_assoc.
Qed.

Lemma str_snoc r l x :
  x <> "" ->
  pathlib.str (pathlib.mkPurePath r (l ++ [x]))
  = dir_prefix (pathlib.mkPurePath r l) +:+ x.
Proof.
  intros Hx. rewrite str_names; [apply join_snoc_prefix|].
  rewrite join_snoc_prefix. by apply append_nonempty.
Qed.

Lemma str_joinpath_proper p x :
  proper x -> pathlib.str (pathlib.joinpath p x) = dir_prefix p +:+ x.
Proof.
  intros H. rewrite (joinpath_proper p x H). destruct H as (_ & Hne & _).
  rewrite (str_snoc _ _ _ Hne). by destruct p.
Qed.

(** The text of a path with names: its last name after the text of the
    path above and a slash. *)
Lemma dir_prefix_joinpath p x :
  proper x ->
  dir_prefix (pathlib.joinpath p x) = pathlib.str (pathlib.joinpath p x) +:+ "/".
Proof.
  intros H. rewrite (joinpath_proper p x H). destruct H as (_ & Hne & _).
  rewrite dir_prefix_names by by destruct (pathlib.names p).
  rewrite str_names; [done|].
  rewrite join_snoc_prefix. by apply append_nonempty.
Qed.

Lemma name_cases p :
  pathlib.name p = "" \/ pathlib.name p ∈ pathlib.names p.
Proof.
  unfold pathlib.name.
  destruct (pathlib.names p) as [|a l _] using rev_ind; [by left|].
  right. rewrite List.last_last. apply elem_of_app. right. by left.
Qed.

Lemma name_free p :
  Forall proper (pathlib.names p) -> Str.has_char "/" (pathlib.name p) = false.
Proof.
  intros Hp. destruct (name_cases p) as [->|Hin]; [done|].
  rewrite Forall_forall in Hp. apply (Hp _ Hin).
Qed.

Lemma name_proper p :
  Forall proper (pathlib.names p) -> pathlib.name p <> "" -> proper (pathlib.name p).
Proof.
  intros Hp Hne. destruct (name_cases p) as [E|Hin]; [done|].
  rewrite Forall_forall in Hp. apply (Hp _ Hin).
Qed.

Lemma subdir_of_proper ct : proper (subdir_of ct).
Proof.
  unfold subdir_of.
  repeat match goal with |- context [if ?b then _ else _] => destruct b end;
    by repeat split.
Qed.

(** ** download_asset: the name of the file and the loop *)

Section DownloadProps.

Variable env : Env.
Variable disk : Disk.

Lemma marked_proper a b :
  Str.has_char "/" a = false -> Str.has_char "/" b = false ->
  proper (a +:+ "_" +:+ b).
Proof.
  intros Ha Hb.
  assert (Hu : Str.has_char "_" (a +:+ "_" +:+ b) = true).
  { rewrite !has_char_append. simpl. by rewrite orb_true_r. }
  split; [|split].
  - rewrite !has_char_append, Ha, Hb. done.
  - intros E. by rewrite E in Hu.
  - intros E. by rewrite E in Hu.
Qed.

Lemma filename_of_proper parsed_url : proper (filename_of parsed_url).
Proof.
  unfold filename_of.
  destruct (negb (Str.truthy (urllib.path parsed_url))
            || ends_with "/" (urllib.path parsed_url)); [by repeat split|].
  pose proof (Path_names_proper (urllib.path parsed_url)) as Hp.
  set (nm := pathlib.name (pathlib.Path (urllib.path parsed_url))) in *.
  assert (Hn : proper (if negb (Str.truthy nm) then "unknown_file" else nm)).
  { destruct (Str.truthy nm) eqn:E; simpl; [|by repeat split].
    apply name_proper; [done|]. fold nm. by destruct nm. }
  destruct (Str.truthy (urllib.query parsed_url)); [|done].
  apply marked_proper; [apply Hn | apply safe_text_free].
Qed.

Lemma numbered_proper orig k :
  Forall proper (pathlib.names orig) -> proper (numbered orig k).
Proof.
  intros Hp. pose proof (name_free orig Hp) as Hn. unfold numbered.
  apply marked_proper.
  - unfold pathlib.stem. destruct (pathlib.suffix_at _); [|done].
    by apply has_char_take.
  - rewrite has_char_append, pretty_nat_free. simpl.
    unfold pathlib.suffix. destruct (pathlib.suffix_at _); [|done].
    by apply has_char_drop.
Qed.

Lemma numbered_inj orig i j : numbered orig i = numbered orig j -> i = j.
Proof.
  unfold numbered. intros H.
  do 2 apply append_inv_head in H. apply append_inv_tail in H.
  by apply (inj pretty) in H.
Qed.

(** The loop from the value [k] of the counter on, the names up to [k]
    being taken: it ends before the names on the disk are used up. *)
Lemma free_path_numbered_total (existing : list string) sp orig :
  Forall proper (pathlib.names orig) ->
  (forall p, path_exists disk p = Done true -> p ∈ existing) ->
  forall fuel k,
    (forall i, 1 <= i < k ->
       path_exists disk (pathlib.str (pathlib.joinpath sp (numbered orig i)))
       = Done true) ->
    length existing + 1 < fuel + k ->
    exists r, free_path disk fuel sp orig
                (pathlib.joinpath sp (numbered orig k)) (S k) = Some r.
Proof.
  intros Hp Hex. induction fuel as [|fuel IH]; intros k Hseen Hlen.
  - exfalso.
    set (f := fun i => pathlib.str (pathlib.joinpath sp (numbered orig i))).
    assert (Hinj : Inj (=) (=) f).
    { intros i j. unfold f.
      rewrite !str_joinpath_proper by by apply numbered_proper.
      intros H. apply append_inv_head in H. by apply numbered_inj in H. }
    assert (Hsub : f <$> seq 1 (k - 1) ⊆+ existing).
    { apply NoDup_submseteq.
      - apply NoDup_fmap_2; [done | apply NoDup_seq].
      - intros x Hx. apply list_elem_of_fmap in Hx as (i & -> & Hi).
        apply elem_of_seq in Hi. apply Hex, Hseen. lia. }
    apply submseteq_length in Hsub. rewrite length_fmap, length_seq in Hsub. lia.
  - cbn [free_path].
    destruct (path_exists disk (pathlib.str (pathlib.joinpath sp (numbered orig k))))
      as [[|]|msg] eqn:E; [|eauto|eauto].
    apply IH; [|lia].
    intros i Hi. destruct (decide (i = k)) as [->|]; [done|]. apply Hseen. lia.
Qed.

Lemma free_path_total (existing : list string) sp orig fp fuel :
  Forall proper (pathlib.names orig) ->
  (forall p, path_exists disk p = Done true -> p ∈ existing) ->
  length existing + 2 <= fuel ->
  exists r, free_path disk fuel sp orig fp 1 = Some r.
Proof.
  intros Hp Hex Hlen. destruct fuel as [|fuel]; [lia|]. cbn [free_path].
  destruct (path_exists disk (pathlib.str fp)) as [[|]|msg]; [|eauto|eauto].
  apply (free_path_numbered_total existing); [done|done| |lia].
  intros i Hi. lia.
Qed.

(** Where the loop ends: at a path that is not on the disk, which is the
    first path or the numbered one with the least number that is free. *)
Lemma free_path_numbered_spec sp orig fuel k p :
  free_path disk fuel sp orig (pathlib.joinpath sp (numbered orig k)) (S k)
  = Some (Done p) ->
  exists j, k <= j /\ p = pathlib.joinpath sp (numbered orig j)
    /\ path_exists disk (pathlib.str p) = Done false
    /\ forall i, k <= i < j ->
         path_exists disk (pathlib.str (pathlib.joinpath sp (numbered orig i)))
         = Done true.
Proof.
  revert k. induction fuel as [|fuel IH]; intros k H; [done|].
  cbn [free_path] in H.
  destruct (path_exists disk (pathlib.str (pathlib.joinpath sp (numbered orig k))))
    as [[|]|msg] eqn:E; [| |done].
  - destruct (IH _ H) as (j & Hj & -> & Hfree & Hall).
    exists j. split; [lia|]. split; [done|]. split; [done|].
    intros i Hi. destruct (decide (i = k)) as [->|]; [done|]. apply Hall. lia.
  - injection H as <-. exists k. split; [lia|]. split; [done|]. split; [done|].
    intros i Hi. lia.
Qed.

Lemma free_path_spec sp orig fuel fp p :
  free_path disk fuel sp orig fp 1 = Some (Done p) ->
  path_exists disk (pathlib.str p) = Done false
  /\ (p = fp
      \/ path_exists disk (pathlib.str fp) = Done true
         /\ exists j, 1 <= j /\ p = pathlib.joinpath sp (numbered orig j)
              /\ forall i, 1 <= i < j ->
                   path_exists disk
                     (pathlib.str (pathlib.joinpath sp (numbered orig i)))
                   = Done true).
Proof.
  destruct fuel as [|fuel]; [done|]. cbn [free_path].
  destruct (path_exists disk (pathlib.str fp)) as [[|]|msg] eqn:E; [| |done].
  - intros H. apply free_path_numbered_spec in H as (j & Hj & -> & Hfree & Hall).
    split; [done|]. right. split; [done|]. eauto.
  - intros [= <-]. split; [done|]. by left.
Qed.

End DownloadProps.

(** ** download_asset: what a call comes to *)

Section DownloadStatements.

Variable env : Env.
Variable disk : Disk.

Lemma file_path_names_proper output_dir subdir filename :
  Forall proper
    (pathlib.names
       (pathlib.joinpath (pathlib.joinpath (pathlib.Path output_dir) subdir)
          filename)).
Proof. do 2 apply joinpath_names_proper. apply Path_names_proper. Qed.

(** X18.  [download_asset] returns: on a disk with finitely many paths the
    loop that looks for a free name ends, whatever fails is reported in
    the dictionary returned, which has the URL of the call; and the first
    thing asked of the disk is the output directory, before the URL is
    looked at. *)
Theorem download_asset_returns (existing : list string) fuel url output_dir :
  (forall p, path_exists disk p = Done true -> p ∈ existing) ->
  length existing + 2 <= fuel ->
  exists r ops,
    download_asset env disk fuel url output_dir = Some (r, ops)
    /\ download_url r = url
    /\ head ops = Some (Mkdir (pathlib.str (pathlib.Path output_dir))).
Proof.
  intros Hex Hlen. unfold download_asset.
  destruct (mkdir disk (pathlib.str (pathlib.Path output_dir))); [|eauto].
  destruct (urlparse env url) as [parsed_url|e]; [|eauto].
  destruct (fetch_url env url None) as [response|e]; [|eauto].
  destruct (mkdir disk _); [|eauto].
  match goal with
  | |- context [free_path disk fuel ?sp ?orig ?fp 1] =>
      destruct (free_path_total disk existing sp orig fp fuel) as [r Hr];
        [apply file_path_names_proper | done | done |]; rewrite Hr
  end.
  destruct r as [file_path|msg]; [|eauto].
  destruct (write_bytes disk _ _); eauto.
Qed.

(** X19.  A download that succeeds writes the body of the response, once,
    to a path that was not on the disk, directly in the directory of the
    content type under the output directory: the name after that
    directory has no slash.  The content type is the header up to its
    first semicolon. *)
Theorem saved_file_is_new fuel url output_dir u saved_to ct size ops :
  download_asset env disk fuel url output_dir = Some (Saved u saved_to ct size, ops) ->
  let dir := pathlib.joinpath (pathlib.Path output_dir) (subdir_of ct) in
  exists response final,
    u = url
    /\ fetch_url env url None = Ret response
    /\ ct = List.hd EmptyString
              (Str.split ";" (default EmptyString (headers response !! "content-type")))
    /\ size = length (content disk response)
    /\ saved_to = pathlib.str dir +:+ "/" +:+ final
    /\ Str.has_char "/" final = false
    /\ final <> ""
    /\ path_exists disk saved_to = Done false
    /\ write_bytes disk saved_to (content disk response) = Done tt
    /\ ops = [Mkdir (pathlib.str (pathlib.Path output_dir));
              Mkdir (pathlib.str dir);
              WriteBytes saved_to (content disk response)].
Proof.
  intros H. cbv zeta. revert H. unfold download_asset.
  destruct (mkdir disk (pathlib.str (pathlib.Path output_dir))); [|done].
  destruct (urlparse env url) as [parsed_url|e]; [|done].
  destruct (fetch_url env url None) as [response|e]; [|done].
  set (ct0 := List.hd EmptyString _).
  set (dir0 := pathlib.joinpath (pathlib.Path output_dir) (subdir_of ct0)).
  destruct (mkdir disk (pathlib.str dir0)); [|done].
  set (orig := pathlib.joinpath dir0 (filename_of parsed_url)).
  destruct (free_path disk fuel dir0 orig orig 1) as [[file_path|msg]|] eqn:Hloop;
    [|done|done].
  destruct (write_bytes disk (pathlib.str file_path) (content disk response))
    as [[]|msg] eqn:Hw; [|done].
  intros [= <- <- <- <- <-]. fold dir0.
  apply free_path_spec in Hloop as [Hfree Hcase].
  assert (Hname : exists final, proper final /\ file_path = pathlib.joinpath dir0 final).
  { destruct Hcase as [-> | (_ & j & _ & -> & _)].
    - exists (filename_of parsed_url). split; [apply filename_of_proper | done].
    - exists (numbered orig j). split; [|done].
      apply numbered_proper, file_path_names_proper. }
  destruct Hname as (final & Hfinal & ->).
  exists response, final. split_and!; try done.
  - rewrite (str_joinpath_proper _ _ Hfinal). unfold dir0.
    rewrite dir_prefix_joinpath by apply subdir_of_proper.
    by rewrite append_assoc.
  - apply Hfinal.
  - apply Hfinal.
Qed.

(** X20.  The name of a saved file is the one computed from the URL when
    that path is free; otherwise it is that name with the least number,
    from 1 on, between stem and suffix for which the path is free. *)
Theorem collision_counter_is_least fuel url output_dir u saved_to ct size ops :
  download_asset env disk fuel url output_dir = Some (Saved u saved_to ct size, ops) ->
  exists parsed_url,
    urlparse env url = Ret parsed_url
    /\ let dir := pathlib.joinpath (pathlib.Path output_dir) (subdir_of ct) in
       let first := pathlib.joinpath dir (filename_of parsed_url) in
       let nth k := pathlib.str (pathlib.joinpath dir (numbered first k)) in
       (saved_to = pathlib.str first
        \/ path_exists disk (pathlib.str first) = Done true
           /\ exists k, 1 <= k /\ saved_to = nth k
                /\ forall i, 1 <= i < k -> path_exists disk (nth i) = Done true).
Proof.
  unfold download_asset.
  destruct (mkdir disk (pathlib.str (pathlib.Path output_dir))); [|done].
  destruct (urlparse env url) as [parsed_url|e]; [|done].
  destruct (fetch_url env url None) as [response|e]; [|done].
  set (ct0 := List.hd EmptyString _).
  set (dir0 := pathlib.joinpath (pathlib.Path output_dir) (subdir_of ct0)).
  destruct (mkdir disk (pathlib.str dir0)); [|done].
  set (orig := pathlib.joinpath dir0 (filename_of parsed_url)).
  destruct (free_path disk fuel dir0 orig orig 1) as [[file_path|msg]|] eqn:Hloop;
    [|done|done].
  destruct (write_bytes disk (pathlib.str file_path) (content disk response))
    as [[]|msg] eqn:Hw; [|done].
  intros [= <- <- <- <- <-]. exists parsed_url. split; [done|].
  fold dir0. fold orig. cbv zeta.
  apply free_path_spec in Hloop as [Hfree [-> | (Hfirst & j & Hj & -> & Hall)]].
  - by left.
  - right. split; [done|]. exists j. done.
Qed.

(** X21.  A download that fails has the URL of the call in its dictionary,
    has asked for the output directory all the same, and has written no
    file, unless the failure is the one of the write itself. *)
Theorem failed_download_writes_nothing fuel url output_dir u error ops :
  download_asset env disk fuel url output_dir = Some (Failed u error, ops) ->
  u = url
  /\ Mkdir (pathlib.str (pathlib.Path output_dir)) ∈ ops
  /\ forall path data,
       WriteBytes path data ∈ ops -> write_bytes disk path data = Fails error.
Proof.
  assert (Hno1 : forall a path data, WriteBytes path data ∈ [Mkdir a] -> False).
  { intros a path data H. apply list_elem_of_singleton in H. done. }
  assert (Hno2 : forall a b path data, WriteBytes path data ∈ [Mkdir a; Mkdir b] -> False).
  { intros a b path data H. apply elem_of_cons in H as [?|H]; [done|].
    apply list_elem_of_singleton in H. done. }
  unfold download_asset.
  destruct (mkdir disk (pathlib.str (pathlib.Path output_dir))).
  2:{ intros [= <- <- <-]. split_and!; [done | by left |].
      intros ?? H. by apply Hno1 in H. }
  destruct (urlparse env url) as [parsed_url|e].
  2:{ intros [= <- <- <-]. split_and!; [done | by left |].
      intros ?? H. by apply Hno1 in H. }
  destruct (fetch_url env url None) as [response|e].
  2:{ intros [= <- <- <-]. split_and!; [done | by left |].
      intros ?? H. by apply Hno1 in H. }
  destruct (mkdir disk _).
  2:{ intros [= <- <- <-]. split_and!; [done | by left |].
      intros ?? H. by apply Hno2 in H. }
  destruct (free_path disk fuel _ _ _ 1) as [[file_path|msg]|]; [| |done].
  2:{ intros [= <- <- <-]. split_and!; [done | by left |].
      intros ?? H. by apply Hno2 in H. }
  destruct (write_bytes disk (pathlib.str file_path) (content disk response))
    as [[]|msg] eqn:Hw; [done|].
  intros [= <- <- <-]. split_and!; [done | by left |].
  intros path data H. cbn [app] in H.
  apply elem_of_cons in H as [?|H]; [done|].
  apply elem_of_cons in H as [?|H]; [done|].
  apply list_elem_of_singleton in H. by injection H as -> ->.
Qed.

End DownloadStatements.

Lemma download_asset_returns_witness :
  exists ops,
    download_asset Shelf.env Shelf.disk 4 Shelf.logo "downloaded_site"
    = Some (Saved Shelf.logo "downloaded_site/images/logo_2.png" "image/png" 3, ops).
Proof.
  destruct (download_asset_returns Shelf.env Shelf.disk Shelf.existing 4
              Shelf.logo "downloaded_site") as (r & ops & Hr & _ & _).
  - intros p Hp. simpl in Hp. injection Hp as Hp.
    by apply bool_decide_eq_true in Hp.
  - vm_compute. lia.
  - exists ops. rewrite Hr. vm_compute in Hr. by injection Hr as <- <-.
Defined.

Lemma saved_file_is_new_witness :
  exists response final,
    fetch_url Shelf.env Shelf.logo None = Ret response
    /\ "downloaded_site/images/logo_2.png" = "downloaded_site/images" +:+ "/" +:+ final
    /\ path_exists Shelf.disk "downloaded_site/images/logo_2.png" = Done false.
Proof.
  destruct (saved_file_is_new Shelf.env Shelf.disk 4 Shelf.logo "downloaded_site"
              Shelf.logo "downloaded_site/images/logo_2.png" "image/png" 3
              [Mkdir "downloaded_site"; Mkdir "downloaded_site/images";
               WriteBytes "downloaded_site/images/logo_2.png" (list_byte_of_string "PNG")])
    as (response & final & _ & Hf & _ & _ & Hs & _ & _ & He & _).
  - vm_compute. reflexivity.
  - exists response, final. split; [exact Hf|]. split; [exact Hs | exact He].
Defined.

Lemma collision_counter_is_least_witness :
  exists k,
    1 <= k
    /\ "downloaded_site/images/logo_2.png"
       = pathlib.str (pathlib.joinpath (pathlib.Path "downloaded_site/images")
                        ("logo_" +:+ pretty k +:+ ".png"))
    /\ forall i, 1 <= i < k ->
         path_exists Shelf.disk
           (pathlib.str (pathlib.joinpath (pathlib.Path "downloaded_site/images")
                           ("logo_" +:+ pretty i +:+ ".png")))
         = Done true.
Proof.
  destruct (collision_counter_is_least Shelf.env Shelf.disk 4 Shelf.logo
              "downloaded_site"
              Shelf.logo "downloaded_site/images/logo_2.png" "image/png" 3
              [Mkdir "downloaded_site"; Mkdir "downloaded_site/images";
               WriteBytes "downloaded_site/images/logo_2.png" (list_byte_of_string "PNG")])
    as (parsed_url & Hp & Hcase).
  - vm_compute. reflexivity.
  - vm_compute in Hp. injection Hp as <-. cbv zeta in Hcase.
    destruct Hcase as [Hfirst | (_ & k & Hk & Hs & Hall)].
    + vm_compute in Hfirst. discriminate.
    + exists k. split; [exact Hk|]. split; [exact Hs | exact Hall].
Defined.

Lemma failed_download_writes_nothing_witness :
  download_asset Shelf.env Shelf.disk 1 "http://[" "out"
  = Some (Failed "http://[" "Invalid IPv6 URL", [Mkdir "out"])
  /\ Mkdir "out" ∈ [Mkdir "out"].
Proof.
  split; [vm_compute; reflexivity|].
  apply (failed_download_writes_nothing Shelf.env Shelf.disk 1 "http://[" "out"
           "http://[" "Invalid IPv6 URL" [Mkdir "out"]).
  vm_compute. reflexivity.
Defined.

(** ** The base URL of a base URL *)

Lemma all_chars_append p a b :
  Str.all_chars p (a +:+ b) = Str.all_chars p a && Str.all_chars p b.
Proof.
  induction a as [|x a IH]; [done|]. rewrite append_cons. simpl.
  by rewrite IH, andb_assoc.
Qed.

Lemma all_chars_impl (p q : ascii -> bool) s :
  (forall c, p c = true -> q c = true) ->
  Str.all_chars p s = true -> Str.all_chars q s = true.
Proof.
  intros Hpq. induction s as [|x s IH]; simpl; [done|].
  intros H. apply andb_true_iff in H as [Hx Hs].
  by rewrite (Hpq _ Hx), (IH Hs).
Qed.

Lemma all_chars_and (p q : ascii -> bool) s :
  Str.all_chars p s = true -> Str.all_chars q s = true ->
  Str.all_chars (fun c => p c && q c) s = true.
Proof.
  induction s as [|x s IH]; simpl; [done|].
  intros H1 H2. apply andb_true_iff in H1 as [-> H1].
  apply andb_true_iff in H2 as [-> H2]. simpl. auto.
Qed.

Lemma all_chars_take p n s :
  Str.all_chars p s = true -> Str.all_chars p (Str.take n s) = true.
Proof.
  revert n. induction s as [|x s IH]; intros [|n] H; simpl in *; try done.
  apply andb_true_iff in H as [-> H]. simpl. auto.
Qed.

Lemma all_chars_drop p n s :
  Str.all_chars p s = true -> Str.all_chars p (Str.drop n s) = true.
Proof.
  revert n. induction s as [|x s IH]; intros [|n] H; simpl in *; try done.
  apply andb_true_iff in H as [_ H]. auto.
Qed.

Lemma all_chars_remove p s :
  Str.all_chars (fun c => negb (p c)) (Str.remove_chars p s) = true.
Proof.
  induction s as [|x s IH]; simpl; [done|].
  destruct (p x) eqn:E; [done|]. simpl. by rewrite E.
Qed.

Lemma remove_chars_none p s :
  Str.all_chars (fun c => negb (p c)) s = true -> Str.remove_chars p s = s.
Proof.
  induction s as [|x s IH]; simpl; [done|].
  intros H. apply andb_true_iff in H as [Hx Hs].
  apply negb_true_iff in Hx. by rewrite Hx, (IH Hs).
Qed.

Lemma span_fst_all p s : Str.all_chars p (Str.span p s).1 = true.
Proof.
  induction s as [|x s IH]; simpl; [done|].
  destruct (p x) eqn:E; [|done].
  destruct (Str.span p s) as [a b]. simpl in *. by rewrite E.
Qed.

Lemma span_fst_keeps p q s :
  Str.all_chars q s = true -> Str.all_chars q (Str.span p s).1 = true.
Proof.
  induction s as [|x s IH]; simpl; [done|].
  intros H. apply andb_true_iff in H as [Hx Hs].
  destruct (p x); [|done].
  specialize (IH Hs). destruct (Str.span p s) as [a b]. simpl in *.
  by rewrite Hx.
Qed.

Lemma span_all p s : Str.all_chars p s = true -> Str.span p s = (s, "").
Proof.
  induction s as [|x s IH]; simpl; [done|].
  intros H. apply andb_true_iff in H as [-> Hs]. by rewrite (IH Hs).
Qed.

Lemma find_append_at c s r :
  Str.has_char c s = false ->
  Str.find c (s +:+ String c r) = Some (String.length s).
Proof.
  induction s as [|x s IH]; intros H.
  - simpl. unfold Str.eqc. by rewrite Ascii.eqb_refl.
  - rewrite append_cons. simpl in *. apply orb_false_iff in H as [-> H].
    by rewrite (IH H).
Qed.

Lemma take_append s r : Str.take (String.length s) (s +:+ r) = s.
Proof.
  induction s as [|x s IH]; [by destruct r|].
  rewrite append_cons. simpl. by rewrite IH.
Qed.

Lemma drop_append s r : Str.drop (String.length s) (s +:+ r) = r.
Proof.
  induction s as [|x s IH]; [by destruct r|]. rewrite append_cons. by simpl.
Qed.

Lemma take_find c i s :
  Str.find c s = Some i -> String.length (Str.take i s) = i.
Proof.
  revert i. induction s as [|x s IH]; intros i H; simpl in H; [done|].
  destruct (Str.eqc x c); [by injection H as <-|].
  destruct (Str.find c s) as [j|]; [|done]. injection H as <-.
  simpl. by rewrite (IH j).
Qed.

Lemma lower_char_idem c : Str.lower_char (Str.lower_char c) = Str.lower_char c.
Proof. by destruct c as [[] [] [] [] [] [] [] []]. Qed.

Lemma lower_idem s : Str.lower (Str.lower s) = Str.lower s.
Proof.
  induction s as [|x s IH]; simpl; [done|]. by rewrite lower_char_idem, IH.
Qed.

(** A character of a scheme, put in lower case, is still one, is kept by
    [urlsplit], and is not the colon. *)
Lemma lower_scheme_char c :
  urllib.scheme_char c = true ->
  urllib.scheme_char (Str.lower_char c) = true
  /\ urllib.unsafe_url_byte (Str.lower_char c) = false
  /\ Str.eqc (Str.lower_char c) ":"%char = false.
Proof. by destruct c as [[] [] [] [] [] [] [] []]. Qed.

Lemma lower_alpha c :
  Str.is_ascii_alpha c = true ->
  Str.is_ascii_alpha (Str.lower_char c) = true
  /\ urllib.c0_control_or_space (Str.lower_char c) = false.
Proof. by destruct c as [[] [] [] [] [] [] [] []]. Qed.

Lemma lower_scheme_chars s :
  Str.all_chars urllib.scheme_char s = true ->
  Str.all_chars urllib.scheme_char (Str.lower s) = true
  /\ Str.all_chars (fun c => negb (urllib.unsafe_url_byte c)) (Str.lower s) = true
  /\ Str.has_char ":" (Str.lower s) = false.
Proof.
  induction s as [|x s IH]; simpl; [done|].
  intros H. apply andb_true_iff in H as [Hx Hs].
  destruct (lower_scheme_char x Hx) as (-> & -> & ->).
  destruct (IH Hs) as (-> & -> & ->). done.
Qed.

Lemma urlsplit_steps check url :
  urllib.urlsplit check url "" =
  (let '(scheme, url) :=
     split_scheme (Str.remove_chars urllib.unsafe_url_byte
                     (Str.lstrip_of urllib.c0_control_or_space url)) in
   '(netloc, url) ← split_netloc check url;
   let '(url, fragment) :=
     match Str.partition "#" url with
     | (u, true, f) => (u, f)
     | _ => (url, EmptyString)
     end in
   let '(url, query) :=
     match Str.partition "?" url with
     | (u, true, q) => (u, q)
     | _ => (url, EmptyString)
     end in
   Ret (scheme, netloc, url, query, fragment)).
Proof.
  unfold urllib.urlsplit, split_scheme.
  cbn [Str.strip_of Str.lstrip_of Str.rstrip_of Str.remove_chars].
  set (u := Str.remove_chars urllib.unsafe_url_byte
              (Str.lstrip_of urllib.c0_control_or_space url)).
  assert (Hnet : forall B x (rest : string * string -> Res B),
    (if Str.startswith "//" x then
       let '(netloc, rest) := urllib.splitnetloc x in
       let open := Str.has_char "[" netloc in
       let close := Str.has_char "]" netloc in
       if (open && negb close) || (close && negb open)
       then Raise urllib.invalid_ipv6
       else
         _ ← (if open && close
              then urllib.check_bracketed_netloc check netloc else Ret tt);
         Ret (netloc, rest)
     else Ret (EmptyString, x)) ≫= rest
    = split_netloc check x ≫= rest).
  { intros B x rest. unfold split_netloc, checked_netloc.
    destruct (Str.startswith "//" x); [|done].
    destruct (urllib.splitnetloc x) as [netloc r].
    by destruct (Str.has_char "[" netloc), (Str.has_char "]" netloc). }
  destruct (Str.find ":" u) as [[|i]|]; try apply Hnet.
  destruct u as [|c0 u']; [apply Hnet|].
  destruct (Str.is_ascii_alpha c0
            && Str.all_chars urllib.scheme_char (Str.take (S i) (String c0 u')));
    apply Hnet.
Qed.

Lemma scheme_text_facts s :
  scheme_text s ->
  Str.all_chars (fun c => negb (urllib.unsafe_url_byte c)) s = true
  /\ Str.has_char ":" s = false
  /\ exists c0 r, s = String c0 r /\ Str.is_ascii_alpha c0 = true
                  /\ urllib.c0_control_or_space c0 = false.
Proof.
  intros (Hc & Hl & c0 & r & -> & Ha).
  destruct (lower_scheme_chars _ Hc) as (_ & Hs & Hn). rewrite Hl in Hs, Hn.
  split; [done|]. split; [done|]. exists c0, r. split; [done|]. split; [done|].
  assert (Hl0 : Str.lower_char c0 = c0) by (cbn [Str.lower] in Hl; congruence).
  destruct (lower_alpha c0 Ha) as [_ H0]. by rewrite Hl0 in H0.
Qed.

Lemma split_scheme_found u c0 u' i :
  u = String c0 u' -> Str.find ":" u = Some (S i) ->
  Str.is_ascii_alpha c0 = true ->
  Str.all_chars urllib.scheme_char (Str.take (S i) u) = true ->
  split_scheme u = (Str.lower (Str.take (S i) u), Str.drop (S (S i)) u).
Proof. intros -> Hf Ha Hs. unfold split_scheme. by rewrite Hf, Ha, Hs. Qed.

Lemma drop_append_cons s c r :
  Str.drop (S (String.length s)) (s +:+ String c r) = r.
Proof.
  induction s as [|x s IH]; [by destruct r|]. rewrite append_cons. by simpl.
Qed.

Lemma split_scheme_base s n :
  scheme_text s -> split_scheme (s +:+ "://" +:+ n) = (s, "//" +:+ n).
Proof.
  intros Hs. destruct (scheme_text_facts s Hs) as (_ & Hcolon & c0 & r & -> & Ha & _).
  destruct Hs as (Hc & Hl & _).
  change ("://" +:+ n) with (String ":" ("//" +:+ n)).
  rewrite (split_scheme_found _ c0 (r +:+ String ":" ("//" +:+ n)) (String.length r)).
  - change (S (String.length r)) with (String.length (String c0 r)).
    by rewrite take_append, drop_append_cons, Hl.
  - by rewrite append_cons.
  - by rewrite (find_append_at _ _ _ Hcolon).
  - done.
  - change (S (String.length r)) with (String.length (String c0 r)).
    by rewrite take_append.
Qed.

Lemma split_scheme_inv u s rest :
  split_scheme u = (s, rest) -> s = "" \/ scheme_text s.
Proof.
  unfold split_scheme.
  destruct (Str.find ":" u) as [[|i]|]; try (intros [= <- _]; by left).
  destruct u as [|c0 u']; [intros [= <- _]; by left|].
  destruct (Str.is_ascii_alpha c0) eqn:Ha; cbn [andb]; [|intros [= <- _]; by left].
  destruct (Str.all_chars urllib.scheme_char (Str.take (S i) (String c0 u')))
    eqn:Hc; [|intros [= <- _]; by left].
  intros [= <- _]. right. split; [|split].
  - by apply (lower_scheme_chars (Str.take (S i) (String c0 u'))).
  - apply (lower_idem (Str.take (S i) (String c0 u'))).
  - exists (Str.lower_char c0), (Str.lower (Str.take i u')). split; [done|].
    by apply lower_alpha.
Qed.

Lemma netloc_char_parts n :
  Str.all_chars netloc_char n = true ->
  Str.all_chars (fun c => negb (urllib.unsafe_url_byte c)) n = true
  /\ Str.all_chars (fun c => negb (Str.eqc c "/"%char || Str.eqc c "?"%char
                                   || Str.eqc c "#"%char)) n = true.
Proof.
  intros H. split; apply (all_chars_impl netloc_char); try done;
    intros c Hc; apply andb_true_iff in Hc as [? ?]; done.
Qed.

Lemma split_netloc_base check n :
  Str.all_chars netloc_char n = true ->
  split_netloc check ("//" +:+ n) = (_ ← checked_netloc check n; Ret (n, "")).
Proof.
  intros H. destruct (netloc_char_parts n H) as [_ Hp].
  change ("//" +:+ n) with (String "/" (String "/" n)).
  unfold split_netloc, urllib.splitnetloc.
  cbn [Str.startswith Str.drop].
  change (Str.eqc "/" "/") with true. cbn [andb].
  by rewrite (span_all _ _ Hp).
Qed.

Lemma split_netloc_inv check u n rest :
  Str.all_chars (fun c => negb (urllib.unsafe_url_byte c)) u = true ->
  split_netloc check u = Ret (n, rest) ->
  Str.all_chars netloc_char n = true /\ checked_netloc check n = Ret tt.
Proof.
  intros Hu. unfold split_netloc.
  destruct (Str.startswith "//" u).
  - unfold urllib.splitnetloc.
    pose proof (span_fst_all
      (fun c => negb (Str.eqc c "/"%char || Str.eqc c "?"%char
                      || Str.eqc c "#"%char)) (Str.drop 2 u)) as H1.
    pose proof (span_fst_keeps
      (fun c => negb (Str.eqc c "/"%char || Str.eqc c "?"%char
                      || Str.eqc c "#"%char)) _ (Str.drop 2 u)
      (all_chars_drop _ 2 u Hu)) as H2.
    destruct (Str.span _ (Str.drop 2 u)) as [n' rest']. simpl in H1, H2.
    destruct (checked_netloc check n') as [[]|e] eqn:Hc; [|done].
    intros [= <- <-]. split; [|done].
    by apply (all_chars_and _ _ n').
  - intros [= <- <-]. done.
Qed.

Lemma urlsplit_base check s n :
  scheme_text s -> Str.all_chars netloc_char n = true ->
  checked_netloc check n = Ret tt ->
  urllib.urlsplit check (s +:+ "://" +:+ n) "" = Ret (s, n, "", "", "").
Proof.
  intros Hs Hn Hc. rewrite urlsplit_steps.
  destruct (scheme_text_facts s Hs) as (Hsafe & _ & c0 & r & Hs0 & _ & H0).
  destruct (netloc_char_parts n Hn) as [Hnsafe _].
  assert (Hstrip : Str.lstrip_of urllib.c0_control_or_space (s +:+ "://" +:+ n)
                   = s +:+ "://" +:+ n).
  { rewrite Hs0, append_cons. cbn [Str.lstrip_of]. by rewrite H0. }
  rewrite Hstrip, remove_chars_none.
  - rewrite (split_scheme_base s n Hs), (split_netloc_base check n Hn), Hc.
    reflexivity.
  - rewrite !all_chars_append, Hsafe, Hnsafe. done.
Qed.

Lemma urlsplit_inv check url s n p q f :
  urllib.urlsplit check url "" = Ret (s, n, p, q, f) ->
  (s = "" \/ scheme_text s)
  /\ Str.all_chars netloc_char n = true /\ checked_netloc check n = Ret tt.
Proof.
  rewrite urlsplit_steps.
  set (u := Str.remove_chars urllib.unsafe_url_byte _).
  assert (Hu : Str.all_chars (fun c => negb (urllib.unsafe_url_byte c)) u = true)
    by apply all_chars_remove.
  destruct (split_scheme u) as [s' u1] eqn:Hsch.
  assert (Hu1 : Str.all_chars (fun c => negb (urllib.unsafe_url_byte c)) u1 = true).
  { revert Hsch. unfold split_scheme.
    destruct (Str.find ":" u) as [[|i]|]; try (by intros [= _ <-]).
    destruct u as [|c0 u']; [by intros [= _ <-]|].
    destruct (_ && _); intros [= _ <-]; [|done].
    by apply (all_chars_drop _ (S (S i)) (String c0 u')). }
  destruct (split_netloc check u1) as [[n' u2]|e] eqn:Hnet; [|done].
  simpl. intros H.
  assert (s' = s /\ n' = n) as [-> ->].
  { destruct (Str.partition "#" u2) as [[? []] ?];
      destruct (Str.partition "?" _) as [[? []] ?]; by injection H. }
  split; [by eapply split_scheme_inv|]. by eapply split_netloc_inv.
Qed.

(** X22.  The base URL of a URL with a scheme parses back to that scheme
    and that network location with nothing else, so it is its own base
    URL; the base URL of a URL with no scheme and no network location is
    its own base URL as well.  (A URL with a network location and no
    scheme, as one that starts with two slashes, has a base URL that
    starts with a colon, which parses differently.) *)
Theorem base_url_round_trip env url p :
  urlparse env url = Ret p ->
  let base := urllib.scheme p +:+ "://" +:+ urllib.netloc p in
  get_base_url env url = Ret base
  /\ (urllib.scheme p <> "" ->
      urlparse env base
      = Ret (urllib.mkParseResult (urllib.scheme p) (urllib.netloc p) "" "" "" ""))
  /\ (urllib.scheme p <> "" \/ urllib.netloc p = "" ->
      get_base_url env base = Ret base).
Proof.
  intros Hp base.
  assert (H1 : get_base_url env url = Ret base).
  { unfold get_base_url. by rewrite Hp. }
  assert (H2 : urllib.scheme p <> "" ->
               urlparse env base
               = Ret (urllib.mkParseResult (urllib.scheme p) (urllib.netloc p)
                        "" "" "" "")).
  { intros Hs. unfold urlparse, urllib.urlparse, urllib.urlparse_with in Hp.
    destruct (urllib.urlsplit (check_bracketed_host env) url "")
      as [[[[[s n] u] q] f]|e] eqn:Hsplit; [|done].
    apply urlsplit_inv in Hsplit as (Hscheme & Hn & Hc).
    assert (Hsn : urllib.scheme p = s /\ urllib.netloc p = n).
    { simpl in Hp. destruct (_ && _); [destruct (urllib.splitparams u)|];
        by injection Hp as <-. }
    destruct Hsn as [Es En]. unfold base. rewrite Es, En in *.
    destruct Hscheme as [-> | Hscheme]; [done|].
    unfold urlparse, urllib.urlparse, urllib.urlparse_with.
    rewrite (urlsplit_base _ s n Hscheme Hn Hc). simpl.
    by rewrite andb_false_r. }
  split; [done|]. split; [done|].
  intros Hs. destruct (decide (urllib.scheme p = "")) as [E|E].
  - destruct Hs as [Hs | En]; [done|]. unfold base. rewrite E, En. reflexivity.
  - unfold get_base_url. by rewrite (H2 E).
Qed.

Lemma base_url_round_trip_witness :
  get_base_url Example.env "HTTP://Example.com:80/a/b;x?q=1#top"
    = Ret "http://Example.com:80"
  /\ urlparse Example.env "http://Example.com:80"
     = Ret (urllib.mkParseResult "http" "Example.com:80" "" "" "" "")
  /\ get_base_url Example.env "http://Example.com:80"
     = Ret "http://Example.com:80".
Proof.
  destruct (base_url_round_trip Example.env "HTTP://Example.com:80/a/b;x?q=1#top"
           (urllib.mkParseResult "http" "Example.com:80" "/a/b" "x" "q=1" "top"))
    as (H1 & H2 & H3).
  - vm_compute. reflexivity.
  - split; [exact H1|]. split; [apply H2; discriminate|].
    apply H3. left. discriminate.
Defined.

(** ** The texts of the links *)

Lemma rstrip_of_idem p s : Str.rstrip_of p (Str.rstrip_of p s) = Str.rstrip_of p s.
Proof.
  induction s as [|c s IH]; [done|]. cbn [Str.rstrip_of].
  destruct (Str.rstrip_of p s) as [|c' r] eqn:E.
  - destruct (p c) eqn:Hc; [done|]. cbn [Str.rstrip_of]. by rewrite Hc.
  - cbn [Str.rstrip_of] in *. rewrite IH. done.
Qed.

Lemma lstrip_of_head p s :
  Str.lstrip_of p s = "" \/ exists c r, Str.lstrip_of p s = String c r /\ p c = false.
Proof.
  induction s as [|c s IH]; [by left|]. cbn [Str.lstrip_of].
  destruct (p c) eqn:E; [done|]. right. eauto.
Qed.

Lemma rstrip_of_head p c r :
  p c = false -> exists r', Str.rstrip_of p (String c r) = String c r'.
Proof.
  intros Hc. cbn [Str.rstrip_of]. destruct (Str.rstrip_of p r); [|eauto].
  rewrite Hc. eauto.
Qed.

Lemma strip_of_idem p s : Str.strip_of p (Str.strip_of p s) = Str.strip_of p s.
Proof.
  unfold Str.strip_of.
  destruct (lstrip_of_head p s) as [-> | (c & r & -> & Hc)]; [done|].
  destruct (rstrip_of_head p c r Hc) as [r' Hr].
  assert (Hl : Str.lstrip_of p (Str.rstrip_of p (String c r))
               = Str.rstrip_of p (String c r)).
  { rewrite Hr. cbn [Str.lstrip_of]. by rewrite Hc. }
  by rewrite Hl, rstrip_of_idem.
Qed.

Lemma link_target_text env base link lk :
  link_target env base link = Ret (Some lk) ->
  link_text lk <> "" /\ Str.strip (link_text lk) = link_text lk.
Proof.
  unfold link_target. intros H.
  destruct (bs4.attrs link !! "href") as [href|]; [|discriminate].
  change (Ret href ≫= ?k) with (k href) in H. cbv beta in H.
  destruct (negb (Str.truthy href) || Str.startswith "#" href
            || Str.startswith "javascript:" href || Str.startswith "mailto:" href);
    [discriminate|].
  destruct (normalize_url env base href) as [full_url|e]; [|discriminate].
  change (Ret full_url ≫= ?k) with (k full_url) in H. cbv beta in H.
  destruct (get_base_url env full_url) as [full_base|e] eqn:Hb; [|discriminate].
  change (Ret full_base ≫= ?k) with (k full_base) in H. cbv beta in H.
  destruct (String.eqb full_base base) eqn:Heq; [|discriminate].
  injection H as <-. cbn [link_text].
  destruct (Str.truthy (Str.strip (bs4.text link))) eqn:E.
  - split; [by destruct (Str.strip (bs4.text link))|]. apply strip_of_idem.
  - done.
Qed.

Lemma crawl_recorded_links env base max_depth (P : Link -> Prop) :
  (forall link lk, link_target env base link = Ret (Some lk) -> P lk) ->
  forall fuel u d st st',
    crawl env base max_depth fuel u d st = Some st' ->
    (forall lk, lk ∈ sitemap_links (cs_sitemap st) -> P lk) ->
    forall lk, lk ∈ sitemap_links (cs_sitemap st') -> P lk.
Proof.
  intros HP fuel u d st st' H.
  refine (crawl_calls env base max_depth (fun _ _ => True)
            (fun a b => (forall lk, lk ∈ sitemap_links (cs_sitemap a) -> P lk) ->
                        forall lk, lk ∈ sitemap_links (cs_sitemap b) -> P lk)
            _ _ _ _ _ _ fuel u d st st' H I); clear - HP.
  - auto.
  - auto.
  - done.
  - intros u d st e _ _ He Hst lk Hlk. simpl in Hlk.
    apply sitemap_links_snoc in Hlk as [Hlk|(ls & Hls & Hlk)]; [auto|].
    destruct He as [(msg & ->)|(t & ->)]; simpl in Hls; [done|].
    injection Hls as <-. inversion Hlk.
  - intros link lk idx st Ht Hst lk' Hlk. simpl in Hlk.
    apply sitemap_links_alter in Hlk as [->|Hlk]; [by eapply HP | auto].
  - intros u msg st _ _ Hst lk Hlk. simpl in Hlk.
    apply sitemap_links_snoc in Hlk as [Hlk|(ls & Hls & Hlk)]; [auto|done].
Qed.

(** X23.  Every link that [create_site_map] records has a text that is not
    empty and has no white space at its ends: the text of the anchor
    stripped, or [No text] when that is empty. *)
Theorem link_texts_are_stripped env fuel url max_depth sm :
  create_site_map env fuel url max_depth = Some (Ret sm) ->
  forall lk, lk ∈ sitemap_links (sitemap sm) ->
    link_text lk <> "" /\ Str.strip (link_text lk) = link_text lk.
Proof.
  unfold create_site_map.
  destruct (get_base_url env url) as [base|e] eqn:Hb; [|discriminate].
  destruct (crawl env base max_depth fuel url 1 (mkCrawlState ∅ [] []))
    as [st'|] eqn:Hc; [|discriminate].
  intros [= <-]. simpl.
  apply (crawl_recorded_links env base max_depth _
           (link_target_text env base) _ _ _ _ _ Hc).
  intros lk Hlk. inversion Hlk.
Qed.

Lemma link_texts_are_stripped_witness :
  link_text (mkLink "http://example.com/b" "No text") <> ""
  /\ Str.strip (link_text (mkLink "http://example.com/b" "No text"))
     = link_text (mkLink "http://example.com/b" "No text").
Proof.
  apply (link_texts_are_stripped Example.env 3 Example.home 3
    (mkSiteMap "http://example.com" 5
          [PageInfo "http://example.com/" "Home"
             [mkLink "http://example.com/a" "A";
              mkLink "http://example.com/b" "B";
              mkLink "http://example.com/c" "C"];
           PageInfo "http://example.com/a" "A"
             [mkLink "http://example.com/b" "B";
              mkLink "http://example.com/b" "No text";
              mkLink "http://example.com/" "Home"];
           PageInfo "http://example.com/b" "B" [];
           PageInfo "http://example.com/c" "No title" [];
           ErrorEntry "http://example.com/c" "Invalid IPv6 URL"])
    ltac:(vm_compute; reflexivity)).
  simpl. repeat constructor.
Defined.

(** ** Every link of the sitemap has an entry *)

Section Followed.

Variable env : Env.
Variable base : string.
Variable max_depth : Z.

Lemma links_followed_append pending e st :
  default [] (entry_links e) = [] ->
  links_followed pending st -> links_followed pending (sitemap_append e st).
Proof.
  intros He H lk Hlk. simpl in Hlk.
  apply sitemap_links_snoc in Hlk as [Hlk|(ls & Hls & Hlk)]; [by apply H|].
  rewrite Hls in He. simpl in He. subst ls. inversion Hlk.
Qed.

Lemma links_followed_visit pending u st :
  links_followed pending st ->
  links_followed pending (log_fetch u (visit u st)).
Proof.
  intros H lk Hlk. destruct (H lk Hlk) as [Hv|Hp]; [left|by right].
  simpl. apply elem_of_union. by right.
Qed.

Lemma crawl_links_followed rec idx depth links :
  (forall pending u s s',
     rec u (depth + 1)%Z s = Some s' ->
     links_followed pending s ->
     links_followed pending s' /\ u ∈ cs_visited s') ->
  forall st st' exn pending,
    crawl_links env base rec idx depth links st = Some (st', exn) ->
    links_followed pending st -> links_followed pending st'.
Proof.
  intros Hrec. induction links as [|link rest IH];
    intros st st' exn pending H Hst; simpl in H.
  - by injection H as <- <-.
  - destruct (link_target env base link) as [[lk|]|e] eqn:Ht.
    + destruct (rec (link_url lk) (depth + 1)%Z (links_append idx lk st))
        as [st1|] eqn:Hr; [|discriminate].
      apply (IH _ _ _ _ H).
      destruct (Hrec (fun x => x = link_url lk \/ pending x) _ _ _ Hr)
        as [Hst1 Hv].
      * intros lk' Hlk'. simpl in Hlk'.
        apply sitemap_links_alter in Hlk' as [->|Hlk']; [right; by left|].
        destruct (Hst lk' Hlk') as [?|?]; [by left | right; by right].
      * intros lk' Hlk'. destruct (Hst1 lk' Hlk') as [?|[E|?]];
          [by left | left; by rewrite E | by right].
    + by apply (IH _ _ _ _ H).
    + by injection H as <- <-.
Qed.

Lemma crawl_followed fuel u d st st' pending :
  crawl env base max_depth fuel u d st = Some st' ->
  links_followed pending st -> links_followed pending st'.
Proof.
  revert u d st st' pending.
  induction fuel as [|fuel IH]; intros u d st st' pending H Hst; [discriminate|].
  rewrite crawl_S in H.
  destruct (cut max_depth u d st); [by injection H as <-|].
  unfold crawl_try in H.
  pose proof (links_followed_visit pending u st Hst) as H0.
  destruct (fetch_url env u None) as [response|e].
  - case_bool_decide as Hd.
    + match type of H with
      | context [crawl_links env base ?r ?i ?d ?l ?s] =>
          destruct (crawl_links env base r i d l s) as [[st1 exn]|] eqn:Hl;
            [|discriminate]
      end.
      assert (H1 : links_followed pending st1).
      { apply (crawl_links_followed _ _ _ _) with (pending := pending) in Hl.
        - exact Hl.
        - intros X u' s s' Hr Hs. split; [by eapply IH|].
          eapply crawl_visits; [exact Hr | lia].
        - by apply links_followed_append. }
      destruct exn; injection H as <-; [by apply links_followed_append | done].
    + injection H as <-. by apply links_followed_append.
  - injection H as <-. by apply links_followed_append.
Qed.

End Followed.

(** X24.  The sitemap of [create_site_map] is closed under its links:
    every link recorded in an entry points to a URL that has an entry of
    its own, a page entry or an error entry.  (Links are recorded only at
    a depth below [max_depth], and every recorded link is followed.) *)
Theorem recorded_links_have_entries env fuel url max_depth sm :
  create_site_map env fuel url max_depth = Some (Ret sm) ->
  forall lk, lk ∈ sitemap_links (sitemap sm) ->
    link_url lk ∈ entry_url <$> sitemap sm.
Proof.
  unfold create_site_map.
  destruct (get_base_url env url) as [base|e] eqn:Hb; [|discriminate].
  destruct (crawl env base max_depth fuel url 1 (mkCrawlState ∅ [] []))
    as [st'|] eqn:Hc; [|discriminate].
  intros [= <-] lk Hlk. simpl in *.
  assert (Hrep : reported st').
  { apply (crawl_reported _ _ _ _ _ _ _ _ Hc).
    intros y. simpl. split; split; intros Hy; inversion Hy. }
  apply (Hrep (link_url lk)).
  assert (Hf : links_followed (fun _ => False) st').
  { apply (crawl_followed env base max_depth fuel url 1 _ st' _ Hc).
    intros lk' Hlk'. inversion Hlk'. }
  by destruct (Hf lk Hlk) as [Hv|[]].
Qed.

Lemma recorded_links_have_entries_witness :
  "http://example.com/c"
  ∈ entry_url <$>
      [PageInfo "http://example.com/" "Home"
         [mkLink "http://example.com/a" "A"; mkLink "http://example.com/b" "B";
          mkLink "http://example.com/c" "C"];
       PageInfo "http://example.com/a" "A" [];
       PageInfo "http://example.com/b" "B" [];
       PageInfo "http://example.com/c" "No title" []].
Proof.
  apply (recorded_links_have_entries Example.env 2 Example.home 2
    (mkSiteMap "http://example.com" 4
       [PageInfo "http://example.com/" "Home"
          [mkLink "http://example.com/a" "A"; mkLink "http://example.com/b" "B";
           mkLink "http://example.com/c" "C"];
        PageInfo "http://example.com/a" "A" [];
        PageInfo "http://example.com/b" "B" [];
        PageInfo "http://example.com/c" "No title" []])
    ltac:(vm_compute; reflexivity)
    (mkLink "http://example.com/c" "C")).
  simpl. repeat constructor.
Defined.

(** ** The videos of a page *)

Lemma elem_of_attr_refs attr tag ref :
  ref ∈ attr_refs attr tag <-> bs4.attrs tag !! attr = Some ref.
Proof.
  unfold attr_refs. destruct (bs4.attrs tag !! attr) as [r|]; simpl.
  - rewrite list_elem_of_singleton. split; [by intros -> | by intros [= ->]].
  - split; [intros H; inversion H | done].
Qed.

(** X25.  The videos that [extract_assets] returns are the resolved [src]
    attributes of the [source] tags below the [video] tags, and all of
    them: the [src] attribute of a [video] tag itself is not looked at. *)
Theorem videos_from_source_tags env url html_content d :
  let soup := BeautifulSoup env html_content in
  extract_assets env url html_content = Ret d ->
  exists base videos,
    get_base_url env url = Ret base
    /\ d !! "videos" = Some videos
    /\ forall u,
         u ∈ videos <->
         exists video source src,
           video ∈ bs4.find_all ["video"] [] soup
           /\ source ∈ bs4.find_all ["source"] [] video
           /\ bs4.attrs source !! "src" = Some src
           /\ normalize_url env base src = Ret u.
Proof.
  intros soup H.
  destruct (discovered_lookup env url html_content d "videos" H)
    as (base & urls & Hb & Hm & Hd).
  { unfold asset_keys. set_solver. }
  exists base, urls. split; [done|]. split; [done|]. intros u.
  rewrite (map_res_elem _ _ _ u Hm).
  change (discovered "videos" (BeautifulSoup env html_content))
    with (videos_refs soup).
  unfold videos_refs, video_refs. split.
  - intros (src & Hin & Hn).
    apply elem_of_flat_map in Hin as (video & Hv & Hin).
    apply elem_of_flat_map in Hin as (source & Hs & Hr).
    apply elem_of_attr_refs in Hr. by exists video, source, src.
  - intros (video & source & src & Hv & Hs & Hr & Hn). exists src.
    split; [|done]. apply elem_of_flat_map. exists video. split; [done|].
    apply elem_of_flat_map. exists source. split; [done|].
    by apply elem_of_attr_refs.
Qed.

Lemma videos_from_source_tags_witness :
  exists d,
    extract_assets Cinema.env Example.home Cinema.html = Ret d
    /\ d !! "videos" = Some ["http://example.com/clip.webm"].
Proof.
  destruct (extract_assets Cinema.env Example.home Cinema.html)
    as [d|e] eqn:Hd; [|vm_compute in Hd; discriminate].
  exists d. split; [reflexivity|].
  destruct (videos_from_source_tags Cinema.env Example.home Cinema.html d Hd)
    as (base & videos & _ & Hl & _).
  rewrite Hl. vm_compute in Hd. injection Hd as <-. vm_compute in Hl.
  injection Hl as <-. reflexivity.
Defined.
